(** * PenguinMod-Vm: the block-to-JavaScript compiler core and the interpolator

    A shallow embedding of [src/compiler/jsgen.js] (typed inputs, frame
    stack, expression and statement lowering) and of the interpolation
    helpers ([restoreTargets], [setupTargets], [interpolateTargets]),
    followed by the properties established about them.

    Conventions of the embedding:
    - a JavaScript string is a [string]; every character stands for one
      code unit below 256;
    - no extension has registered a transformer, so [descendInput] and
      [descendStackedBlock] go straight to their [switch];
    - a JavaScript number is an IEEE 754 binary64 value, written with the
      Standard Library's [spec_float] and rounded by its operations;
    - the generator object is a record that is threaded through a small
      state-and-exception monad; [VariableInput] objects are mutable and
      shared, so they live in an explicit object store and are named by
      their address. *)

From Stdlib Require Import ZArith NArith String Ascii List Bool Lia.
From Stdlib Require Import DecimalString.
From Stdlib Require Import Floats.SpecFloat.
From stdpp Require Import base option list gmap strings.

Local Open Scope string_scope.
Local Open Scope Z_scope.

(** ** JavaScript primitives used by the compiler *)

(** *** Characters and strings *)

Definition code (c : ascii) : Z := Z.of_N (N_of_ascii c).
Definition chr (n : Z) : ascii := ascii_of_N (Z.to_N n).

Definition str1 (c : ascii) : string := String c EmptyString.

(** Characters that cannot be written inside a literal. *)
Definition dq : string := str1 (chr 34).
Definition nl : string := str1 (chr 10).
Definition bs : string := str1 (chr 92).

(** WhiteSpace and LineTerminator code units below 256:
    TAB, LF, VT, FF, CR, SP and NBSP. *)
Definition is_whitespace (c : ascii) : bool :=
  let n := code c in
  ((9 <=? n) && (n <=? 13)) || (n =? 32) || (n =? 160).

Fixpoint trimStart (s : string) : string :=
  match s with
  | EmptyString => EmptyString
  | String c r => if is_whitespace c then trimStart r else s
  end.

Fixpoint trimEnd (s : string) : string :=
  match s with
  | EmptyString => EmptyString
  | String c r =>
      match trimEnd r with
      | EmptyString => if is_whitespace c then EmptyString else str1 c
      | r' => String c r'
      end
  end.

(** [String.prototype.trim]. *)
Definition trim (s : string) : string := trimEnd (trimStart s).

Definition lower_char (c : ascii) : ascii :=
  let n := code c in
  if ((65 <=? n) && (n <=? 90))
     || ((192 <=? n) && (n <=? 222) && negb (n =? 215))
  then chr (n + 32) else c.

(** [String.prototype.toLowerCase]. *)
Fixpoint toLowerCase (s : string) : string :=
  match s with
  | EmptyString => EmptyString
  | String c r => String (lower_char c) (toLowerCase r)
  end.

(** [String.prototype.startsWith]. *)
Definition startsWith (s p : string) : bool := String.prefix p s.

Fixpoint concat_all (l : list string) : string :=
  match l with
  | [] => ""
  | s :: r => s +:+ concat_all r
  end.

(** [Array.prototype.join]. *)
Fixpoint join (sep : string) (l : list string) : string :=
  match l with
  | [] => ""
  | [s] => s
  | s :: r => s +:+ sep +:+ join sep r
  end.

Definition hex_digit (n : Z) : ascii :=
  if n <? 10 then chr (48 + n) else chr (87 + n).

(** One code unit as [JSON.stringify] quotes it inside a string. *)
Definition json_escape (c : ascii) : string :=
  let n := code c in
  if n =? 34 then bs +:+ dq
  else if n =? 92 then bs +:+ bs
  else if n =? 8 then bs +:+ "b"
  else if n =? 9 then bs +:+ "t"
  else if n =? 10 then bs +:+ "n"
  else if n =? 12 then bs +:+ "f"
  else if n =? 13 then bs +:+ "r"
  else if n <? 32 then
    bs +:+ "u00" +:+ str1 (hex_digit (n / 16)) +:+ str1 (hex_digit (n mod 16))
  else str1 c.

Fixpoint json_body (s : string) : string :=
  match s with
  | EmptyString => EmptyString
  | String c r => json_escape c +:+ json_body r
  end.

(** [JSON.stringify] of a string. *)
Definition JSON_stringify (s : string) : string := dq +:+ json_body s +:+ dq.

(** [sanitize]: [JSON.stringify(string).slice(1, -1)]. *)
Definition sanitize (s : string) : string := json_body s.

(** *** Numbers *)

Definition Number : Type := spec_float.

Definition prec : Z := 53.
Definition emax : Z := 1024.

Definition NaN : Number := S754_nan.
Definition pos_zero : Number := S754_zero false.
Definition neg_zero : Number := S754_zero true.
Definition Infinity : Number := S754_infinity false.

Definition Number_isNaN (n : Number) : bool :=
  match n with S754_nan => true | _ => false end.

(** [Number.isFinite]. *)
Definition Number_isFinite (n : Number) : bool :=
  match n with
  | S754_zero _ | S754_finite _ _ _ => true
  | _ => false
  end.

(** Truthiness of a number: everything but [0], [-0] and [NaN]. *)
Definition truthy_number (n : Number) : bool :=
  match n with
  | S754_zero _ | S754_nan => false
  | _ => true
  end.

(** [Object.is(n, -0)]. *)
Definition is_negative_zero (n : Number) : bool :=
  match n with S754_zero true => true | _ => false end.

(** [===] on numbers. *)
Definition Number_strict_equal (a b : Number) : bool := SFeqb a b.

(** The binary64 value nearest to [(-1)^s * m * 10^e] (ties to even);
    [m] is a natural number. *)
Definition decimal_to_Number (s : bool) (m e : Z) : Number :=
  match m with
  | Zpos p =>
      if 0 <=? e
      then binary_normalize prec emax
             (if s then - (m * 10 ^ e) else m * 10 ^ e) 0 s
      else SFdiv prec emax (S754_finite s p 0)
             (S754_finite false (Z.to_pos (10 ^ (- e))) 0)
  | _ => S754_zero s
  end.

Definition Number_of_Z (z : Z) : Number :=
  binary_normalize prec emax z 0 false.

Definition digit_in (base : Z) (c : ascii) : option Z :=
  let n := code c in
  let d :=
    if (48 <=? n) && (n <=? 57) then n - 48
    else if (97 <=? n) && (n <=? 122) then n - 87
    else if (65 <=? n) && (n <=? 90) then n - 55
    else 36 in
  if d <? base then Some d else None.

(** The longest prefix of digits in [base], and what follows it. *)
Fixpoint span_digits (base : Z) (s : string) : list Z * string :=
  match s with
  | EmptyString => ([], EmptyString)
  | String c r =>
      match digit_in base c with
      | Some d => let '(ds, rest) := span_digits base r in (d :: ds, rest)
      | None => ([], s)
      end
  end.

Definition digits_value (base : Z) (ds : list Z) : Z :=
  fold_left (fun acc d => acc * base + d) ds 0.

Definition read_sign (s : string) : bool * string :=
  match s with
  | String "+" r => (false, r)
  | String "-" r => (true, r)
  | _ => (false, s)
  end.

(** NonDecimalIntegerLiteral: [0x], [0o], [0b] and at least one digit. *)
Definition parse_nondecimal (s : string) : option Number :=
  match s with
  | String "0" (String c r) =>
      let base :=
        if (c =? "x")%char || (c =? "X")%char then Some 16
        else if (c =? "o")%char || (c =? "O")%char then Some 8
        else if (c =? "b")%char || (c =? "B")%char then Some 2
        else None in
      match base with
      | Some b =>
          match span_digits b r with
          | (d :: ds, EmptyString) => Some (Number_of_Z (digits_value b (d :: ds)))
          | _ => None
          end
      | None => None
      end
  | _ => None
  end.

(** ExponentPart, when present; [None] when what is left is not one. *)
Definition parse_exponent (s : string) : option Z :=
  match s with
  | EmptyString => Some 0
  | String c r =>
      if (c =? "e")%char || (c =? "E")%char then
        let '(neg, r1) := read_sign r in
        match span_digits 10 r1 with
        | (d :: ds, EmptyString) =>
            let v := digits_value 10 (d :: ds) in
            Some (if neg then - v else v)
        | _ => None
        end
      else None
  end.

(** StrDecimalLiteral. *)
Definition parse_decimal (s : string) : option Number :=
  let '(neg, r) := read_sign s in
  if String.eqb r "Infinity" then Some (S754_infinity neg)
  else
    let '(ip, r1) := span_digits 10 r in
    let '(fp, r2) :=
      match r1 with
      | String "." r' => span_digits 10 r'
      | _ => ([], r1)
      end in
    match (ip ++ fp)%list with
    | [] => None
    | ds =>
        match parse_exponent r2 with
        | Some e =>
            Some (decimal_to_Number neg (digits_value 10 ds)
                    (e - Z.of_nat (length fp)))
        | None => None
        end
    end.

(** StringToNumber: the unary [+] on a string. *)
Definition StringToNumber (str : string) : Number :=
  let s := trim str in
  if String.eqb s "" then pos_zero
  else
    match parse_nondecimal s with
    | Some n => n
    | None =>
        match parse_decimal s with
        | Some n => n
        | None => NaN
        end
    end.

(** The decimal numeral of a natural number. *)
Definition decimal_of_Z (z : Z) : string :=
  NilZero.string_of_uint (N.to_uint (Z.to_N z)).

Fixpoint zeros (n : nat) : string :=
  match n with
  | O => ""
  | S k => "0" +:+ zeros k
  end.

(** [s.slice(0, n)] and [s.slice(n)]. *)
Fixpoint split_at (n : nat) (s : string) : string * string :=
  match n, s with
  | S k, String c r => let '(a, b) := split_at k r in (String c a, b)
  | _, _ => ("", s)
  end.

(** [x / 10^j] for the fraction [num / den]. *)
Definition scale10 (num den j : Z) : Z * Z :=
  if 0 <=? j then (num, den * 10 ^ j) else (num * 10 ^ (- j), den).

(** The least [n], from [start] on, with [num / den < 10^n]. *)
Fixpoint decimal_exponent (fuel : nat) (num den n : Z) : Z :=
  match fuel with
  | O => n
  | S f =>
      let '(a, b) := scale10 num den n in
      if a <? b then n else decimal_exponent f num den (n + 1)
  end.

(** The [k]-digit decimal [s * 10^(n-k)] nearest to [x = num / den] that
    reads back as [x], when there is one; [10^(n-1) <= x < 10^n]. *)
Definition shortest_candidate (x : Number) (num den n k : Z) : option (Z * Z) :=
  let '(a, b) := scale10 num den (n - k) in
  let lo := a / b in
  let hi := lo + 1 in
  let r := a mod b in
  let reads s := SFeqb (decimal_to_Number false s (n - k)) x in
  let up := if hi =? 10 ^ k then (10 ^ (k - 1), n + 1) else (hi, n) in
  match reads lo, reads hi with
  | true, true =>
      if 2 * r <? b then Some (lo, n)
      else if b <? 2 * r then Some up
      else if Z.even lo then Some (lo, n) else Some up
  | true, false => Some (lo, n)
  | false, true => Some up
  | false, false => None
  end.

Fixpoint shortest_digits (fuel : nat) (x : Number) (num den n k : Z)
  : Z * Z * Z :=
  match fuel with
  | O => (0, n, k)
  | S f =>
      match shortest_candidate x num den n k with
      | Some (s, n') => (s, n', k)
      | None => shortest_digits f x num den n (k + 1)
      end
  end.

(** Number::toString for a positive finite value [m * 2^e]: the digits
    [s], their number [k] and the exponent [n] of the specification, then
    the four layouts. *)
Definition positive_toString (m : positive) (e : Z) : string :=
  let '(num, den) :=
    if 0 <=? e then (Zpos m * 2 ^ e, 1) else (Zpos m, 2 ^ (- e)) in
  let est := ((Z.log2 num - Z.log2 den) * 30103) / 100000 - 1 in
  let n0 := decimal_exponent 6 num den est in
  let '(s, n, k) :=
    shortest_digits 17 (S754_finite false m e) num den n0 1 in
  let ds := decimal_of_Z s in
  if (k <=? n) && (n <=? 21) then ds +:+ zeros (Z.to_nat (n - k))
  else if (0 <? n) && (n <=? 21) then
    let '(a, b) := split_at (Z.to_nat n) ds in a +:+ "." +:+ b
  else if (-6 <? n) && (n <=? 0) then
    "0." +:+ zeros (Z.to_nat (- n)) +:+ ds
  else
    let ex := (if 0 <=? n - 1 then "+" else "-") +:+ decimal_of_Z (Z.abs (n - 1)) in
    if k =? 1 then ds +:+ "e" +:+ ex
    else let '(a, b) := split_at 1 ds in a +:+ "." +:+ b +:+ "e" +:+ ex.

(** [Number.prototype.toString()], radix 10. *)
Definition Number_toString (x : Number) : string :=
  match x with
  | S754_nan => "NaN"
  | S754_zero _ => "0"
  | S754_infinity s => if s then "-Infinity" else "Infinity"
  | S754_finite s m e =>
      if s then "-" +:+ positive_toString m e else positive_toString m e
  end.

(** [Number.parseInt(hex, 16)] on a string of hexadecimal digits. *)
Definition parseInt16 (s : string) : Number :=
  match span_digits 16 s with
  | (d :: ds, _) => Number_of_Z (digits_value 16 (d :: ds))
  | _ => NaN
  end.

(** *** Values carried by constant nodes *)

Inductive Value : Type :=
| VString (s : string)
| VNumber (n : Number)
| VBoolean (b : bool).

(** The unary [+]. *)
Definition ToNumber (v : Value) : Number :=
  match v with
  | VString s => StringToNumber s
  | VNumber n => n
  | VBoolean b => if b then Number_of_Z 1 else pos_zero
  end.

(** ['' + v], which is also [v.toString()] on these values. *)
Definition ToString (v : Value) : string :=
  match v with
  | VString s => s
  | VNumber n => Number_toString n
  | VBoolean b => if b then "true" else "false"
  end.

(** [v === s] for a string [s]. *)
Definition strict_equal_string (v : Value) (s : string) : bool :=
  match v with
  | VString t => String.eqb t s
  | _ => false
  end.

(** Modelled from the spec: [Cast.toBoolean] of [util/cast.js], which is
    not among the sources; the spec calls its use on a constant the
    compile-time boolean coercion.  Booleans are kept, the strings [""],
    ["0"] and any spelling of ["false"] are false, other strings are true
    and numbers follow their truthiness. *)
Definition Cast_toBoolean (v : Value) : bool :=
  match v with
  | VBoolean b => b
  | VString s =>
      negb (String.eqb s "" || String.eqb s "0"
            || String.eqb (toLowerCase s) "false")
  | VNumber n => truthy_number n
  end.

(** *** Name pools *)

Definition base36_digit (d : Z) : ascii :=
  if d <? 10 then chr (48 + d) else chr (87 + d).

Fixpoint base36_aux (fuel : nat) (n : Z) (acc : string) : string :=
  match fuel with
  | O => acc
  | S f =>
      let acc' := String (base36_digit (n mod 36)) acc in
      if n <? 36 then acc' else base36_aux f (n / 36) acc'
  end.

Definition base36 (n : Z) : string := base36_aux (S (Z.to_nat (Z.log2 n))) n "".

(** Modelled from the spec: [VariablePool] of [compiler/variable-pool.js],
    which is not among the sources: a prefix and a counter, [next()]
    returning the prefix followed by the counter as a base-36 numeral and
    incrementing the counter. *)
Record VariablePool : Type := mkPool { pool_prefix : string; pool_count : Z }.

Definition VariablePool_next (p : VariablePool) : string * VariablePool :=
  (pool_prefix p +:+ base36 (pool_count p),
   mkPool (pool_prefix p) (pool_count p + 1)).

(** ** Typed inputs *)

Definition TYPE_NUMBER : Z := 1.
Definition TYPE_STRING : Z := 2.
Definition TYPE_BOOLEAN : Z := 3.
Definition TYPE_UNKNOWN : Z := 4.
Definition TYPE_NUMBER_NAN : Z := 5.

(** An input is a [TypedInput] or a [ConstantInput], both immutable, or a
    [VariableInput], which [setInput] mutates and which the tracker hands
    out several times: the latter is named by its address in the store.
    [undefined] is what [descendInput] returns for a call of a procedure
    without a body. *)
Inductive Input : Type :=
| TypedInput (source : string) (type : Z)
| ConstantInput (constantValue : Value) (safe : bool)
| VariableRef (addr : nat)
| undefined.

(** The fields of a [VariableInput] object. *)
Record VariableInput : Type := mkVariableInput {
  vi_source : string;
  vi_type : Z;
  vi_value : option Input
}.

(** The constructor of [VariableInput]. *)
Definition new_VariableInput (source : string) : VariableInput :=
  mkVariableInput source TYPE_UNKNOWN None.

(** *** TypedInput *)

Definition TypedInput_asNumber (source : string) (type : Z) : string :=
  if type =? TYPE_NUMBER then source
  else if type =? TYPE_NUMBER_NAN then "(" +:+ source +:+ " || 0)"
  else "(+" +:+ source +:+ " || 0)".

Definition TypedInput_asNumberOrNaN (source : string) (type : Z) : string :=
  if (type =? TYPE_NUMBER) || (type =? TYPE_NUMBER_NAN) then source
  else "(+" +:+ source +:+ ")".

Definition TypedInput_asString (source : string) (type : Z) : string :=
  if type =? TYPE_STRING then source
  else "(" +:+ dq +:+ dq +:+ " + " +:+ source +:+ ")".

Definition TypedInput_asBoolean (source : string) (type : Z) : string :=
  if type =? TYPE_BOOLEAN then source
  else "toBoolean(" +:+ source +:+ ")".

Definition TypedInput_asUnknown (source : string) (type : Z) : string := source.

Definition TypedInput_asColor (source : string) (type : Z) : string :=
  TypedInput_asUnknown source type.

Definition TypedInput_asSafe (source : string) (type : Z) : string :=
  TypedInput_asUnknown source type.

Definition TypedInput_isAlwaysNumber (source : string) (type : Z) : bool :=
  type =? TYPE_NUMBER.

Definition TypedInput_isAlwaysNumberOrNaN (source : string) (type : Z) : bool :=
  (type =? TYPE_NUMBER) || (type =? TYPE_NUMBER_NAN).

Definition TypedInput_isNeverNumber (source : string) (type : Z) : bool := false.

(** *** ConstantInput *)

Definition ConstantInput_asNumber (constantValue : Value) : string :=
  let numberValue := ToNumber constantValue in
  if truthy_number numberValue then Number_toString numberValue
  else if is_negative_zero numberValue then "-0"
  else "0".

Definition ConstantInput_asNumberOrNaN (constantValue : Value) : string :=
  ConstantInput_asNumber constantValue.

Definition ConstantInput_asString (constantValue : Value) : string :=
  dq +:+ sanitize (ToString constantValue) +:+ dq.

Definition ConstantInput_asBoolean (constantValue : Value) : string :=
  if Cast_toBoolean constantValue then "true" else "false".

(** [/^#[0-9a-f]{6,8}$/i.test(s)]. *)
Definition is_hex_color (s : string) : bool :=
  match s with
  | String "#" r =>
      match span_digits 16 r with
      | (ds, EmptyString) =>
          let n := Z.of_nat (length ds) in (6 <=? n) && (n <=? 8)
      | _ => false
      end
  | _ => false
  end.

Definition ConstantInput_asUnknown (constantValue : Value) : string :=
  match constantValue with
  | VNumber n => Number_toString n
  | _ =>
      let numberValue := ToNumber constantValue in
      if strict_equal_string constantValue (Number_toString numberValue)
      then ToString constantValue
      else ConstantInput_asString constantValue
  end.

Definition ConstantInput_asColor (constantValue : Value) : string :=
  if is_hex_color (ToString constantValue) then
    match ToString constantValue with
    | String _ hex => Number_toString (parseInt16 hex)
    | EmptyString => ConstantInput_asUnknown constantValue
    end
  else ConstantInput_asUnknown constantValue.

Definition ConstantInput_asSafe (constantValue : Value) (safe : bool) : string :=
  if safe then ConstantInput_asUnknown constantValue
  else ConstantInput_asString constantValue.

Definition ConstantInput_isAlwaysNumber (constantValue : Value) : bool :=
  let value := ToNumber constantValue in
  if Number_isNaN value then false
  else if Number_strict_equal value pos_zero
       then negb (String.eqb (trim (ToString constantValue)) "")
       else true.

Definition ConstantInput_isAlwaysNumberOrNaN (constantValue : Value) : bool :=
  ConstantInput_isAlwaysNumber constantValue.

Definition ConstantInput_isNeverNumber (constantValue : Value) : bool :=
  Number_isNaN (ToNumber constantValue).

(** [isSafeConstantForEqualsOptimization], on the constant's value. *)
Definition isSafeConstantForEqualsOptimization (constantValue : Value) : bool :=
  let numberValue := ToNumber constantValue in
  if negb (truthy_number numberValue) then false
  else String.eqb (Number_toString numberValue) (ToString constantValue).

(** *** VariableInput *)

Definition VariableInput_asNumber (o : VariableInput) : string :=
  if vi_type o =? TYPE_NUMBER then vi_source o
  else if vi_type o =? TYPE_NUMBER_NAN then "(" +:+ vi_source o +:+ " || 0)"
  else "(+" +:+ vi_source o +:+ " || 0)".

Definition VariableInput_asNumberOrNaN (o : VariableInput) : string :=
  if (vi_type o =? TYPE_NUMBER) || (vi_type o =? TYPE_NUMBER_NAN)
  then vi_source o
  else "(+" +:+ vi_source o +:+ ")".

Definition VariableInput_asString (o : VariableInput) : string :=
  if vi_type o =? TYPE_STRING then vi_source o
  else "(" +:+ dq +:+ dq +:+ " + " +:+ vi_source o +:+ ")".

Definition VariableInput_asBoolean (o : VariableInput) : string :=
  if vi_type o =? TYPE_BOOLEAN then vi_source o
  else "toBoolean(" +:+ vi_source o +:+ ")".

Definition VariableInput_asUnknown (o : VariableInput) : string := vi_source o.
Definition VariableInput_asColor (o : VariableInput) : string :=
  VariableInput_asUnknown o.
Definition VariableInput_asSafe (o : VariableInput) : string :=
  VariableInput_asUnknown o.

(** The three analysis methods call the method of the same name on
    [_value]; when [_value] is a [VariableInput] this is a further call.
    [fuel] bounds the depth of these calls and [None] says that the bound
    was reached, that an address names no object, or that the receiver is
    [undefined]; an [undefined] [_value] is falsy. *)
Fixpoint analyse (fuel : nat) (typed : string -> Z -> bool)
    (const : Value -> bool) (objects : list VariableInput) (i : Input)
  : option bool :=
  match i with
  | TypedInput s t => Some (typed s t)
  | ConstantInput v _ => Some (const v)
  | VariableRef a =>
      match fuel with
      | O => None
      | S f =>
          match objects !! a with
          | Some o =>
              match vi_value o with
              | Some undefined | None => Some false
              | Some v => analyse f typed const objects v
              end
          | None => None
          end
      end
  | undefined => None
  end.

Definition isAlwaysNumber_in (fuel : nat) :=
  analyse fuel TypedInput_isAlwaysNumber ConstantInput_isAlwaysNumber.
Definition isAlwaysNumberOrNaN_in (fuel : nat) :=
  analyse fuel TypedInput_isAlwaysNumberOrNaN ConstantInput_isAlwaysNumberOrNaN.
Definition isNeverNumber_in (fuel : nat) :=
  analyse fuel TypedInput_isNeverNumber ConstantInput_isNeverNumber.

(** [this.setInput(input)] on the object at [self]. *)
Definition VariableInput_setInput (self : nat) (input : Input)
    (objects : list VariableInput) : list VariableInput :=
  match objects !! self with
  | None => objects
  | Some this =>
      let store (type : Z) (value : option Input) :=
        <[self := mkVariableInput (vi_source this) type value]> objects in
      let assign (input : Input) :=
        match input with
        | TypedInput _ t => store t (Some input)
        | _ => store TYPE_UNKNOWN (Some input)
        end in
      match input with
      | VariableRef a =>
          match objects !! a with
          | Some o =>
              match vi_value o with
              | Some undefined | None => store TYPE_UNKNOWN None
              | Some v => assign v
              end
          | None => objects
          end
      | _ => assign input
      end
  end.

(** ** The intermediate representation

    The node kinds of the embedding; a constructor is named after the
    [kind] it stands for and its arguments after the node's properties.
    The remaining kinds of [jsgen.js] wrap their lowered operands in a
    fixed template in the same way and are left out. *)

(** A variable or list descriptor of the IR. *)
Record IRVariable : Type := mkVariable {
  var_id : string;
  var_scope : string;
  var_name : string;
  var_isCloud : bool
}.

(** A field of a compatibility-layer node: a string, or an object with its
    [type], with the text [JSON.stringify] gives for it, and read as a
    variable descriptor. *)
Inductive Field : Type :=
| FieldString (s : string)
| FieldObject (type : string) (json : string) (variable : IRVariable).

Local Unset Elimination Schemes.

Inductive expr : Type :=
| args_boolean (index : Z)
| args_stringNumber (index : Z)
| compat_input (node : compat)
| constant (value : Value)
| control_inlineStackOutput (code : list stmt)
| keyboard_pressed (key : expr)
| list_contains (list : IRVariable) (item : expr)
| list_contents (list : IRVariable)
| list_get (list : IRVariable) (index : expr)
| list_indexOf (list : IRVariable) (item : expr)
| list_length (list : IRVariable)
| looks_size
| motion_direction
| motion_x
| motion_y
| mouse_down
| pmEventsExpansion_broadcastFunction (broadcast : expr)
| op_abs (value : expr)
| op_add (left right : expr)
| op_and (left right : expr)
| op_divide (left right : expr)
| op_equals (left right : expr)
| op_greater (left right : expr)
| op_join (left right : expr)
| op_length (string : expr)
| op_less (left right : expr)
| op_mod (left right : expr)
| op_multiply (left right : expr)
| op_not (operand : expr)
| op_or (left right : expr)
| op_round (value : expr)
| op_subtract (left right : expr)
| sensing_answer
| timer_get
| var_get (variable : IRVariable)
| procedures_call_input (type : option string) (code variant : string)
    (arguments : list expr)
| noop_input
with stmt : Type :=
| addons_call (code blockId : string) (arguments : list (string * expr))
| compat_stacked (node : compat)
| control_createClone (target : expr)
| control_deleteClone
| control_for (variable : IRVariable) (count : expr) (do : list stmt)
| control_allAtOnce (code : list stmt)
| control_if (condition : expr) (whenTrue whenFalse : list stmt)
| control_repeat (times : expr) (do : list stmt)
| control_stopAll
| control_stopOthers
| control_stopScript
| control_wait (seconds : expr)
| control_waitUntil (condition : expr)
| control_waitOrUntil (seconds condition : expr)
| control_while (condition : expr) (do : list stmt) (warpTimer : bool)
| event_broadcast (broadcast : expr)
| event_broadcastAndWait (broadcast : expr)
| list_add (list : IRVariable) (item : expr)
| list_deleteAll (list : IRVariable)
| looks_changeSize (size : expr)
| motion_setXY (x y : option expr)
| noop_stacked
| procedures_return (value : expr)
| procedures_call (type : option string) (code variant : string)
    (arguments : list expr)
| timer_reset
| var_set (variable : IRVariable) (value : expr)
| visualReport (input : expr)
with compat : Type :=
| compat_node (opcode : string) (inputs : list (string * compat_arg))
    (fields : list (string * Field)) (mutation : string)
with compat_arg : Type :=
| input_node (node : expr)
| substack (nodes : list stmt).

Local Set Elimination Schemes.

(** An entry of [ir.procedures]. *)
Record ProcedureData : Type := mkProcedureData {
  proc_stack : option (list stmt);
  proc_yields : bool;
  proc_arguments : list string
}.

(** The script header. *)
Record IntermediateScript : Type := mkScript {
  stack : option (list stmt);
  script_isWarp : bool;
  script_isProcedure : bool;
  yields : bool;
  script_warpTimer : bool;
  script_arguments : list string;
  procedureCode : option string;
  topBlockId : string
}.

(** ** Names of costumes and sounds *)

(** What [getNamesOfCostumesAndSounds] reads of a target of the runtime:
    [isOriginal], and the names of the costumes and of the sounds of its
    sprite. *)
Record RuntimeTarget : Type := mkRuntimeTarget {
  isOriginal : bool;
  costumes : list string;
  sounds : list string
}.

(** [getNamesOfCostumesAndSounds(runtime)], on [runtime.targets]; [add]
    on the result is the union with a singleton. *)
Definition getNamesOfCostumesAndSounds (targets : list RuntimeTarget)
  : gset string :=
  fold_left (fun result target =>
    if isOriginal target then
      let result :=
        fold_left (fun result costume => {[costume]} ∪ result)
          (costumes target) result in
      fold_left (fun result sound => {[sound]} ∪ result)
        (sounds target) result
    else result) targets ∅.

(** ** The generator *)

(** A frame of the stack of substacks being compiled. *)
Record Frame : Type := mkFrame {
  isLoop : bool;
  isLastBlock : bool
}.

(** [new Frame(isLoop)]. *)
Definition new_Frame (isLoop : bool) : Frame := mkFrame isLoop false.

(** What a compilation reads and never assigns after the constructor:
    the script header, [procedures], which is [ir.procedures],
    [supportsNullishCoalescing], which comes from the environment module,
    and the names of the costumes and sounds of the runtime. *)
Record Settings : Type := mkSettings {
  script : IntermediateScript;
  procedures : gmap string ProcedureData;
  supportsNullishCoalescing : bool;
  namesOfCostumesAndSounds : gset string
}.

(** [this.isProcedure] and [this.warpTimer], copied from the script by the
    constructor. *)
Definition isProcedure (c : Settings) : bool := script_isProcedure (script c).
Definition warpTimer (c : Settings) : bool := script_warpTimer (script c).

(** The fields of a [JSGenerator] that change during a compilation, and
    [objects], the store of the [VariableInput] objects created so far.
    [frames] has the most recent frame last; [currentFrame], which the
    generator never reads, is its last element. *)
Record JSGenerator : Type := mkGen {
  source : string;
  variableInputs : gmap string nat;
  isWarp : bool;
  frames : list Frame;
  localVariables : VariablePool;
  _setupVariablesPool : VariablePool;
  _setupVariables : list (string * string);
  descendedIntoModulo : bool;
  objects : list VariableInput
}.

(** The constructor. *)
Definition new_JSGenerator (script : IntermediateScript) : JSGenerator :=
  {| source := "";
     variableInputs := ∅;
     isWarp := script_isWarp script;
     frames := [];
     localVariables := mkPool "a" 0;
     _setupVariablesPool := mkPool "b" 0;
     _setupVariables := [];
     descendedIntoModulo := false;
     objects := [] |}.

Definition set_source (s : string) (g : JSGenerator) : JSGenerator :=
  mkGen s (variableInputs g) (isWarp g) (frames g) (localVariables g)
    (_setupVariablesPool g) (_setupVariables g) (descendedIntoModulo g)
    (objects g).

Definition set_variableInputs (m : gmap string nat) (g : JSGenerator)
  : JSGenerator :=
  mkGen (source g) m (isWarp g) (frames g) (localVariables g)
    (_setupVariablesPool g) (_setupVariables g) (descendedIntoModulo g)
    (objects g).

Definition set_isWarp (b : bool) (g : JSGenerator) : JSGenerator :=
  mkGen (source g) (variableInputs g) b (frames g) (localVariables g)
    (_setupVariablesPool g) (_setupVariables g) (descendedIntoModulo g)
    (objects g).

Definition set_frames (f : list Frame) (g : JSGenerator) : JSGenerator :=
  mkGen (source g) (variableInputs g) (isWarp g) f (localVariables g)
    (_setupVariablesPool g) (_setupVariables g) (descendedIntoModulo g)
    (objects g).

Definition set_localVariables (p : VariablePool) (g : JSGenerator)
  : JSGenerator :=
  mkGen (source g) (variableInputs g) (isWarp g) (frames g) p
    (_setupVariablesPool g) (_setupVariables g) (descendedIntoModulo g)
    (objects g).

Definition set_setupVariables (p : VariablePool) (l : list (string * string))
    (g : JSGenerator) : JSGenerator :=
  mkGen (source g) (variableInputs g) (isWarp g) (frames g) (localVariables g)
    p l (descendedIntoModulo g) (objects g).

Definition set_descendedIntoModulo (b : bool) (g : JSGenerator)
  : JSGenerator :=
  mkGen (source g) (variableInputs g) (isWarp g) (frames g) (localVariables g)
    (_setupVariablesPool g) (_setupVariables g) b (objects g).

Definition set_objects (o : list VariableInput) (g : JSGenerator)
  : JSGenerator :=
  mkGen (source g) (variableInputs g) (isWarp g) (frames g) (localVariables g)
    (_setupVariablesPool g) (_setupVariables g) (descendedIntoModulo g) o.

(** *** Compilation as a computation on the generator *)

(** What a method throws. *)
Inductive Exception : Type :=
| Error (message : string)
| TypeError
| RangeError.

Inductive result (A : Type) : Type :=
| Ok (a : A)
| Throw (e : Exception).
Arguments Ok {A} a.
Arguments Throw {A} e.

(** A method reads the settings and the generator, and returns with the
    generator as it left it or throws. *)
Definition M (A : Type) : Type :=
  Settings -> JSGenerator -> result (A * JSGenerator).

Definition ret {A} (a : A) : M A := fun _ g => Ok (a, g).

Definition bind {A B} (m : M A) (k : A -> M B) : M B :=
  fun c g =>
    match m c g with
    | Ok (a, g') => k a c g'
    | Throw e => Throw e
    end.

Definition throw {A} (e : Exception) : M A := fun _ _ => Throw e.

Definition get {A} (f : JSGenerator -> A) : M A := fun _ g => Ok (f g, g).

Definition ask {A} (f : Settings -> A) : M A := fun c g => Ok (f c, g).

Definition modify (f : JSGenerator -> JSGenerator) : M unit :=
  fun _ g => Ok (tt, f g).

Notation "x <- m ;; k" := (bind m (fun x => k))
  (at level 100, m at next level, right associativity).
Notation "m ;; k" := (bind m (fun _ => k))
  (at level 100, right associativity).

(** [this.source += e]: the old value of [this.source] is read before [e]
    is evaluated, so whatever the evaluation of [e] itself appends to
    [this.source] is overwritten by the assignment. *)
Definition append_source (e : M string) : M unit :=
  fun c g =>
    match e c g with
    | Ok (s, g') => Ok (tt, set_source (source g +:+ s) g')
    | Throw x => Throw x
    end.

(** [this.source += s] for a text [s] that needs no evaluation. *)
Definition emit (s : string) : M unit := append_source (ret s).

(** *** Methods of an input, on the generator's store *)

Definition with_object {A} (a : nat) (f : VariableInput -> A) : M A :=
  fun _ g =>
    match objects g !! a with
    | Some o => Ok (f o, g)
    | None => Throw TypeError
    end.

Definition asNumber (i : Input) : M string :=
  match i with
  | TypedInput s t => ret (TypedInput_asNumber s t)
  | ConstantInput v _ => ret (ConstantInput_asNumber v)
  | VariableRef a => with_object a VariableInput_asNumber
  | undefined => throw TypeError
  end.

Definition asNumberOrNaN (i : Input) : M string :=
  match i with
  | TypedInput s t => ret (TypedInput_asNumberOrNaN s t)
  | ConstantInput v _ => ret (ConstantInput_asNumberOrNaN v)
  | VariableRef a => with_object a VariableInput_asNumberOrNaN
  | undefined => throw TypeError
  end.

Definition asString (i : Input) : M string :=
  match i with
  | TypedInput s t => ret (TypedInput_asString s t)
  | ConstantInput v _ => ret (ConstantInput_asString v)
  | VariableRef a => with_object a VariableInput_asString
  | undefined => throw TypeError
  end.

Definition asBoolean (i : Input) : M string :=
  match i with
  | TypedInput s t => ret (TypedInput_asBoolean s t)
  | ConstantInput v _ => ret (ConstantInput_asBoolean v)
  | VariableRef a => with_object a VariableInput_asBoolean
  | undefined => throw TypeError
  end.

Definition asUnknown (i : Input) : M string :=
  match i with
  | TypedInput s t => ret (TypedInput_asUnknown s t)
  | ConstantInput v _ => ret (ConstantInput_asUnknown v)
  | VariableRef a => with_object a VariableInput_asUnknown
  | undefined => throw TypeError
  end.

Definition asSafe (i : Input) : M string :=
  match i with
  | TypedInput s t => ret (TypedInput_asSafe s t)
  | ConstantInput v safe => ret (ConstantInput_asSafe v safe)
  | VariableRef a => with_object a VariableInput_asSafe
  | undefined => throw TypeError
  end.

Definition asColor (i : Input) : M string :=
  match i with
  | TypedInput s t => ret (TypedInput_asColor s t)
  | ConstantInput v _ => ret (ConstantInput_asColor v)
  | VariableRef a => with_object a VariableInput_asColor
  | undefined => throw TypeError
  end.

(** An analysis method called by the generator.  A chain of [_value]s
    that visits no object twice is shorter than the store, so the bound can
    only be reached on a cycle, where the call never returns normally. *)
Definition analysis
    (f : nat -> list VariableInput -> Input -> option bool) (i : Input)
  : M bool :=
  fun _ g =>
    match i, f (S (length (objects g))) (objects g) i with
    | undefined, _ => Throw TypeError
    | _, Some b => Ok (b, g)
    | _, None => Throw RangeError
    end.

Definition isAlwaysNumber : Input -> M bool := analysis isAlwaysNumber_in.
Definition isAlwaysNumberOrNaN : Input -> M bool :=
  analysis isAlwaysNumberOrNaN_in.
Definition isNeverNumber : Input -> M bool := analysis isNeverNumber_in.

(** [variable.setInput(value)]. *)
Definition setInput (variable value : Input) : M unit :=
  match variable with
  | VariableRef a =>
      modify (fun g => set_objects (VariableInput_setInput a value (objects g)) g)
  | _ => throw TypeError
  end.

(** [variable.source]. *)
Definition source_of (variable : Input) : M string :=
  match variable with
  | TypedInput s _ => ret s
  | VariableRef a => with_object a vi_source
  | ConstantInput _ _ => ret "undefined"
  | undefined => throw TypeError
  end.

(** *** Methods of the generator *)

Definition string_of_bool (b : bool) : string := if b then "true" else "false".

Definition pushFrame (frame : Frame) : M unit :=
  modify (fun g => set_frames (frames g ++ [frame]) g).

Definition popFrame : M unit :=
  modify (fun g => set_frames (removelast (frames g)) g).

(** The loop of [isLastBlockInLoop], on the frames from the most recent
    one outwards. *)
Fixpoint scan_frames (l : list Frame) : bool :=
  match l with
  | [] => false
  | frame :: outer =>
      if negb (isLastBlock frame) then false
      else if isLoop frame then true
      else scan_frames outer
  end.

Definition isLastBlockInLoop (g : JSGenerator) : bool :=
  scan_frames (rev (frames g)).

Definition resetVariableInputs : M unit := modify (set_variableInputs ∅).

(** [hasOwnProperty] and lookup on [_setupVariables]. *)
Fixpoint lookup_setup (k : string) (l : list (string * string)) : option string :=
  match l with
  | [] => None
  | (k', v) :: r => if String.eqb k k' then Some v else lookup_setup k r
  end.

(** [evaluateOnce(source)].  [_setupVariables] is a plain object.  Its
    [hasOwnProperty] is looked up on the object itself: once the source
    [hasOwnProperty] is bound, what is called is the name bound to it, a
    string, and the call throws a [TypeError].  An assignment to the
    property [__proto__] goes to the setter of [Object.prototype], which
    ignores a string: this source is never bound, and every call with it
    takes a new name. *)
Definition evaluateOnce (src : string) : M string :=
  fun _ g =>
    match lookup_setup "hasOwnProperty" (_setupVariables g) with
    | Some _ => Throw TypeError
    | None =>
        match (if String.eqb src "__proto__" then None
               else lookup_setup src (_setupVariables g)) with
        | Some v => Ok (v, g)
        | None =>
            let '(variable, pool) := VariablePool_next (_setupVariablesPool g) in
            Ok (variable,
                set_setupVariables pool
                  (if String.eqb src "__proto__" then _setupVariables g
                   else (_setupVariables g ++ [(src, variable)])%list) g)
        end
    end.

Definition referenceVariable (variable : IRVariable) : M string :=
  if String.eqb (var_scope variable) "target"
  then evaluateOnce ("target.variables[" +:+ dq +:+ sanitize (var_id variable)
                     +:+ dq +:+ "]")
  else evaluateOnce ("stage.variables[" +:+ dq +:+ sanitize (var_id variable)
                     +:+ dq +:+ "]").

(** [descendVariable(variable)].  [variableInputs] is a plain object as
    well: once the id [hasOwnProperty] is tracked, what is called is the
    variable input bound to it, and the call throws a [TypeError]; and
    the assignment of a variable input to the property [__proto__] makes
    it the prototype of the object and adds no property, so a variable
    of this id is never tracked. *)
Definition descendVariable (variable : IRVariable) : M Input :=
  broken <- get (fun g => variableInputs g !! "hasOwnProperty") ;;
  match broken with
  | Some _ => throw TypeError
  | None =>
      known <- get (fun g =>
                 if String.eqb (var_id variable) "__proto__" then None
                 else variableInputs g !! var_id variable) ;;
      match known with
      | Some a => ret (VariableRef a)
      | None =>
          r <- referenceVariable variable ;;
          a <- get (fun g => length (objects g)) ;;
          modify (fun g =>
            set_objects (objects g ++ [new_VariableInput (r +:+ ".value")]) g) ;;
          (if String.eqb (var_id variable) "__proto__" then ret tt
           else modify (fun g =>
                  set_variableInputs
                    (<[var_id variable := a]> (variableInputs g)) g)) ;;
          ret (VariableRef a)
      end
  end.

Definition next_local : M string :=
  fun _ g =>
    let '(v, pool) := VariablePool_next (localVariables g) in
    Ok (v, set_localVariables pool g).

Definition retire : M unit :=
  p <- ask isProcedure ;;
  if p then emit ("retire(); yield;" +:+ nl)
  else emit ("retire(); return;" +:+ nl).

Definition yielded : M unit :=
  y <- ask (fun c => yields (script c)) ;;
  if negb y then throw (Error "Script yielded but is not marked as yielding.")
  else resetVariableInputs.

Definition yieldNotWarp : M unit :=
  w <- get isWarp ;;
  if negb w then emit ("yield;" +:+ nl) ;; yielded
  else ret tt.

Definition yieldStuckOrNotWarp : M unit :=
  w <- get isWarp ;;
  (if w then emit ("if (isStuck()) yield;" +:+ nl)
   else emit ("yield;" +:+ nl)) ;;
  yielded.

Definition yieldLoop : M unit :=
  t <- ask warpTimer ;;
  if t then yieldStuckOrNotWarp else yieldNotWarp.

Definition requestRedraw : M unit :=
  emit ("runtime.requestRedraw();" +:+ nl).

Definition safeConstantInput (value : Value) : M Input :=
  names <- ask namesOfCostumesAndSounds ;;
  let unsafe :=
    match value with
    | VString s => bool_decide (s ∈ names)
    | _ => false
    end in
  ret (ConstantInput value (negb unsafe)).

Definition is_ConstantInput (i : Input) : bool :=
  match i with ConstantInput _ _ => true | _ => false end.

(** [isSafeConstantForEqualsOptimization(input)] *)
Definition safe_for_equals (i : Input) : bool :=
  match i with
  | ConstantInput v _ => isSafeConstantForEqualsOptimization v
  | _ => false
  end.

Definition mapM {A B} (f : A -> M B) : list A -> M (list B) :=
  fix go (l : list A) : M (list B) :=
    match l with
    | [] => ret []
    | a :: r => b <- f a ;; bs <- go r ;; ret (b :: bs)
    end.

(** [frame.isLastBlock = b] for the frame that [descendStack] pushed when
    the stack of frames had [idx] elements. *)
Definition set_isLastBlock (idx : nat) (b : bool) : M unit :=
  modify (fun g =>
    set_frames (alter (fun f => mkFrame (isLoop f) b) idx (frames g)) g).

(** The first two statements of [descendStack]; the result is the place of
    the new frame in [frames]. *)
Definition enterStack (frame : Frame) : M nat :=
  resetVariableInputs ;;
  idx <- get (fun g => length (frames g)) ;;
  pushFrame frame ;;
  ret idx.

(** The last two statements of [descendStack]. *)
Definition leaveStack : M unit :=
  resetVariableInputs ;;
  popFrame.

(** [descendStack], given the method that lowers one stacked block. *)
Definition descendStack_with (descendStackedBlock : stmt -> M unit)
    (nodes : list stmt) (frame : Frame) : M unit :=
  idx <- enterStack frame ;;
  (fix loop (l : list stmt) : M unit :=
     match l with
     | [] => ret tt
     | node :: rest =>
         set_isLastBlock idx (match rest with [] => true | _ => false end) ;;
         descendStackedBlock node ;;
         loop rest
     end) nodes ;;
  leaveStack.

Definition typed (source : string) (type : Z) : M Input :=
  ret (TypedInput source type).

Definition broadcast_option : string :=
  "startHats(" +:+ dq +:+ "event_whenbroadcastreceived" +:+ dq
  +:+ ", { BROADCAST_OPTION: ".

(** The type of a procedure call used as an input: [types[node.type ||
    'string']], which the constructor of [TypedInput] rejects when it is
    not a number. *)
Definition procedure_blockType (type : option string) : option Z :=
  let t := match type with Some "" | None => "string" | Some t => t end in
  if String.eqb t "string" then Some TYPE_STRING
  else if String.eqb t "number" then Some TYPE_NUMBER
  else if String.eqb t "boolean" then Some TYPE_BOOLEAN
  else None.

Definition same_procedure (code : string) (own : option string) : bool :=
  match own with
  | Some c => String.eqb code c
  | None => false
  end.

(** The text a field object contributes to a compatibility-layer call. *)
Definition compat_field (f : Field)
    (descendVariable : IRVariable -> M Input) : M string :=
  match f with
  | FieldString s => ret (dq +:+ sanitize s +:+ dq)
  | FieldObject type json variable =>
      if String.eqb type "broadcast_msg" then ret json
      else if String.eqb type "list" then referenceVariable variable
      else if String.eqb type "" then
        v <- descendVariable variable ;; source_of v
      else ret "undefined"
  end.

(** [descendInput], [descendStackedBlock] and
    [generateCompatibilityLayerCall], with no extension registered for the
    kinds of the embedding. *)
Fixpoint descendInput (node : expr) {struct node} : M Input :=
  match node with
  | args_boolean index =>
      typed ("toBoolean(p" +:+ decimal_of_Z index +:+ ")") TYPE_BOOLEAN
  | args_stringNumber index =>
      typed ("p" +:+ decimal_of_Z index) TYPE_UNKNOWN
  | compat_input c =>
      call <- generateCompatibilityLayerCall c false ;;
      typed ("(" +:+ call +:+ ")") TYPE_UNKNOWN
  | constant value => safeConstantInput value
  | control_inlineStackOutput code =>
      originalSource <- get source ;;
      modify (set_source "(yield* (function*() {") ;;
      descendStack_with descendStackedBlock code (new_Frame false) ;;
      emit "})())" ;;
      stackSource <- get source ;;
      modify (set_source originalSource) ;;
      typed stackSource TYPE_UNKNOWN
  | keyboard_pressed key =>
      k <- descendInput key ;; ks <- asSafe k ;;
      typed ("runtime.ioDevices.keyboard.getKeyIsDown(" +:+ ks +:+ ")")
        TYPE_BOOLEAN
  | list_contains list item =>
      l <- referenceVariable list ;;
      i <- descendInput item ;; s <- asUnknown i ;;
      typed ("listContains(" +:+ l +:+ ", " +:+ s +:+ ")") TYPE_BOOLEAN
  | list_contents list =>
      l <- referenceVariable list ;;
      typed ("listContents(" +:+ l +:+ ")") TYPE_STRING
  | list_get list index =>
      index <- descendInput index ;;
      nullish <- ask supportsNullishCoalescing ;;
      numeric <- (if nullish then isAlwaysNumberOrNaN index else ret false) ;;
      if numeric then
        l <- referenceVariable list ;; s <- asNumber index ;;
        typed ("(" +:+ l +:+ ".value[(" +:+ s +:+ " | 0) - 1] ?? "
               +:+ dq +:+ dq +:+ ")") TYPE_UNKNOWN
      else if nullish
              && match index with
                 | ConstantInput v _ => strict_equal_string v "last"
                 | _ => false
                 end
      then
        l <- referenceVariable list ;; l' <- referenceVariable list ;;
        typed ("(" +:+ l +:+ ".value[" +:+ l' +:+ ".value.length - 1] ?? "
               +:+ dq +:+ dq +:+ ")") TYPE_UNKNOWN
      else
        l <- referenceVariable list ;; s <- asUnknown index ;;
        typed ("listGet(" +:+ l +:+ ".value, " +:+ s +:+ ")") TYPE_UNKNOWN
  | list_indexOf list item =>
      l <- referenceVariable list ;;
      i <- descendInput item ;; s <- asUnknown i ;;
      typed ("listIndexOf(" +:+ l +:+ ", " +:+ s +:+ ")") TYPE_NUMBER
  | list_length list =>
      l <- referenceVariable list ;;
      typed (l +:+ ".value.length") TYPE_NUMBER
  | looks_size => typed "Math.round(target.size)" TYPE_NUMBER
  | motion_direction => typed "target.direction" TYPE_NUMBER
  | motion_x => typed "limitPrecision(target.x)" TYPE_NUMBER
  | motion_y => typed "limitPrecision(target.y)" TYPE_NUMBER
  | mouse_down => typed "runtime.ioDevices.mouse.getIsDown()" TYPE_BOOLEAN
  | pmEventsExpansion_broadcastFunction broadcast =>
      let src := "(yield* (function*() {" in
      threads <- next_local ;;
      b <- descendInput broadcast ;; bs <- asString b ;;
      let src := src +:+ "var " +:+ threads +:+ " = " +:+ broadcast_option
                 +:+ bs +:+ " });" in
      let src := src +:+ "waitThreads(" +:+ threads +:+ ");" in
      w <- get isWarp ;;
      let src := if w then src +:+ "if (isStuck()) yield;" +:+ nl
                 else src +:+ "yield;" +:+ nl in
      resetVariableInputs ;;
      value <- next_local ;;
      thread <- next_local ;;
      let src := src +:+ "var " +:+ value +:+ " = undefined;" in
      let src := src +:+ "for (var " +:+ thread +:+ " of " +:+ threads +:+ ") {" in
      let src := src +:+ "if (typeof " +:+ thread
                 +:+ ".__evex_returnDataa !== 'undefined') {" in
      let src := src +:+ "return " +:+ thread +:+ ".__evex_returnDataa;" in
      let src := src +:+ "}" in
      let src := src +:+ "}" in
      let src := src +:+ "return '';" in
      let src := src +:+ "})())" in
      typed src TYPE_STRING
  | op_abs value =>
      v <- descendInput value ;; s <- asNumber v ;;
      typed ("Math.abs(" +:+ s +:+ ")") TYPE_NUMBER
  | op_add lhs rhs =>
      l <- descendInput lhs ;; ls <- asNumber l ;;
      r <- descendInput rhs ;; rs <- asNumber r ;;
      typed ("(" +:+ ls +:+ " + " +:+ rs +:+ ")") TYPE_NUMBER_NAN
  | op_and lhs rhs =>
      l <- descendInput lhs ;; ls <- asBoolean l ;;
      r <- descendInput rhs ;; rs <- asBoolean r ;;
      typed ("(" +:+ ls +:+ " && " +:+ rs +:+ ")") TYPE_BOOLEAN
  | op_divide lhs rhs =>
      l <- descendInput lhs ;; ls <- asNumber l ;;
      r <- descendInput rhs ;; rs <- asNumber r ;;
      typed ("(" +:+ ls +:+ " / " +:+ rs +:+ ")") TYPE_NUMBER_NAN
  | op_equals lhs rhs =>
      left' <- descendInput lhs ;;
      right' <- descendInput rhs ;;
      ln <- isNeverNumber left' ;;
      never <- (if ln then ret true else isNeverNumber right') ;;
      if never then
        ls <- asString left' ;; rs <- asString right' ;;
        typed ("(" +:+ ls +:+ ".toLowerCase() === " +:+ rs
               +:+ ".toLowerCase())") TYPE_BOOLEAN
      else
        leftAlwaysNumber <- isAlwaysNumber left' ;;
        rightAlwaysNumber <- isAlwaysNumber right' ;;
        let numeric :=
          ls <- asNumber left' ;; rs <- asNumber right' ;;
          typed ("(" +:+ ls +:+ " === " +:+ rs +:+ ")") TYPE_BOOLEAN in
        if leftAlwaysNumber && rightAlwaysNumber then numeric
        else if leftAlwaysNumber && is_ConstantInput left'
                && safe_for_equals left' then numeric
        else if rightAlwaysNumber && is_ConstantInput right'
                && safe_for_equals right' then numeric
        else
          ls <- asUnknown left' ;; rs <- asUnknown right' ;;
          typed ("compareEqual(" +:+ ls +:+ ", " +:+ rs +:+ ")") TYPE_BOOLEAN
  | op_greater lhs rhs =>
      left' <- descendInput lhs ;;
      right' <- descendInput rhs ;;
      la <- isAlwaysNumber left' ;;
      c1 <- (if la then isAlwaysNumberOrNaN right' else ret false) ;;
      if c1 then
        ls <- asNumber left' ;; rs <- asNumberOrNaN right' ;;
        typed ("(" +:+ ls +:+ " > " +:+ rs +:+ ")") TYPE_BOOLEAN
      else
        lo <- isAlwaysNumberOrNaN left' ;;
        c2 <- (if lo then isAlwaysNumber right' else ret false) ;;
        if c2 then
          ls <- asNumberOrNaN left' ;; rs <- asNumber right' ;;
          typed ("!(" +:+ ls +:+ " <= " +:+ rs +:+ ")") TYPE_BOOLEAN
        else
          ln <- isNeverNumber left' ;;
          c3 <- (if ln then ret true else isNeverNumber right') ;;
          if c3 then
            ls <- asString left' ;; rs <- asString right' ;;
            typed ("(" +:+ ls +:+ ".toLowerCase() > " +:+ rs
                   +:+ ".toLowerCase())") TYPE_BOOLEAN
          else
            ls <- asUnknown left' ;; rs <- asUnknown right' ;;
            typed ("compareGreaterThan(" +:+ ls +:+ ", " +:+ rs +:+ ")")
              TYPE_BOOLEAN
  | op_join lhs rhs =>
      l <- descendInput lhs ;; ls <- asString l ;;
      r <- descendInput rhs ;; rs <- asString r ;;
      typed ("(" +:+ ls +:+ " + " +:+ rs +:+ ")") TYPE_STRING
  | op_length string =>
      v <- descendInput string ;; s <- asString v ;;
      typed (s +:+ ".length") TYPE_NUMBER
  | op_less lhs rhs =>
      left' <- descendInput lhs ;;
      right' <- descendInput rhs ;;
      lo <- isAlwaysNumberOrNaN left' ;;
      c1 <- (if lo then isAlwaysNumber right' else ret false) ;;
      if c1 then
        ls <- asNumberOrNaN left' ;; rs <- asNumber right' ;;
        typed ("(" +:+ ls +:+ " < " +:+ rs +:+ ")") TYPE_BOOLEAN
      else
        la <- isAlwaysNumber left' ;;
        c2 <- (if la then isAlwaysNumberOrNaN right' else ret false) ;;
        if c2 then
          ls <- asNumber left' ;; rs <- asNumberOrNaN right' ;;
          typed ("!(" +:+ ls +:+ " >= " +:+ rs +:+ ")") TYPE_BOOLEAN
        else
          ln <- isNeverNumber left' ;;
          c3 <- (if ln then ret true else isNeverNumber right') ;;
          if c3 then
            ls <- asString left' ;; rs <- asString right' ;;
            typed ("(" +:+ ls +:+ ".toLowerCase() < " +:+ rs
                   +:+ ".toLowerCase())") TYPE_BOOLEAN
          else
            ls <- asUnknown left' ;; rs <- asUnknown right' ;;
            typed ("compareLessThan(" +:+ ls +:+ ", " +:+ rs +:+ ")")
              TYPE_BOOLEAN
  | op_mod lhs rhs =>
      modify (set_descendedIntoModulo true) ;;
      l <- descendInput lhs ;; ls <- asNumber l ;;
      r <- descendInput rhs ;; rs <- asNumber r ;;
      typed ("mod(" +:+ ls +:+ ", " +:+ rs +:+ ")") TYPE_NUMBER_NAN
  | op_multiply lhs rhs =>
      l <- descendInput lhs ;; ls <- asNumber l ;;
      r <- descendInput rhs ;; rs <- asNumber r ;;
      typed ("(" +:+ ls +:+ " * " +:+ rs +:+ ")") TYPE_NUMBER_NAN
  | op_not operand =>
      v <- descendInput operand ;; s <- asBoolean v ;;
      typed ("!" +:+ s) TYPE_BOOLEAN
  | op_or lhs rhs =>
      l <- descendInput lhs ;; ls <- asBoolean l ;;
      r <- descendInput rhs ;; rs <- asBoolean r ;;
      typed ("(" +:+ ls +:+ " || " +:+ rs +:+ ")") TYPE_BOOLEAN
  | op_round value =>
      v <- descendInput value ;; s <- asNumber v ;;
      typed ("Math.round(" +:+ s +:+ ")") TYPE_NUMBER
  | op_subtract lhs rhs =>
      l <- descendInput lhs ;; ls <- asNumber l ;;
      r <- descendInput rhs ;; rs <- asNumber r ;;
      typed ("(" +:+ ls +:+ " - " +:+ rs +:+ ")") TYPE_NUMBER_NAN
  | sensing_answer => typed "runtime.ext_scratch3_sensing._answer" TYPE_STRING
  | timer_get => typed "runtime.ioDevices.clock.projectTimer()" TYPE_NUMBER
  | var_get variable => descendVariable variable
  | procedures_call_input type code variant arguments =>
      let blockType := procedure_blockType type in
      let src := "(" in
      data <- ask (fun c => procedures c !! variant) ;;
      match data with
      | None => throw TypeError
      | Some procedureData =>
          match proc_stack procedureData with
          | None => ret undefined
          | Some _ =>
              w <- get isWarp ;;
              own <- ask (fun c => procedureCode (script c)) ;;
              (if negb w && same_procedure code own
               then yieldNotWarp else ret tt) ;;
              src <- (if proc_yields procedureData then
                        y <- ask (fun c => yields (script c)) ;;
                        if negb y then
                          throw (Error "Script uses yielding procedure but is not marked as yielding.")
                        else ret (src +:+ "yield* ")
                      else ret src) ;;
              let src := src +:+ "thread.procedures[" +:+ dq
                         +:+ sanitize variant +:+ dq +:+ "](" in
              src <- (match proc_arguments procedureData with
                      | [] => ret src
                      | _ =>
                          args <- mapM (fun input =>
                                          i <- descendInput input ;; asSafe i)
                                       arguments ;;
                          ret (src +:+ join "," args)
                      end) ;;
              let src := src +:+ "))" in
              resetVariableInputs ;;
              match blockType with
              | Some t => typed src t
              | None => throw (Error "type is invalid")
              end
          end
      end
  | noop_input => typed (dq +:+ dq) TYPE_UNKNOWN
  end

with descendStackedBlock (node : stmt) {struct node} : M unit :=
  match node with
  | addons_call code blockId arguments =>
      inputs <-
        (fix record (l : list (string * expr)) (res : string) : M string :=
           match l with
           | [] => ret (res +:+ "}")
           | (name, n) :: r =>
               i <- descendInput n ;; s <- asSafe i ;;
               record r (res +:+ dq +:+ sanitize name +:+ dq +:+ ":"
                         +:+ s +:+ ",")
           end) arguments "{" ;;
      let blockFunction :=
        "runtime.getAddonBlock(" +:+ dq +:+ sanitize code +:+ dq
        +:+ ").callback" in
      let blockId := dq +:+ sanitize blockId +:+ dq in
      append_source (
        w <- get isWarp ;;
        ret ("yield* executeInCompatibilityLayer(" +:+ inputs +:+ ", "
             +:+ blockFunction +:+ ", " +:+ string_of_bool w
             +:+ ", false, " +:+ blockId +:+ ");" +:+ nl))
  | compat_stacked c =>
      isLastInLoop <- get isLastBlockInLoop ;;
      append_source (
        call <- generateCompatibilityLayerCall c isLastInLoop ;;
        ret (call +:+ ";" +:+ nl)) ;;
      if isLastInLoop then
        emit ("if (hasResumedFromPromise) {hasResumedFromPromise = false;continue;}"
              +:+ nl)
      else ret tt
  | control_createClone target =>
      append_source (
        t <- descendInput target ;; s <- asString t ;;
        ret ("runtime.ext_scratch3_control._createClone(" +:+ s
             +:+ ", target);" +:+ nl))
  | control_deleteClone =>
      emit ("if (!target.isOriginal) {" +:+ nl) ;;
      emit ("  runtime.disposeTarget(target);" +:+ nl) ;;
      emit ("  runtime.stopForTarget(target);" +:+ nl) ;;
      retire ;;
      emit ("}" +:+ nl)
  | control_for variable count do =>
      resetVariableInputs ;;
      index <- next_local ;;
      emit ("var " +:+ index +:+ " = 0; ") ;;
      append_source (
        c <- descendInput count ;; s <- asNumber c ;;
        ret ("while (" +:+ index +:+ " < " +:+ s +:+ ") { ")) ;;
      emit (index +:+ "++; ") ;;
      append_source (
        v <- referenceVariable variable ;;
        ret (v +:+ ".value = " +:+ index +:+ ";" +:+ nl)) ;;
      descendStack_with descendStackedBlock do (new_Frame true) ;;
      yieldLoop ;;
      emit ("}" +:+ nl)
  | control_allAtOnce code =>
      ooldWarp <- get isWarp ;;
      modify (set_isWarp true) ;;
      descendStack_with descendStackedBlock code (new_Frame false) ;;
      modify (set_isWarp ooldWarp)
  | control_if condition whenTrue whenFalse =>
      append_source (
        c <- descendInput condition ;; s <- asBoolean c ;;
        ret ("if (" +:+ s +:+ ") {" +:+ nl)) ;;
      descendStack_with descendStackedBlock whenTrue (new_Frame false) ;;
      match whenFalse with
      | [] => ret tt
      | _ =>
          emit ("} else {" +:+ nl) ;;
          descendStack_with descendStackedBlock whenFalse (new_Frame false)
      end ;;
      emit ("}" +:+ nl)
  | control_repeat times do =>
      i <- next_local ;;
      append_source (
        t <- descendInput times ;; s <- asNumber t ;;
        ret ("for (var " +:+ i +:+ " = " +:+ s +:+ "; " +:+ i
             +:+ " >= 0.5; " +:+ i +:+ "--) {" +:+ nl)) ;;
      descendStack_with descendStackedBlock do (new_Frame true) ;;
      yieldLoop ;;
      emit ("}" +:+ nl)
  | control_stopAll =>
      emit ("runtime.stopAll();" +:+ nl) ;;
      retire
  | control_stopOthers =>
      emit ("runtime.stopForTarget(target, thread);" +:+ nl)
  | control_stopScript =>
      p <- ask isProcedure ;;
      if p then emit ("return;" +:+ nl) else retire
  | control_wait seconds =>
      duration <- next_local ;;
      emit ("thread.timer = timer();" +:+ nl) ;;
      append_source (
        v <- descendInput seconds ;; s <- asNumber v ;;
        ret ("var " +:+ duration +:+ " = Math.max(0, 1000 * " +:+ s
             +:+ ");" +:+ nl)) ;;
      requestRedraw ;;
      yieldNotWarp ;;
      emit ("while (thread.timer.timeElapsed() < " +:+ duration +:+ ") {"
            +:+ nl) ;;
      yieldStuckOrNotWarp ;;
      emit ("}" +:+ nl) ;;
      emit ("thread.timer = null;" +:+ nl)
  | control_waitUntil condition =>
      resetVariableInputs ;;
      append_source (
        c <- descendInput condition ;; s <- asBoolean c ;;
        ret ("while (!" +:+ s +:+ ") {" +:+ nl)) ;;
      yieldStuckOrNotWarp ;;
      emit ("}" +:+ nl)
  | control_waitOrUntil seconds condition =>
      duration <- next_local ;;
      c <- descendInput condition ;; condition <- asBoolean c ;;
      emit ("thread.timer = timer();" +:+ nl) ;;
      append_source (
        v <- descendInput seconds ;; s <- asNumber v ;;
        ret ("var " +:+ duration +:+ " = Math.max(0, 1000 * " +:+ s
             +:+ ");" +:+ nl)) ;;
      requestRedraw ;;
      yieldNotWarp ;;
      emit ("while ((thread.timer.timeElapsed() < " +:+ duration
            +:+ ") && (!(" +:+ condition +:+ "))) {" +:+ nl) ;;
      yieldStuckOrNotWarp ;;
      emit ("}" +:+ nl) ;;
      emit ("thread.timer = null;" +:+ nl)
  | control_while condition do nodeWarpTimer =>
      resetVariableInputs ;;
      append_source (
        c <- descendInput condition ;; s <- asBoolean c ;;
        ret ("while (" +:+ s +:+ ") {" +:+ nl)) ;;
      descendStack_with descendStackedBlock do (new_Frame true) ;;
      (if nodeWarpTimer then yieldStuckOrNotWarp else yieldLoop) ;;
      emit ("}" +:+ nl)
  | event_broadcast broadcast =>
      append_source (
        b <- descendInput broadcast ;; s <- asString b ;;
        ret (broadcast_option +:+ s +:+ " });" +:+ nl)) ;;
      resetVariableInputs
  | event_broadcastAndWait broadcast =>
      append_source (
        b <- descendInput broadcast ;; s <- asString b ;;
        ret ("yield* waitThreads(" +:+ broadcast_option +:+ s +:+ " }));"
             +:+ nl)) ;;
      yielded
  | list_add list item =>
      l <- referenceVariable list ;;
      append_source (
        i <- descendInput item ;; s <- asSafe i ;;
        ret (l +:+ ".value.push(" +:+ s +:+ ");" +:+ nl)) ;;
      emit (l +:+ "._monitorUpToDate = false;" +:+ nl)
  | list_deleteAll list =>
      append_source (
        l <- referenceVariable list ;;
        ret (l +:+ ".value = [];" +:+ nl))
  | looks_changeSize size =>
      append_source (
        v <- descendInput size ;; s <- asNumber v ;;
        ret ("target.setSize(target.size + " +:+ s +:+ ");" +:+ nl))
  | motion_setXY x y =>
      modify (set_descendedIntoModulo false) ;;
      x <- match x with
           | Some n => v <- descendInput n ;; asNumber v
           | None => ret "target.x"
           end ;;
      y <- match y with
           | Some n => v <- descendInput n ;; asNumber v
           | None => ret "target.y"
           end ;;
      emit ("target.setXY(" +:+ x +:+ ", " +:+ y +:+ ");" +:+ nl) ;;
      m <- get descendedIntoModulo ;;
      if m then
        emit ("if (target.interpolationData) target.interpolationData = null;"
              +:+ nl)
      else ret tt
  | noop_stacked => ret tt
  | procedures_return value =>
      append_source (
        v <- descendInput value ;; s <- asString v ;;
        ret ("return " +:+ s +:+ ";"))
  | procedures_call type code variant arguments =>
      data <- ask (fun c => procedures c !! variant) ;;
      match data with
      | None => throw TypeError
      | Some procedureData =>
          match proc_stack procedureData with
          | None => ret tt
          | Some _ =>
              w <- get isWarp ;;
              own <- ask (fun c => procedureCode (script c)) ;;
              (if negb w && same_procedure code own
               then yieldNotWarp else ret tt) ;;
              (if proc_yields procedureData then
                 emit "yield* " ;;
                 y <- ask (fun c => yields (script c)) ;;
                 if negb y then
                   throw (Error "Script uses yielding procedure but is not marked as yielding.")
                 else ret tt
               else ret tt) ;;
              emit ("thread.procedures[" +:+ dq +:+ sanitize variant +:+ dq
                    +:+ "](") ;;
              (match proc_arguments procedureData with
               | [] => ret tt
               | _ =>
                   args <- mapM (fun input =>
                                   i <- descendInput input ;; asSafe i)
                                arguments ;;
                   emit (join "," args)
               end) ;;
              emit (");" +:+ nl) ;;
              (if match type with Some t => String.eqb t "hat" | None => false end
               then throw (Error "custom hat blocks are not suported")
               else ret tt) ;;
              resetVariableInputs
          end
      end
  | timer_reset =>
      emit ("runtime.ioDevices.clock.resetProjectTimer();" +:+ nl)
  | var_set variable value =>
      v <- descendVariable variable ;;
      value <- descendInput value ;;
      setInput v value ;;
      append_source (
        vs <- source_of v ;; s <- asSafe value ;;
        ret (vs +:+ " = " +:+ s +:+ ";" +:+ nl)) ;;
      if var_isCloud variable then
        append_source (
          vs <- source_of v ;;
          ret ("runtime.ioDevices.cloud.requestUpdateVariable(" +:+ dq
               +:+ sanitize (var_name variable) +:+ dq +:+ ", " +:+ vs
               +:+ ");" +:+ nl))
      else ret tt
  | visualReport input =>
      value <- next_local ;;
      append_source (
        i <- descendInput input ;; s <- asUnknown i ;;
        ret ("const " +:+ value +:+ " = " +:+ s +:+ ";")) ;;
      append_source (
        top <- ask (fun c => topBlockId (script c)) ;;
        ret ("if (" +:+ value +:+ " !== undefined) runtime.visualReport("
             +:+ dq +:+ sanitize top +:+ dq +:+ ", " +:+ value +:+ ");"
             +:+ nl))
  end

with generateCompatibilityLayerCall (node : compat) (setFlags : bool)
    {struct node} : M string :=
  match node with
  | compat_node opcode inputs fields mutation =>
      let res := "yield* executeInCompatibilityLayer({" in
      res <-
        (fix each_input (l : list (string * compat_arg)) (res : string)
           : M string :=
           match l with
           | [] => ret res
           | (inputName, input) :: r =>
               if startsWith inputName "substack" then
                 let res := res +:+ dq +:+ sanitize (toLowerCase inputName)
                            +:+ dq +:+ ":(function* () {" +:+ nl in
                 match input with
                 | substack nodes =>
                     descendStack_with descendStackedBlock nodes (new_Frame true)
                 | input_node _ =>
                     descendStack_with descendStackedBlock [] (new_Frame true)
                 end ;;
                 each_input r (res +:+ "}),")
               else
                 i <- match input with
                      | input_node n => descendInput n
                      | substack _ =>
                          throw (Error "JS: Unknown input: undefined")
                      end ;;
                 compiledInput <- asSafe i ;;
                 each_input r (res +:+ dq +:+ sanitize inputName +:+ dq +:+ ":"
                               +:+ compiledInput +:+ ",")
           end) inputs res ;;
      res <-
        (fix each_field (l : list (string * Field)) (res : string)
           : M string :=
           match l with
           | [] => ret res
           | (fieldName, FieldString s) :: r =>
               each_field r (res +:+ dq +:+ sanitize fieldName +:+ dq +:+ ":"
                             +:+ dq +:+ sanitize s +:+ dq +:+ ",")
           | (fieldName, field) :: r =>
               variable <- compat_field field descendVariable ;;
               each_field r (res +:+ dq +:+ sanitize fieldName +:+ dq +:+ ":"
                             +:+ variable +:+ ",")
           end) fields res ;;
      let res := res +:+ dq +:+ "mutation" +:+ dq +:+ ":" +:+ mutation +:+ "," in
      opcodeFunction <-
        evaluateOnce ("runtime.getOpcodeFunction(" +:+ dq +:+ sanitize opcode
                      +:+ dq +:+ ")") ;;
      w <- get isWarp ;;
      ret (res +:+ "}, " +:+ opcodeFunction +:+ ", " +:+ string_of_bool w
           +:+ ", " +:+ string_of_bool setFlags +:+ ", null)")
  end.

Definition descendStack : list stmt -> Frame -> M unit :=
  descendStack_with descendStackedBlock.

(** *** The script factory *)

Definition is_word_char (c : ascii) : bool :=
  let n := code c in
  ((48 <=? n) && (n <=? 57)) || ((65 <=? n) && (n <=? 90))
  || ((97 <=? n) && (n <=? 122)) || (n =? 95).

(** [.replace(/%[\w]/g, '')]; [skip] says that the character before was
    a [%] that starts a match. *)
Fixpoint remove_arguments_from (skip : bool) (s : string) : string :=
  match s with
  | EmptyString => EmptyString
  | String c r =>
      if skip then remove_arguments_from false r
      else if (code c =? 37)
              && match r with
                 | String c' _ => is_word_char c'
                 | EmptyString => false
                 end
      then remove_arguments_from true r
      else String c (remove_arguments_from false r)
  end.

Definition remove_arguments (s : string) : string :=
  remove_arguments_from false s.

(** [.replace(/[^a-zA-Z0-9]/g, '_')]. *)
Fixpoint remove_unsafe (s : string) : string :=
  match s with
  | String c r =>
      String (if is_word_char c && negb (code c =? 95) then c else "_"%char)
        (remove_unsafe r)
  | EmptyString => EmptyString
  end.

(** The three name pools shared by all compilations. *)
Record NamePools : Type := mkPools {
  factoryNameVariablePool : VariablePool;
  functionNameVariablePool : VariablePool;
  generatorNameVariablePool : VariablePool
}.

Definition getScriptFactoryName (p : NamePools) : string * NamePools :=
  let '(n, f) := VariablePool_next (factoryNameVariablePool p) in
  (n, mkPools f (functionNameVariablePool p) (generatorNameVariablePool p)).

(** [getScriptName(yields)]; for a procedure whose [procedureCode] is
    [null] the call of [replace] throws a [TypeError], after the name was
    taken from the pool. *)
Definition getScriptName (c : Settings) (yields : bool) (p : NamePools)
  : result (string * NamePools) :=
  let '(n, p') :=
    if yields then
      let '(n, q) := VariablePool_next (generatorNameVariablePool p) in
      (n, mkPools (factoryNameVariablePool p) (functionNameVariablePool p) q)
    else
      let '(n, q) := VariablePool_next (functionNameVariablePool p) in
      (n, mkPools (factoryNameVariablePool p) q (generatorNameVariablePool p)) in
  if isProcedure c then
    match procedureCode (script c) with
    | Some procedureCode =>
        let simplifiedProcedureCode :=
          fst (split_at 20 (remove_unsafe (remove_arguments procedureCode))) in
        Ok (n +:+ "_" +:+ simplifiedProcedureCode, p')
    | None => Throw TypeError
    end
  else Ok (n, p').

Fixpoint parameter_names (n : nat) (i : Z) : list string :=
  match n with
  | O => []
  | S k => ("p" +:+ decimal_of_Z i) :: parameter_names k (i + 1)
  end.

Definition createScriptFactory (c : Settings) (g : JSGenerator)
    (p : NamePools) : result (string * NamePools) :=
  let '(factoryName, p) := getScriptFactoryName p in
  let s := "(function " +:+ factoryName +:+ "(thread) { " in
  let s := s +:+ "let __target = thread.target; " in
  let s := s +:+ "let target = __target; " in
  let s := s +:+ "const runtime = __target.runtime; " in
  let s := s +:+ "const stage = runtime.getTargetForStage();" +:+ nl in
  let s :=
    fold_left (fun s '(varValue, varName) =>
                 s +:+ "const " +:+ varName +:+ " = " +:+ varValue +:+ ";" +:+ nl)
      (_setupVariables g) s in
  let s := s +:+ "return " in
  let s := if yields (script c) then s +:+ "function* " else s +:+ "function " in
  match getScriptName c (yields (script c)) p with
  | Throw e => Throw e
  | Ok (scriptName, p) =>
      let s := s +:+ scriptName in
      let s := s +:+ " (" in
      let s := s +:+ join "," (parameter_names (length (script_arguments (script c))) 0) in
      let s := s +:+ ") {" +:+ nl in
      let s := s +:+ "let target = __target;" +:+ nl in
      let s := s +:+ "if (thread.spoofing) {" +:+ nl in
      let s := s +:+ "target = thread.spoofTarget;" +:+ nl in
      let s := s +:+ "};" +:+ nl in
      let s := s +:+ source g in
      let s := if negb (isProcedure c) then s +:+ "retire();" +:+ nl else s in
      Ok (s +:+ "}; })", p)
  end.

(** [compile] on a new generator, up to the evaluation of the factory's
    text: the text and the pools after it, or what the lowering or the
    making of the factory throws. *)
Definition compile (c : Settings) (p : NamePools)
  : result (string * NamePools) :=
  match
    match stack (script c) with
    | Some nodes => descendStack nodes (new_Frame false) c (new_JSGenerator (script c))
    | None => Ok (tt, new_JSGenerator (script c))
    end
  with
  | Ok (_, g) => createScriptFactory c g p
  | Throw e => Throw e
  end.

(** ** The interpolator *)

Definition Number_add : Number -> Number -> Number := SFadd prec emax.
Definition Number_sub : Number -> Number -> Number := SFsub prec emax.
Definition Number_mul : Number -> Number -> Number := SFmul prec emax.
Definition Number_div : Number -> Number -> Number := SFdiv prec emax.
Definition Number_lt : Number -> Number -> bool := SFltb.
Definition Number_gt (a b : Number) : bool := SFltb b a.

(** [Math.abs]. *)
Definition Math_abs : Number -> Number := SFabs.

(** [Math.min] of two numbers. *)
Definition Math_min (a b : Number) : Number :=
  match a, b with
  | S754_nan, _ | _, S754_nan => S754_nan
  | S754_zero sa, S754_zero sb => S754_zero (sa || sb)
  | _, _ => if SFltb b a then b else a
  end.

(** [Math.sign]. *)
Definition Math_sign (a : Number) : Number :=
  match a with
  | S754_nan => S754_nan
  | S754_zero s => S754_zero s
  | S754_infinity s | S754_finite s _ _ =>
      if s then Number_of_Z (-1) else Number_of_Z 1
  end.

(** The position, direction, scale, costume and ghost effect kept from the
    last tick. *)
Record InterpolationData : Type := mkInterpolationData {
  i_x : Number;
  i_y : Number;
  i_direction : Number;
  i_scale : Number * Number;
  i_costume : Number;
  i_ghost : Number
}.

(** What the interpolator reads of a target; [rendered_direction] and
    [rendered_scale] are what [_getRenderedDirectionAndScale()] returns,
    and [aabb_width], [aabb_height] the bounds [getAABB()] gives for the
    target's drawable. *)
Record Target : Type := mkTarget {
  drawableID : Z;
  visible : bool;
  isStage : bool;
  t_x : Number;
  t_y : Number;
  currentCostume : Number;
  effects_ghost : Number;
  rendered_direction : Number;
  rendered_scale : Number * Number;
  aabb_width : Number;
  aabb_height : Number;
  interpolationData : option InterpolationData
}.

(** The calls made on the renderer. *)
Inductive RendererCall : Type :=
| updateDrawablePosition (drawableID : Z) (position : Number * Number)
| updateDrawableDirectionScale (drawableID : Z) (direction : Number)
    (scale : Number * Number)
| updateDrawableEffect (drawableID : Z) (effect : string) (value : Number).

Definition set_interpolationData (d : option InterpolationData) (t : Target)
  : Target :=
  mkTarget (drawableID t) (visible t) (isStage t) (t_x t) (t_y t)
    (currentCostume t) (effects_ghost t) (rendered_direction t)
    (rendered_scale t) (aabb_width t) (aabb_height t) d.

(** [restoreTargets]: the renderer calls, target after target. *)
Definition restoreTargets (targets : list Target) : list RendererCall :=
  flat_map (fun target =>
    match interpolationData target with
    | Some _ =>
        [ updateDrawablePosition (drawableID target) (t_x target, t_y target);
          updateDrawableDirectionScale (drawableID target)
            (rendered_direction target) (rendered_scale target);
          updateDrawableEffect (drawableID target) "ghost"
            (effects_ghost target) ]
    | None => []
    end) targets.

(** [setupTargets]: the targets with their new [interpolationData]. *)
Definition setupTargets (targets : list Target) : list Target :=
  map (fun target =>
    if visible target && negb (isStage target) then
      set_interpolationData
        (Some (mkInterpolationData (t_x target) (t_y target)
                 (rendered_direction target) (rendered_scale target)
                 (currentCostume target) (effects_ghost target)))
        target
    else set_interpolationData None target) targets.

Section Interpolate.

(** [Math.sin], [Math.cos], [Math.atan2] and [Math.PI], whose values the
    language leaves to the implementation. *)
Variable Math_sin Math_cos : Number -> Number.
Variable Math_atan2 : Number -> Number -> Number.
Variable Math_PI : Number.

Definition n_0_1 : Number := decimal_to_Number false 1 (-1).
Definition n_0 : Number := pos_zero.
Definition n_2 : Number := Number_of_Z 2.
Definition n_10 : Number := Number_of_Z 10.
Definition n_25 : Number := Number_of_Z 25.
Definition n_50 : Number := Number_of_Z 50.
Definition n_100 : Number := Number_of_Z 100.
Definition n_180 : Number := Number_of_Z 180.

(** The body of the loop of [interpolateTargets] for a target that has
    interpolation data. *)
Definition interpolateTarget (target : Target)
    (interpolationData : InterpolationData) : list RendererCall :=
  let drawableID := drawableID target in
  (* Position interpolation. *)
  let xDistance := Math_abs (Number_sub (t_x target) (i_x interpolationData)) in
  let yDistance := Math_abs (Number_sub (t_y target) (i_y interpolationData)) in
  let position :=
    if Number_gt xDistance n_0_1 || Number_gt yDistance n_0_1 then
      let xTolerance := Math_min n_50 (Number_add n_10 (aabb_width target)) in
      let yTolerance := Math_min n_50 (Number_add n_10 (aabb_height target)) in
      if Number_lt xDistance xTolerance && Number_lt yDistance yTolerance then
        let newX := Number_div (Number_add (i_x interpolationData) (t_x target)) n_2 in
        let newY := Number_div (Number_add (i_y interpolationData) (t_y target)) n_2 in
        [updateDrawablePosition drawableID (newX, newY)]
      else []
    else [] in
  (* Effect interpolation. *)
  let ghostChange :=
    Math_abs (Number_sub (effects_ghost target) (i_ghost interpolationData)) in
  let ghost :=
    if Number_gt ghostChange n_0 && Number_lt ghostChange n_25 then
      let newGhost :=
        Number_div (Number_add (effects_ghost target) (i_ghost interpolationData)) n_2 in
      [updateDrawableEffect drawableID "ghost" newGhost]
    else [] in
  (* Interpolate scale and direction. *)
  let costumeDidChange :=
    negb (Number_strict_equal (i_costume interpolationData) (currentCostume target)) in
  let direction_scale :=
    if negb costumeDidChange then
      let direction := rendered_direction target in
      let scale := rendered_scale target in
      let updateDrawableDirectionScale_ := false in
      let '(direction, updateDrawableDirectionScale_) :=
        if negb (Number_strict_equal direction (i_direction interpolationData)) then
          let currentRadians := Number_div (Number_mul direction Math_PI) n_180 in
          let startingRadians :=
            Number_div (Number_mul (i_direction interpolationData) Math_PI) n_180 in
          (Number_div
             (Number_mul
                (Math_atan2
                   (Number_add (Math_sin currentRadians) (Math_sin startingRadians))
                   (Number_add (Math_cos currentRadians) (Math_cos startingRadians)))
                n_180)
             Math_PI,
           true)
        else (direction, updateDrawableDirectionScale_) in
      let startingScale := i_scale interpolationData in
      let '(scale, updateDrawableDirectionScale_) :=
        if negb (Number_strict_equal (fst scale) (fst startingScale))
           || negb (Number_strict_equal (snd scale) (snd startingScale))
        then
          (* Do not interpolate size when the sign of either scale differs. *)
          if Number_strict_equal (Math_sign (fst scale)) (Math_sign (fst startingScale))
             && Number_strict_equal (Math_sign (snd scale)) (Math_sign (snd startingScale))
          then
            let change := Math_abs (Number_sub (fst scale) (fst startingScale)) in
            if Number_lt change n_100 then
              ((Number_div (Number_add (fst scale) (fst startingScale)) n_2,
                Number_div (Number_add (snd scale) (snd startingScale)) n_2),
               true)
            else (scale, updateDrawableDirectionScale_)
          else (scale, updateDrawableDirectionScale_)
        else (scale, updateDrawableDirectionScale_) in
      if updateDrawableDirectionScale_ then
        [updateDrawableDirectionScale drawableID direction scale]
      else []
    else [] in
  position ++ ghost ++ direction_scale.

(** [interpolateTargets]: the renderer calls, target after target;
    [renderer] says whether the runtime has a renderer. *)
Definition interpolateTargets (renderer : bool) (targets : list Target)
  : list RendererCall :=
  if negb renderer then []
  else
    flat_map (fun target =>
      match interpolationData target with
      | None => []
      | Some interpolationData => interpolateTarget target interpolationData
      end) targets.

End Interpolate.

(** * Notions used in the statements *)

(** The number is [0] or [-0]. *)
Definition is_zero (n : Number) : bool :=
  match n with S754_zero _ => true | _ => false end.

(** The reading of [isAlwaysNumber] on a constant that asks for a finite
    coercion. *)
Definition finite_nonzero_or_nonblank (constantValue : Value) : bool :=
  let n := ToNumber constantValue in
  Number_isFinite n && negb (Number_isNaN n)
  && (negb (is_zero n) || negb (String.eqb (trim (ToString constantValue)) "")).

(** The three texts [op.equals] can produce. *)
Definition lowercase_compare (ls rs : string) : string :=
  "(" +:+ ls +:+ ".toLowerCase() === " +:+ rs +:+ ".toLowerCase())".
Definition numeric_compare (ls rs : string) : string :=
  "(" +:+ ls +:+ " === " +:+ rs +:+ ")".
Definition fallback_compare (ls rs : string) : string :=
  "compareEqual(" +:+ ls +:+ ", " +:+ rs +:+ ")".

(** The two other texts that compare lowercased strings, of [op.less] and
    of [op.greater]. *)
Definition lowercase_less (ls rs : string) : string :=
  "(" +:+ ls +:+ ".toLowerCase() < " +:+ rs +:+ ".toLowerCase())".
Definition lowercase_greater (ls rs : string) : string :=
  "(" +:+ ls +:+ ".toLowerCase() > " +:+ rs +:+ ".toLowerCase())".

(** What the three analyses and the four conversions that the comparisons
    call return for one operand. *)
Record Answers : Type := mkAnswers {
  never_number : bool;
  always_number : bool;
  always_number_or_nan : bool;
  text_string : string;
  text_number : string;
  text_number_or_nan : string;
  text_unknown : string
}.

(** In the state [g], the operand [i] answers [f], and no call changes the
    state. *)
Definition answers (c : Settings) (g : JSGenerator) (i : Input) (f : Answers)
  : Prop :=
  isNeverNumber i c g = Ok (never_number f, g)
  /\ isAlwaysNumber i c g = Ok (always_number f, g)
  /\ isAlwaysNumberOrNaN i c g = Ok (always_number_or_nan f, g)
  /\ asString i c g = Ok (text_string f, g)
  /\ asNumber i c g = Ok (text_number f, g)
  /\ asNumberOrNaN i c g = Ok (text_number_or_nan f, g)
  /\ asUnknown i c g = Ok (text_unknown f, g).

(** The answers of a typed input and of a constant, in every state. *)
Definition answers_of_typed (source : string) (type : Z) : Answers :=
  mkAnswers (TypedInput_isNeverNumber source type)
    (TypedInput_isAlwaysNumber source type)
    (TypedInput_isAlwaysNumberOrNaN source type)
    (TypedInput_asString source type) (TypedInput_asNumber source type)
    (TypedInput_asNumberOrNaN source type) (TypedInput_asUnknown source type).

Definition answers_of_constant (v : Value) : Answers :=
  mkAnswers (ConstantInput_isNeverNumber v) (ConstantInput_isAlwaysNumber v)
    (ConstantInput_isAlwaysNumberOrNaN v)
    (ConstantInput_asString v) (ConstantInput_asNumber v)
    (ConstantInput_asNumberOrNaN v) (ConstantInput_asUnknown v).

(** The text of [op.equals], of [op.less] and of [op.greater] for two
    operands and their answers, each in the order in which the case of
    [descendInput] asks. *)
Definition equals_text (l r : Input) (fl fr : Answers) : string :=
  if never_number fl || never_number fr
  then lowercase_compare (text_string fl) (text_string fr)
  else if (always_number fl && always_number fr)
          || (always_number fl && is_ConstantInput l && safe_for_equals l)
          || (always_number fr && is_ConstantInput r && safe_for_equals r)
  then numeric_compare (text_number fl) (text_number fr)
  else fallback_compare (text_unknown fl) (text_unknown fr).

Definition less_text (fl fr : Answers) : string :=
  if always_number_or_nan fl && always_number fr
  then "(" +:+ text_number_or_nan fl +:+ " < " +:+ text_number fr +:+ ")"
  else if always_number fl && always_number_or_nan fr
  then "!(" +:+ text_number fl +:+ " >= " +:+ text_number_or_nan fr +:+ ")"
  else if never_number fl || never_number fr
  then lowercase_less (text_string fl) (text_string fr)
  else "compareLessThan(" +:+ text_unknown fl +:+ ", " +:+ text_unknown fr
       +:+ ")".

Definition greater_text (fl fr : Answers) : string :=
  if always_number fl && always_number_or_nan fr
  then "(" +:+ text_number fl +:+ " > " +:+ text_number_or_nan fr +:+ ")"
  else if always_number_or_nan fl && always_number fr
  then "!(" +:+ text_number_or_nan fl +:+ " <= " +:+ text_number fr +:+ ")"
  else if never_number fl || never_number fr
  then lowercase_greater (text_string fl) (text_string fr)
  else "compareGreaterThan(" +:+ text_unknown fl +:+ ", " +:+ text_unknown fr
       +:+ ")".

(** [delegates objects i v]: the analysis of [i] ends, through the
    [_value]s of the store, at a constant of value [v]. *)
Inductive delegates (objects : list VariableInput) : Input -> Value -> Prop :=
| delegates_constant v safe :
    delegates objects (ConstantInput v safe) v
| delegates_variable a o i v :
    objects !! a = Some o ->
    vi_value o = Some i ->
    delegates objects i v ->
    delegates objects (VariableRef a) v.

(** The reading of [isLastBlockInLoop] that looks for the first frame,
    from the most recent one outwards, whose [isLastBlock] is false and
    answers whether that frame is a loop. *)
Fixpoint first_unfinished_is_loop (l : list Frame) : bool :=
  match l with
  | [] => false
  | frame :: outer =>
      if negb (isLastBlock frame) then isLoop frame
      else first_unfinished_is_loop outer
  end.

(** A generator whose stack of frames is [l]. *)
Definition with_frames (l : list Frame) : JSGenerator :=
  set_frames l (new_JSGenerator (mkScript None false false false false [] None "")).

(** What happens to the store: a [VariableInput] is created, or
    [setInput] is called on the object at [self]. *)
Inductive StoreEvent : Type :=
| Create (source : string)
| SetInput (self : nat) (input : Input).

Definition store_step (objects : list VariableInput) (e : StoreEvent)
  : list VariableInput :=
  match e with
  | Create source => objects ++ [new_VariableInput source]
  | SetInput self input => VariableInput_setInput self input objects
  end.

(** The store after a sequence of events, from the empty one. *)
Definition store_after (events : list StoreEvent) : list VariableInput :=
  fold_left store_step events [].

(** [i instanceof VariableInput]. *)
Definition is_variable (i : Input) : bool :=
  match i with VariableRef _ => true | _ => false end.

(** No [_value] of the store is a [VariableInput]. *)
Definition values_are_not_variables (objects : list VariableInput) : Prop :=
  forall a o i,
    objects !! a = Some o -> vi_value o = Some i -> is_variable i = false.

(** What [control.wait] writes, for the temporary [duration] and the text
    [seconds] of the lowered input. *)
Definition wait_text (warp : bool) (duration seconds : string) : string :=
  "thread.timer = timer();" +:+ nl
  +:+ "var " +:+ duration +:+ " = Math.max(0, 1000 * " +:+ seconds +:+ ");" +:+ nl
  +:+ "runtime.requestRedraw();" +:+ nl
  +:+ (if warp then "" else "yield;" +:+ nl)
  +:+ "while (thread.timer.timeElapsed() < " +:+ duration +:+ ") {" +:+ nl
  +:+ (if warp then "if (isStuck()) yield;" +:+ nl else "yield;" +:+ nl)
  +:+ "}" +:+ nl
  +:+ "thread.timer = null;" +:+ nl.

(** The call [m] throws. *)
Definition throws {A} (m : M A) (c : Settings) (g : JSGenerator) : Prop :=
  exists e, m c g = Throw e.






(** The two errors of a yield that the header does not declare. *)
Definition yield_mismatch (e : Exception) : bool :=
  match e with
  | Error message =>
      String.eqb message "Script yielded but is not marked as yielding."
      || String.eqb message
           "Script uses yielding procedure but is not marked as yielding."
  | _ => false
  end.

(** The call [m] throws neither of the two errors. *)
Definition quiet {A} (m : M A) : Prop :=
  forall c g e, m c g = Throw e -> yield_mismatch e = false.



(** The costume is the one of the last tick. *)
Definition costume_unchanged (target : Target) (d : InterpolationData) : bool :=
  Number_strict_equal (i_costume d) (currentCostume target).

(** The signs of both axes of the current scale and of the scale kept
    from the last tick are the same. *)
Definition signs_match (target : Target) (d : InterpolationData) : bool :=
  Number_strict_equal (Math_sign (fst (rendered_scale target)))
    (Math_sign (fst (i_scale d)))
  && Number_strict_equal (Math_sign (snd (rendered_scale target)))
       (Math_sign (snd (i_scale d))).

(** The first axis of the scale changed by less than 100. *)
Definition small_change (target : Target) (d : InterpolationData) : bool :=
  Number_lt
    (Math_abs (Number_sub (fst (rendered_scale target)) (fst (i_scale d))))
    n_100.

(** The midpoint, axis by axis, of the current scale and of the scale of
    the last tick. *)
Definition scale_midpoint (target : Target) (d : InterpolationData)
  : Number * Number :=
  (Number_div (Number_add (fst (rendered_scale target)) (fst (i_scale d))) n_2,
   Number_div (Number_add (snd (rendered_scale target)) (snd (i_scale d))) n_2).

(** ** Notions used for the rest of the compiler *)

(** Every character of [s] satisfies [p]. *)
Fixpoint all_chars (p : ascii -> bool) (s : string) : bool :=
  match s with
  | EmptyString => true
  | String c r => p c && all_chars p r
  end.

(** The states of a reader of the body of a string literal: outside an
    escape, after a backslash, and inside an escape by code with [left_]
    digits to come. *)
Inductive read_mode : Type :=
| Plain
| Escaped
| Hex (left_ : nat) (acc : Z).

(** The string that the body of a double-quoted string literal denotes:
    [None] when it holds a quote or a control character that is not
    escaped, or an escape other than those of a quote, of a backslash,
    of [b], [t], [n], [f] and [r], and [u] with four hexadecimal
    digits. *)
Fixpoint read_string_body (m : read_mode) (s : string) : option string :=
  match s with
  | EmptyString => match m with Plain => Some EmptyString | _ => None end
  | String c r =>
      match m with
      | Plain =>
          if code c =? 92 then read_string_body Escaped r
          else if (code c =? 34) || (code c <? 32) then None
          else String c <$> read_string_body Plain r
      | Escaped =>
          let n := code c in
          if n =? 117 then read_string_body (Hex 4 0) r
          else
            let d :=
              if n =? 34 then Some 34 else if n =? 92 then Some 92
              else if n =? 98 then Some 8 else if n =? 116 then Some 9
              else if n =? 110 then Some 10 else if n =? 102 then Some 12
              else if n =? 114 then Some 13 else None in
            match d with
            | Some x => String (chr x) <$> read_string_body Plain r
            | None => None
            end
      | Hex (S k) acc =>
          match digit_in 16 c with
          | Some d =>
              match k with
              | O => String (chr (acc * 16 + d)) <$> read_string_body Plain r
              | _ => read_string_body (Hex k (acc * 16 + d)) r
              end
          | None => None
          end
      | Hex O _ => None
      end
  end.

(** The sources bound in [_setupVariables]. *)
Definition setup_keys (g : JSGenerator) : list string :=
  map fst (_setupVariables g).

(** Every variable input that the tracker [variableInputs] holds is an
    object of the store. *)
Definition tracker_in_store (g : JSGenerator) : Prop :=
  forall k a, variableInputs g !! k = Some a -> (a < length (objects g))%nat.

(** The store is well formed: no [_value] is a variable input, and the
    tracker holds objects of the store only. *)
Definition store_ok (g : JSGenerator) : Prop :=
  values_are_not_variables (objects g) /\ tracker_in_store g.

(** What every method of the generator keeps between two states, also
    those that change the frames, the warp flag or the source: the
    bindings of [_setupVariables] are only added to, at new sources; a
    well-formed store stays so; no object leaves the store. *)
Definition kept (g g' : JSGenerator) : Prop :=
  (exists more, _setupVariables g' = (_setupVariables g ++ more)%list)
  /\ (NoDup (setup_keys g) -> NoDup (setup_keys g'))
  /\ (store_ok g -> store_ok g')
  /\ (length (objects g) <= length (objects g'))%nat.

(** What the lowering of a node keeps: the above, the stack of frames,
    the warp flag, and the source written so far. *)
Definition lowered (g g' : JSGenerator) : Prop :=
  kept g g'
  /\ frames g' = frames g
  /\ isWarp g' = isWarp g
  /\ exists s, source g' = source g +:+ s.

(** A method that returns leaves a state that is [lowered] from its start. *)
Definition respects {A} (m : M A) : Prop :=
  forall c g a g', m c g = Ok (a, g') -> lowered g g'.

(** The same for [kept]. *)
Definition keeps {A} (m : M A) : Prop :=
  forall c g a g', m c g = Ok (a, g') -> kept g g'.

(** One more than the address of a variable input, and [0] for the other
    inputs. *)
Definition address (i : Input) : nat :=
  match i with VariableRef a => S a | _ => 0 end.

(** A variable input is an object of the store. *)
Definition valid_input (g : JSGenerator) (i : Input) : Prop :=
  (address i <= length (objects g))%nat.

(** The condition that every result meets. *)
Definition anything {A} (g : JSGenerator) (a : A) : Prop := True.

(** From [g], the method [m] returns a result that meets [V], or throws
    something else than the [RangeError] of an analysis that does not
    return. *)
Definition no_overflow {A} (V : JSGenerator -> A -> Prop) (m : M A)
    (c : Settings) (g : JSGenerator) : Prop :=
  match m c g with
  | Ok (a, g') => V g' a
  | Throw e => e <> RangeError
  end.

(** [g'] is the state in which the lowering of some expression, stacked
    block, stack or compatibility-layer call returns when it starts in
    [g]. *)
Inductive lowers (c : Settings) (g g' : JSGenerator) : Prop :=
| lowers_input (node : expr) (i : Input) :
    descendInput node c g = Ok (i, g') -> lowers c g g'
| lowers_block (node : stmt) (u : unit) :
    descendStackedBlock node c g = Ok (u, g') -> lowers c g g'
| lowers_stack (nodes : list stmt) (frame : Frame) (u : unit) :
    descendStack nodes frame c g = Ok (u, g') -> lowers c g g'
| lowers_call (node : compat) (setFlags : bool) (s : string) :
    generateCompatibilityLayerCall node setFlags c g = Ok (s, g') ->
    lowers c g g'.

(** The call into the compatibility layer of a block whose only input is
    a substack named [name] and which has no field. *)
Definition substack_call_text (name mutation opcodeFunction : string)
    (warp setFlags : bool) : string :=
  "yield* executeInCompatibilityLayer({"
  +:+ dq +:+ sanitize (toLowerCase name) +:+ dq +:+ ":(function* () {" +:+ nl
  +:+ "}),"
  +:+ dq +:+ "mutation" +:+ dq +:+ ":" +:+ mutation +:+ ","
  +:+ "}, " +:+ opcodeFunction +:+ ", " +:+ string_of_bool warp
  +:+ ", " +:+ string_of_bool setFlags +:+ ", null)".

(** The line that follows a compatibility-layer block that is the last
    block in a loop. *)
Definition continue_line : string :=
  "if (hasResumedFromPromise) {hasResumedFromPromise = false;continue;}" +:+ nl.

(** A script that yields, with no procedure, for the examples. *)
Definition sample_settings : Settings :=
  mkSettings (mkScript None false false true false [] None "") ∅ false ∅.

Definition sample_variable : IRVariable := mkVariable "idx" "target" "x" false.

(** A stack with a loop run all at once that changes a variable, and an
    inline stack used as an input. *)
Definition sample_stack : list stmt :=
  [ control_allAtOnce
      [ control_repeat (constant (VString "3"))
          [ var_set sample_variable (op_add (var_get sample_variable)
                                       (constant (VString "1"))) ] ];
    list_add sample_variable
      (control_inlineStackOutput [procedures_return (var_get sample_variable)]) ].

(** ** Notions used for the rest of the interpolator *)

(** [xDistance], [yDistance], [xTolerance], [yTolerance] and
    [ghostChange] of [interpolateTargets]. *)
Definition x_distance (target : Target) (d : InterpolationData) : Number :=
  Math_abs (Number_sub (t_x target) (i_x d)).

Definition y_distance (target : Target) (d : InterpolationData) : Number :=
  Math_abs (Number_sub (t_y target) (i_y d)).

Definition x_tolerance (target : Target) : Number :=
  Math_min n_50 (Number_add n_10 (aabb_width target)).

Definition y_tolerance (target : Target) : Number :=
  Math_min n_50 (Number_add n_10 (aabb_height target)).

Definition ghost_change (target : Target) (d : InterpolationData) : Number :=
  Math_abs (Number_sub (effects_ghost target) (i_ghost d)).

(** The direction is the one of the last tick. *)
Definition direction_unchanged (target : Target) (d : InterpolationData)
  : bool :=
  Number_strict_equal (rendered_direction target) (i_direction d).

(** The average of the direction of the last tick and of the current
    one, as [interpolateTargets] computes it. *)
Definition average_direction (Math_sin Math_cos : Number -> Number)
    (Math_atan2 : Number -> Number -> Number) (Math_PI : Number)
    (target : Target) (d : InterpolationData) : Number :=
  let currentRadians :=
    Number_div (Number_mul (rendered_direction target) Math_PI) n_180 in
  let startingRadians :=
    Number_div (Number_mul (i_direction d) Math_PI) n_180 in
  Number_div
    (Number_mul
       (Math_atan2
          (Number_add (Math_sin currentRadians) (Math_sin startingRadians))
          (Number_add (Math_cos currentRadians) (Math_cos startingRadians)))
       n_180)
    Math_PI.

(** The three calls of [restoreTargets] for one target. *)
Definition restore_calls (target : Target) : list RendererCall :=
  [ updateDrawablePosition (drawableID target) (t_x target, t_y target);
    updateDrawableDirectionScale (drawableID target)
      (rendered_direction target) (rendered_scale target);
    updateDrawableEffect (drawableID target) "ghost" (effects_ghost target) ].

(** * Properties *)

(** ** Reasoning about methods *)

Lemma bind_Ok {A B} (m : M A) (k : A -> M B) c g b g' :
  bind m k c g = Ok (b, g') ->
  exists a g1, m c g = Ok (a, g1) /\ k a c g1 = Ok (b, g').
Proof.
  unfold bind. destruct (m c g) as [[a g1]|e]; [|discriminate].
  intros H. exists a, g1. split; [reflexivity|exact H].
Qed.

Lemma bind_eq {A B} (m : M A) (k : A -> M B) c g a g1 :
  m c g = Ok (a, g1) -> bind m k c g = k a c g1.
Proof. unfold bind. intros ->. reflexivity. Qed.

Lemma bind_Throw {A B} (m : M A) (k : A -> M B) c g e :
  m c g = Throw e -> bind m k c g = Throw e.
Proof. unfold bind. intros ->. reflexivity. Qed.

Lemma bind_Throw_inv {A B} (m : M A) (k : A -> M B) c g e :
  bind m k c g = Throw e ->
  m c g = Throw e \/ exists a g1, m c g = Ok (a, g1) /\ k a c g1 = Throw e.
Proof.
  unfold bind. destruct (m c g) as [[a g1]|x]; [eauto|].
  intros [= ->]. auto.
Qed.

Lemma append_source_Ok (e : M string) c g u g' :
  append_source e c g = Ok (u, g') ->
  exists s g1, e c g = Ok (s, g1) /\ g' = set_source (source g +:+ s) g1.
Proof.
  unfold append_source. destruct (e c g) as [[s g1]|x]; [|discriminate].
  intros H. exists s, g1. split; [reflexivity|congruence].
Qed.

(** Splits a hypothesis that says that a sequence of calls returned. *)
Ltac split_bind H :=
  let a := fresh "a" in
  let g1 := fresh "g" in
  let H1 := fresh "H" in
  apply bind_Ok in H as (a & g1 & H1 & H).

(** ** Constants *)

Example ToNumber_samples :
  ToNumber (VString "10") = Number_of_Z 10 /\
  ToNumber (VString "010") = Number_of_Z 10 /\
  ToNumber (VString "  12  ") = Number_of_Z 12 /\
  ToNumber (VString "0x1F") = Number_of_Z 31 /\
  ToNumber (VString "1e3") = Number_of_Z 1000 /\
  ToNumber (VString "") = pos_zero /\
  ToNumber (VString "   ") = pos_zero /\
  ToNumber (VString "-0") = neg_zero /\
  ToNumber (VString "abc") = NaN /\
  ToNumber (VString "1e400") = Infinity /\
  ToNumber (VString "0.1") = S754_finite false 7205759403792794 (-56) /\
  ToNumber (VBoolean true) = Number_of_Z 1.
Proof. repeat split; vm_compute; reflexivity. Qed.

Example Number_toString_samples :
  map (fun s => Number_toString (StringToNumber s))
    ["10"; "010"; "0.1"; "1e21"; "1e-7"; "123456789012345678901";
     "0.30000000000000004"; "-12.5"; "5e-324"; "0x10"; "-0"; "abc"]
  = ["10"; "10"; "0.1"; "1e+21"; "1e-7"; "123456789012345680000";
     "0.30000000000000004"; "-12.5"; "5e-324"; "16"; "0"; "NaN"].
Proof. vm_compute. reflexivity. Qed.

(** C3, as the code has it: [isAlwaysNumber] on a constant holds exactly
    when the numeric coercion of the literal is not NaN and, when that
    coercion is zero, the trimmed text of the literal is not empty.  The
    coercion need not be finite. *)
Theorem ConstantInput_isAlwaysNumber_spec (constantValue : Value) :
  ConstantInput_isAlwaysNumber constantValue =
    negb (Number_isNaN (ToNumber constantValue))
    && (negb (is_zero (ToNumber constantValue))
        || negb (String.eqb (trim (ToString constantValue)) "")).
Proof.
  unfold ConstantInput_isAlwaysNumber.
  destruct (ToNumber constantValue) as [[|]|[|]| |[|] m e]; reflexivity.
Qed.

(** C3 fails as stated: the constant ["Infinity"] is always a number
    although its coercion is not finite. *)
Lemma isAlwaysNumber_of_Infinity :
  ToNumber (VString "Infinity") = Infinity /\
  Number_isFinite (ToNumber (VString "Infinity")) = false /\
  ConstantInput_isAlwaysNumber (VString "Infinity") = true /\
  ConstantInput_isAlwaysNumber (VString "Infinity")
    <> finite_nonzero_or_nonblank (VString "Infinity").
Proof. vm_compute. repeat split; discriminate. Qed.

(** C7: [asNumber] on a constant gives ["-0"] when the coercion is
    negative zero, ["0"] when it is NaN or positive zero, and otherwise the
    text of the coerced number, not the literal's own text: ["010"] gives
    ["10"]. *)
Theorem ConstantInput_asNumber_spec (constantValue : Value) (safe : bool)
    (c : Settings) (g : JSGenerator) :
  asNumber (ConstantInput constantValue safe) c g =
    Ok (match ToNumber constantValue with
        | S754_zero true => "-0"
        | S754_zero false | S754_nan => "0"
        | S754_infinity _ | S754_finite _ _ _ =>
            Number_toString (ToNumber constantValue)
        end, g)
  /\ ConstantInput_asNumber (VString "-0") = "-0"
  /\ ConstantInput_asNumber (VString "010") = "10".
Proof.
  split; [|split; vm_compute; reflexivity].
  unfold asNumber, ret, ConstantInput_asNumber.
  destruct (ToNumber constantValue) as [[|]|s| |s m e]; reflexivity.
Qed.

(** ** Equality of two constants *)

Lemma equals_of_constants (v1 v2 : Value) (c : Settings) (g : JSGenerator) :
  descendInput (op_equals (constant v1) (constant v2)) c g =
    Ok (TypedInput
          (if ConstantInput_isNeverNumber v1 || ConstantInput_isNeverNumber v2
           then lowercase_compare (ConstantInput_asString v1)
                  (ConstantInput_asString v2)
           else if (ConstantInput_isAlwaysNumber v1
                    && ConstantInput_isAlwaysNumber v2)
                   || (ConstantInput_isAlwaysNumber v1
                       && isSafeConstantForEqualsOptimization v1)
                   || (ConstantInput_isAlwaysNumber v2
                       && isSafeConstantForEqualsOptimization v2)
           then numeric_compare (ConstantInput_asNumber v1)
                  (ConstantInput_asNumber v2)
           else fallback_compare (ConstantInput_asUnknown v1)
                  (ConstantInput_asUnknown v2))
          TYPE_BOOLEAN, g).
Proof.
  cbn [descendInput].
  unfold safeConstantInput, bind, ask, ret, isNeverNumber, isAlwaysNumber,
    analysis, typed, asString, asNumber, asUnknown.
  cbn [isNeverNumber_in isAlwaysNumber_in analyse is_ConstantInput
       safe_for_equals].
  destruct (ConstantInput_isNeverNumber v1); [reflexivity|].
  destruct (ConstantInput_isNeverNumber v2); [reflexivity|].
  cbn [orb].
  destruct (ConstantInput_isAlwaysNumber v1),
    (ConstantInput_isAlwaysNumber v2),
    (isSafeConstantForEqualsOptimization v1),
    (isSafeConstantForEqualsOptimization v2); reflexivity.
Qed.

(** C1, as the code has it: for [op.equals] on the constants ["10"] and
    ["010"] the compiler emits the numeric comparison of the coerced
    values, [(10 === 10)].  Neither constant is never a number and both
    are always numbers, so the round-trip test, which ["010"] does fail,
    is not consulted. *)
Theorem equals_10_010_is_numeric (c : Settings) (g : JSGenerator) :
  descendInput (op_equals (constant (VString "10")) (constant (VString "010")))
    c g
  = Ok (TypedInput "(10 === 10)" TYPE_BOOLEAN, g)
  /\ ConstantInput_isNeverNumber (VString "10") = false
  /\ ConstantInput_isNeverNumber (VString "010") = false
  /\ ConstantInput_isAlwaysNumber (VString "10") = true
  /\ ConstantInput_isAlwaysNumber (VString "010") = true
  /\ isSafeConstantForEqualsOptimization (VString "010") = false.
Proof.
  split; [|vm_compute; repeat split].
  rewrite equals_of_constants. vm_compute. reflexivity.
Qed.

(** C1 fails as stated: what is emitted for ["10"] and ["010"] is not the
    lowercased-string comparison of the two operands. *)
Lemma equals_10_010_is_not_lowercase_compare :
  let c := mkSettings (mkScript None false false false false [] None "")
             ∅ false ∅ in
  let g := new_JSGenerator (script c) in
  descendInput (op_equals (constant (VString "10")) (constant (VString "010")))
    c g
  <> Ok (TypedInput
           (lowercase_compare (ConstantInput_asString (VString "10"))
              (ConstantInput_asString (VString "010")))
           TYPE_BOOLEAN, g).
Proof.
  intros c g. rewrite equals_of_constants. vm_compute. discriminate.
Qed.

(** ** Typed inputs and the never-number comparisons *)

Lemma isNeverNumber_in_true fuel objects i :
  isNeverNumber_in fuel objects i = Some true ->
  exists v, delegates objects i v /\ Number_isNaN (ToNumber v) = true.
Proof.
  unfold isNeverNumber_in. revert i.
  induction fuel as [|fuel IH]; intros i H.
  - destruct i; cbn in H; try discriminate.
    eexists; split; [constructor|]. injection H as H. exact H.
  - destruct i as [s t|v safe|a|]; cbn in H; try discriminate.
    + eexists; split; [constructor|]. injection H as H. exact H.
    + destruct (objects !! a) as [o|] eqn:Ho; [|discriminate].
      destruct (vi_value o) as [i|] eqn:Hv; [|discriminate].
      assert (Hi : analyse fuel TypedInput_isNeverNumber
                     ConstantInput_isNeverNumber objects i = Some true)
        by (destruct i; solve [exact H | discriminate]).
      destruct (IH i Hi) as (v & Hd & Hn).
      exists v. split; [|exact Hn].
      eapply delegates_variable; eassumption.
Qed.

(** The three analyses agree, on every input and store. *)
Lemma analyses_agree fuel objects i :
  match isAlwaysNumber_in fuel objects i,
        isAlwaysNumberOrNaN_in fuel objects i,
        isNeverNumber_in fuel objects i with
  | Some a, Some o, Some n => (a = true -> o = true) /\ (n = true -> o = false)
  | None, None, None => True
  | _, _, _ => False
  end.
Proof.
  unfold isAlwaysNumber_in, isAlwaysNumberOrNaN_in, isNeverNumber_in.
  revert i. induction fuel as [|fuel IH]; intros i.
  - destruct i as [s t|v safe|a|]; cbn; try exact I.
    + unfold TypedInput_isAlwaysNumber, TypedInput_isAlwaysNumberOrNaN,
        TypedInput_isNeverNumber.
      split; [intros ->; reflexivity|discriminate].
    + unfold ConstantInput_isAlwaysNumberOrNaN, ConstantInput_isNeverNumber,
        ConstantInput_isAlwaysNumber.
      split; [tauto|]. intros ->. reflexivity.
  - destruct i as [s t|v safe|a|]; cbn; try exact I.
    + unfold TypedInput_isAlwaysNumber, TypedInput_isAlwaysNumberOrNaN,
        TypedInput_isNeverNumber.
      split; [intros ->; reflexivity|discriminate].
    + unfold ConstantInput_isAlwaysNumberOrNaN, ConstantInput_isNeverNumber,
        ConstantInput_isAlwaysNumber.
      split; [tauto|]. intros ->. reflexivity.
    + destruct (objects !! a) as [o|]; [|exact I].
      destruct (vi_value o) as [[s t|v safe|b|]|];
        try (split; discriminate).
      * apply (IH (TypedInput s t)).
      * apply (IH (ConstantInput v safe)).
      * apply (IH (VariableRef b)).
Qed.

(** The same for the answers of an operand. *)
Lemma answers_agree c g i f :
  answers c g i f ->
  (always_number f = true -> always_number_or_nan f = true)
  /\ (never_number f = true ->
      always_number_or_nan f = false /\ always_number f = false).
Proof.
  intros (Hn & Ha & Ho & _).
  unfold isNeverNumber, isAlwaysNumber, isAlwaysNumberOrNaN, analysis in *.
  pose proof (analyses_agree (S (length (objects g))) (objects g) i) as H.
  destruct i as [s t|v safe|a|]; [| | |discriminate];
    destruct (isAlwaysNumber_in _ _ _) as [x|]; try discriminate;
    destruct (isAlwaysNumberOrNaN_in _ _ _) as [y|]; try discriminate;
    destruct (isNeverNumber_in _ _ _) as [z|]; try discriminate;
    injection Hn as <-; injection Ha as <-; injection Ho as <-;
    destruct H as [H1 H2]; (split; [exact H1|]); intros Hz;
    (split; [exact (H2 Hz)|]);
    (destruct x; [|reflexivity]);
    rewrite H1 in H2 by reflexivity; exact (H2 Hz).
Qed.

Lemma ret_eq {A} (a : A) c g : ret a c g = Ok (a, g).
Proof. reflexivity. Qed.

Ltac answer H := rewrite (bind_eq _ _ _ _ _ _ H).

(** The three comparisons, for any two operands. *)
Lemma comparisons (lhs rhs : expr) c g l g1 r g2 fl fr :
  descendInput lhs c g = Ok (l, g1) ->
  descendInput rhs c g1 = Ok (r, g2) ->
  answers c g2 l fl -> answers c g2 r fr ->
  descendInput (op_equals lhs rhs) c g
    = Ok (TypedInput (equals_text l r fl fr) TYPE_BOOLEAN, g2)
  /\ descendInput (op_less lhs rhs) c g
    = Ok (TypedInput (less_text fl fr) TYPE_BOOLEAN, g2)
  /\ descendInput (op_greater lhs rhs) c g
    = Ok (TypedInput (greater_text fl fr) TYPE_BOOLEAN, g2).
Proof.
  intros Hl Hr Al Ar.
  destruct Al as (Nl & Al' & Ol & Sl & Ml & Pl & Ul).
  destruct Ar as (Nr & Ar' & Or & Sr & Mr & Pr & Ur).
  unfold equals_text, less_text, greater_text.
  repeat split; cbn [descendInput]; answer Hl; answer Hr.
  - answer Nl.
    destruct (never_number fl).
    + cbn [orb]. answer (ret_eq true c g2).
      answer Sl. answer Sr. reflexivity.
    + answer Nr. cbn [orb].
      destruct (never_number fr).
      * answer Sl. answer Sr. reflexivity.
      * answer Al'. answer Ar'.
        destruct (always_number fl && always_number fr);
          [cbn [orb]; answer Ml; answer Mr; reflexivity|].
        destruct (always_number fl && is_ConstantInput l && safe_for_equals l);
          [cbn [orb]; answer Ml; answer Mr; reflexivity|].
        destruct (always_number fr && is_ConstantInput r && safe_for_equals r);
          cbn [orb].
        -- answer Ml. answer Mr. reflexivity.
        -- answer Ul. answer Ur. reflexivity.
  - destruct (never_number fl), (never_number fr), (always_number fl),
      (always_number fr), (always_number_or_nan fl),
      (always_number_or_nan fr);
      cbn [orb andb];
      repeat first [ answer Nl | answer Nr | answer Al' | answer Ar'
                   | answer Ol | answer Or | answer Sl | answer Sr
                   | answer Ml | answer Mr | answer Pl | answer Pr
                   | answer Ul | answer Ur
                   | answer (ret_eq true c g2) | answer (ret_eq false c g2) ];
      reflexivity.
  - destruct (never_number fl), (never_number fr), (always_number fl),
      (always_number fr), (always_number_or_nan fl),
      (always_number_or_nan fr);
      cbn [orb andb];
      repeat first [ answer Nl | answer Nr | answer Al' | answer Ar'
                   | answer Ol | answer Or | answer Sl | answer Sr
                   | answer Ml | answer Mr | answer Pl | answer Pr
                   | answer Ul | answer Ur
                   | answer (ret_eq true c g2) | answer (ret_eq false c g2) ];
      reflexivity.
Qed.

(** When one operand is never a number, the three comparisons are those
    of the lowercased strings. *)
Lemma never_number_texts c g l r fl fr :
  answers c g l fl -> answers c g r fr ->
  never_number fl || never_number fr = true ->
  equals_text l r fl fr = lowercase_compare (text_string fl) (text_string fr)
  /\ less_text fl fr = lowercase_less (text_string fl) (text_string fr)
  /\ greater_text fl fr = lowercase_greater (text_string fl) (text_string fr).
Proof.
  intros Al Ar N.
  destruct (answers_agree _ _ _ _ Al) as [Al1 Al2].
  destruct (answers_agree _ _ _ _ Ar) as [Ar1 Ar2].
  unfold equals_text, less_text, greater_text. rewrite N.
  destruct (never_number fl).
  - destruct (Al2 eq_refl) as [-> ->]. cbn [andb]. auto.
  - cbn [orb] in N. destruct (Ar2 N) as [-> ->].
    rewrite !andb_false_r. auto.
Qed.

(** When neither operand is never a number, none of the three is the
    comparison of the lowercased strings. *)
Lemma sometimes_number_texts l r fl fr :
  never_number fl || never_number fr = false ->
  (equals_text l r fl fr = numeric_compare (text_number fl) (text_number fr)
   \/ equals_text l r fl fr
      = fallback_compare (text_unknown fl) (text_unknown fr))
  /\ (less_text fl fr
      = "(" +:+ text_number_or_nan fl +:+ " < " +:+ text_number fr +:+ ")"
      \/ less_text fl fr
         = "!(" +:+ text_number fl +:+ " >= " +:+ text_number_or_nan fr +:+ ")"
      \/ less_text fl fr
         = "compareLessThan(" +:+ text_unknown fl +:+ ", " +:+ text_unknown fr
           +:+ ")")
  /\ (greater_text fl fr
      = "(" +:+ text_number fl +:+ " > " +:+ text_number_or_nan fr +:+ ")"
      \/ greater_text fl fr
         = "!(" +:+ text_number_or_nan fl +:+ " <= " +:+ text_number fr +:+ ")"
      \/ greater_text fl fr
         = "compareGreaterThan(" +:+ text_unknown fl +:+ ", "
           +:+ text_unknown fr +:+ ")").
Proof.
  intros N. unfold equals_text, less_text, greater_text. rewrite N.
  split; [|split];
    repeat match goal with
           | |- context [if ?b then _ else _] => destruct b
           end; auto.
Qed.

Lemma answers_of_TypedInput c g s t f :
  answers c g (TypedInput s t) f -> never_number f = false.
Proof. intros (H & _). injection H as H. symmetry. exact H. Qed.

Lemma isNeverNumber_of_a_constant_variable c g a o v safe :
  objects g !! a = Some o -> vi_value o = Some (ConstantInput v safe) ->
  isNeverNumber (VariableRef a) c g = Ok (Number_isNaN (ToNumber v), g).
Proof.
  intros Ho Hv. unfold isNeverNumber, analysis, isNeverNumber_in.
  cbn [analyse]. rewrite Ho, Hv.
  destruct (length (objects g)); reflexivity.
Qed.

Lemma answers_typed c g source type :
  answers c g (TypedInput source type) (answers_of_typed source type).
Proof. repeat split. Qed.

Lemma answers_constant c g v safe :
  answers c g (ConstantInput v safe) (answers_of_constant v).
Proof. repeat split. Qed.

(** C10: [isNeverNumber] is false on every [TypedInput], whatever its
    type, and on a constant it is true exactly when the coercion of the
    constant is NaN, also through a variable whose [_value] is the
    constant; an input that is never a number is a constant whose
    coercion is NaN, or a variable whose [_value] leads to one.  For any
    two operands, typed, constant or variable, [op.equals], [op.less] and
    [op.greater] produce the comparison of the lowercased strings exactly
    when one operand is never a number, which a typed operand is not; so
    with a typed operand it is the other operand that decides. *)
Theorem TypedInput_is_not_never_number :
  (forall source type, TypedInput_isNeverNumber source type = false)
  /\ (forall source type c g,
        isNeverNumber (TypedInput source type) c g = Ok (false, g))
  /\ (forall fuel objects i,
        isNeverNumber_in fuel objects i = Some true ->
        exists v, delegates objects i v /\ Number_isNaN (ToNumber v) = true)
  /\ (forall v safe c g,
        isNeverNumber (ConstantInput v safe) c g
        = Ok (Number_isNaN (ToNumber v), g))
  /\ (forall a o v safe c g,
        objects g !! a = Some o -> vi_value o = Some (ConstantInput v safe) ->
        isNeverNumber (VariableRef a) c g = Ok (Number_isNaN (ToNumber v), g))
  /\ (forall source type v safe c g,
        answers c g (TypedInput source type) (answers_of_typed source type)
        /\ answers c g (ConstantInput v safe) (answers_of_constant v))
  /\ (forall lhs rhs c g l g1 r g2 fl fr,
        descendInput lhs c g = Ok (l, g1) ->
        descendInput rhs c g1 = Ok (r, g2) ->
        answers c g2 l fl -> answers c g2 r fr ->
        (descendInput (op_equals lhs rhs) c g
           = Ok (TypedInput (equals_text l r fl fr) TYPE_BOOLEAN, g2)
         /\ descendInput (op_less lhs rhs) c g
           = Ok (TypedInput (less_text fl fr) TYPE_BOOLEAN, g2)
         /\ descendInput (op_greater lhs rhs) c g
           = Ok (TypedInput (greater_text fl fr) TYPE_BOOLEAN, g2))
        /\ (never_number fl || never_number fr = true ->
            equals_text l r fl fr
              = lowercase_compare (text_string fl) (text_string fr)
            /\ less_text fl fr
              = lowercase_less (text_string fl) (text_string fr)
            /\ greater_text fl fr
              = lowercase_greater (text_string fl) (text_string fr))
        /\ (never_number fl || never_number fr = false ->
            (equals_text l r fl fr
               = numeric_compare (text_number fl) (text_number fr)
             \/ equals_text l r fl fr
                = fallback_compare (text_unknown fl) (text_unknown fr))
            /\ (less_text fl fr
                = "(" +:+ text_number_or_nan fl +:+ " < " +:+ text_number fr
                  +:+ ")"
                \/ less_text fl fr
                   = "!(" +:+ text_number fl +:+ " >= "
                     +:+ text_number_or_nan fr +:+ ")"
                \/ less_text fl fr
                   = "compareLessThan(" +:+ text_unknown fl +:+ ", "
                     +:+ text_unknown fr +:+ ")")
            /\ (greater_text fl fr
                = "(" +:+ text_number fl +:+ " > " +:+ text_number_or_nan fr
                  +:+ ")"
                \/ greater_text fl fr
                   = "!(" +:+ text_number_or_nan fl +:+ " <= "
                     +:+ text_number fr +:+ ")"
                \/ greater_text fl fr
                   = "compareGreaterThan(" +:+ text_unknown fl +:+ ", "
                     +:+ text_unknown fr +:+ ")"))
        /\ (forall source type, l = TypedInput source type ->
            never_number fl = false)
        /\ (forall source type, r = TypedInput source type ->
            never_number fr = false))
  /\ (forall lhs rhs c g s1 t1 g1 s2 t2 g2,
        descendInput lhs c g = Ok (TypedInput s1 t1, g1) ->
        descendInput rhs c g1 = Ok (TypedInput s2 t2, g2) ->
        descendInput (op_equals lhs rhs) c g =
          Ok (TypedInput
                (if (t1 =? TYPE_NUMBER) && (t2 =? TYPE_NUMBER)
                 then numeric_compare (TypedInput_asNumber s1 t1)
                        (TypedInput_asNumber s2 t2)
                 else fallback_compare s1 s2)
                TYPE_BOOLEAN, g2)
        /\ descendInput (op_less lhs rhs) c g =
          Ok (TypedInput
                (if TypedInput_isAlwaysNumberOrNaN s1 t1 && (t2 =? TYPE_NUMBER)
                 then "(" +:+ TypedInput_asNumberOrNaN s1 t1 +:+ " < "
                      +:+ TypedInput_asNumber s2 t2 +:+ ")"
                 else if (t1 =? TYPE_NUMBER) && TypedInput_isAlwaysNumberOrNaN s2 t2
                 then "!(" +:+ TypedInput_asNumber s1 t1 +:+ " >= "
                      +:+ TypedInput_asNumberOrNaN s2 t2 +:+ ")"
                 else "compareLessThan(" +:+ s1 +:+ ", " +:+ s2 +:+ ")")
                TYPE_BOOLEAN, g2)
        /\ descendInput (op_greater lhs rhs) c g =
          Ok (TypedInput
                (if (t1 =? TYPE_NUMBER) && TypedInput_isAlwaysNumberOrNaN s2 t2
                 then "(" +:+ TypedInput_asNumber s1 t1 +:+ " > "
                      +:+ TypedInput_asNumberOrNaN s2 t2 +:+ ")"
                 else if TypedInput_isAlwaysNumberOrNaN s1 t1 && (t2 =? TYPE_NUMBER)
                 then "!(" +:+ TypedInput_asNumberOrNaN s1 t1 +:+ " <= "
                      +:+ TypedInput_asNumber s2 t2 +:+ ")"
                 else "compareGreaterThan(" +:+ s1 +:+ ", " +:+ s2 +:+ ")")
                TYPE_BOOLEAN, g2)).
Proof.
  split; [reflexivity|]. split; [reflexivity|].
  split; [exact isNeverNumber_in_true|].
  split; [reflexivity|].
  split; [intros a o v safe c g; apply isNeverNumber_of_a_constant_variable|].
  split; [intros; split; [apply answers_typed|apply answers_constant]|].
  split.
  { intros lhs rhs c g l g1 r g2 fl fr Hl Hr Al Ar.
    split; [exact (comparisons lhs rhs c g l g1 r g2 fl fr Hl Hr Al Ar)|].
    split; [exact (never_number_texts c g2 l r fl fr Al Ar)|].
    split; [exact (sometimes_number_texts l r fl fr)|].
    split; intros source type ->;
      eapply answers_of_TypedInput; eassumption. }
  intros lhs rhs c g s1 t1 g1 s2 t2 g2 Hl Hr.
  repeat split; cbn [descendInput];
    rewrite (bind_eq _ _ _ _ _ _ Hl), (bind_eq _ _ _ _ _ _ Hr);
    unfold bind, ret, typed, isNeverNumber, isAlwaysNumber,
      isAlwaysNumberOrNaN, analysis, asString, asNumber, asNumberOrNaN,
      asUnknown;
    cbn [isNeverNumber_in isAlwaysNumber_in isAlwaysNumberOrNaN_in analyse
         is_ConstantInput safe_for_equals TypedInput_isNeverNumber];
    unfold TypedInput_isAlwaysNumberOrNaN, TypedInput_isAlwaysNumber,
      TypedInput_asUnknown;
    destruct (t1 =? TYPE_NUMBER), (t2 =? TYPE_NUMBER),
      (t1 =? TYPE_NUMBER_NAN), (t2 =? TYPE_NUMBER_NAN); reflexivity.
Qed.

Lemma TypedInput_is_not_never_number_witness :
  let c := mkSettings (mkScript None false false false false [] None "")
             ∅ false ∅ in
  let g := new_JSGenerator (script c) in
  descendInput (op_equals sensing_answer (constant (VString "abc"))) c g
    = Ok (TypedInput
            ("(runtime.ext_scratch3_sensing._answer.toLowerCase() === "
             +:+ dq +:+ "abc" +:+ dq +:+ ".toLowerCase())")
            TYPE_BOOLEAN, g)
  /\ descendInput (op_equals sensing_answer (constant (VString "10"))) c g
    = Ok (TypedInput "((+runtime.ext_scratch3_sensing._answer || 0) === 10)"
            TYPE_BOOLEAN, g)
  /\ descendInput (op_less sensing_answer (constant (VString "10"))) c g
    = Ok (TypedInput
            "compareLessThan(runtime.ext_scratch3_sensing._answer, 10)"
            TYPE_BOOLEAN, g).
Proof.
  intros c g.
  destruct TypedInput_is_not_never_number as (_ & _ & _ & _ & _ & A & H & _).
  pose (l := TypedInput "runtime.ext_scratch3_sensing._answer" TYPE_STRING).
  destruct (A "runtime.ext_scratch3_sensing._answer" TYPE_STRING
              (VString "abc") true c g) as [Al Ar].
  destruct (A "runtime.ext_scratch3_sensing._answer" TYPE_STRING
              (VString "10") true c g) as [_ Ar'].
  destruct (H sensing_answer (constant (VString "abc")) c g
              l g (ConstantInput (VString "abc") true) g _ _
              eq_refl eq_refl Al Ar) as ((He & _) & _).
  destruct (H sensing_answer (constant (VString "10")) c g
              l g (ConstantInput (VString "10") true) g _ _
              eq_refl eq_refl Al Ar') as ((He' & Hl' & _) & _).
  split; [exact He|]. split; [exact He'|exact Hl'].
Defined.

(** ** The frame stack *)

Lemma scan_frames_true (l : list Frame) :
  scan_frames l = true <->
  exists inner loop outer,
    l = (inner ++ loop :: outer)%list
    /\ Forall (fun f => isLastBlock f = true /\ isLoop f = false) inner
    /\ isLastBlock loop = true /\ isLoop loop = true.
Proof.
  induction l as [|f l IH]; cbn.
  - split; [discriminate|].
    intros (inner & loop & outer & H & _). destruct inner; discriminate.
  - destruct (isLastBlock f) eqn:Hlast; cbn.
    + destruct (isLoop f) eqn:Hloop.
      * split; [|reflexivity]. intros _.
        exists [], f, l. repeat split; [constructor|assumption|assumption].
      * rewrite IH. split.
        -- intros (inner & loop & outer & -> & Hin & Hl1 & Hl2).
           exists (f :: inner), loop, outer.
           repeat split; [constructor; [split|]|..]; assumption.
        -- intros (inner & loop & outer & H & Hin & Hl1 & Hl2).
           destruct inner as [|f' inner]; cbn in H; injection H as -> ->.
           ++ congruence.
           ++ inversion Hin; subst. exists inner, loop, outer.
              repeat split; assumption.
    + split; [discriminate|].
      intros (inner & loop & outer & H & Hin & Hl1 & Hl2).
      destruct inner as [|f' inner]; cbn in H; injection H as -> ->.
      * congruence.
      * inversion Hin as [|? ? [Hf _] ?]; subst. congruence.
Qed.

(** C2, as the code has it: scanning from the most recent frame outwards,
    [isLastBlockInLoop] answers false at the first frame whose
    [isLastBlock] is false and true at the first loop frame met before
    one.  So it is true exactly when the frames split into outer frames, a
    loop frame whose current block is its last, and more recent frames that
    are not loops and whose current block is their last: the position is
    the end of the body of the innermost enclosing loop. *)
Theorem isLastBlockInLoop_spec (g : JSGenerator) :
  isLastBlockInLoop g = true <->
  exists outer loop inner,
    frames g = (outer ++ loop :: inner)%list
    /\ isLoop loop = true /\ isLastBlock loop = true
    /\ Forall (fun f => isLastBlock f = true /\ isLoop f = false) inner.
Proof.
  unfold isLastBlockInLoop. rewrite scan_frames_true. split.
  - intros (inner & loop & outer & H & Hin & Hl1 & Hl2).
    exists (rev outer), loop, (rev inner). repeat split; try assumption.
    + rewrite <- (rev_involutive (frames g)), H, rev_app_distr. cbn.
      rewrite <- app_assoc. reflexivity.
    + apply Forall_rev. exact Hin.
  - intros (outer & loop & inner & H & Hl2 & Hl1 & Hin).
    exists (rev inner), loop, (rev outer). repeat split; try assumption.
    + rewrite H, rev_app_distr. cbn. rewrite <- app_assoc. reflexivity.
    + apply Forall_rev. exact Hin.
Qed.

(** C2 fails as stated, in both directions: inside a loop frame whose
    current block is not its last the answer is false, and inside one
    whose current block is its last, with no unfinished frame at all, the
    answer is true. *)
Lemma isLastBlockInLoop_is_not_first_unfinished :
  isLastBlockInLoop (with_frames [mkFrame true false]) = false
  /\ first_unfinished_is_loop (rev [mkFrame true false]) = true
  /\ isLastBlockInLoop (with_frames [mkFrame true true]) = true
  /\ first_unfinished_is_loop (rev [mkFrame true true]) = false.
Proof. repeat split. Qed.

(** ** Variables are never set to variables *)

Lemma setInput_keeps_length self input objects :
  length (VariableInput_setInput self input objects) = length objects.
Proof.
  unfold VariableInput_setInput.
  destruct (objects !! self) as [this|]; [|reflexivity].
  destruct input as [s t|v safe|a|]; rewrite ?length_insert; try reflexivity.
  destruct (objects !! a) as [o|]; [|reflexivity].
  destruct (vi_value o) as [[s t|v safe|b|]|]; rewrite ?length_insert;
    reflexivity.
Qed.

Lemma insert_keeps_values objects self o' :
  values_are_not_variables objects ->
  (forall i, vi_value o' = Some i -> is_variable i = false) ->
  values_are_not_variables (<[self := o']> objects).
Proof.
  intros Hinv Ho' a o i Ha Hv.
  destruct (decide (self = a)) as [->|Hne].
  - destruct (decide (a < length objects)%nat) as [Hlt|Hge].
    + rewrite list_lookup_insert_eq in Ha by exact Hlt.
      injection Ha as <-. eauto.
    + rewrite list_insert_ge in Ha by lia. eauto.
  - rewrite list_lookup_insert_ne in Ha by exact Hne. eauto.
Qed.

Lemma setInput_keeps_values self input objects :
  values_are_not_variables objects ->
  values_are_not_variables (VariableInput_setInput self input objects).
Proof.
  intros Hinv. unfold VariableInput_setInput.
  destruct (objects !! self) as [this|]; [|exact Hinv].
  destruct input as [s t|v safe|a|].
  - apply insert_keeps_values; [exact Hinv|]. cbn. intros i [= <-]. reflexivity.
  - apply insert_keeps_values; [exact Hinv|]. cbn. intros i [= <-]. reflexivity.
  - destruct (objects !! a) as [o|] eqn:Ha; [|exact Hinv].
    destruct (vi_value o) as [i0|] eqn:Hv.
    + pose proof (Hinv a o i0 Ha Hv) as Hi0.
      destruct i0 as [s t|v safe|b|]; try discriminate;
        (apply insert_keeps_values; [exact Hinv|]); cbn.
      * intros i [= <-]. reflexivity.
      * intros i [= <-]. reflexivity.
      * intros i [=].
    + apply insert_keeps_values; [exact Hinv|]. cbn. intros i [=].
  - apply insert_keeps_values; [exact Hinv|]. cbn. intros i [= <-]. reflexivity.
Qed.

Lemma store_step_keeps_values objects e :
  values_are_not_variables objects ->
  values_are_not_variables (store_step objects e).
Proof.
  intros Hinv. destruct e as [source|self input]; cbn.
  - intros a o i Ha Hv.
    apply lookup_app_Some in Ha as [Ha|[_ Ha]]; [eauto|].
    apply list_lookup_singleton_Some in Ha as [_ <-]. discriminate.
  - apply setInput_keeps_values. exact Hinv.
Qed.

Lemma store_after_values events :
  values_are_not_variables (store_after events).
Proof.
  unfold store_after.
  assert (H : values_are_not_variables []) by (intros a o i Ha; discriminate).
  revert H. generalize (@nil VariableInput).
  induction events as [|e events IH]; intros objects H; cbn; [exact H|].
  apply IH, store_step_keeps_values, H.
Qed.

(** With no variable among the [_value]s, an analysis of an object of the
    store returns after at most one further call. *)
Lemma analyse_returns typed const objects a fuel :
  values_are_not_variables objects ->
  (a < length objects)%nat ->
  (2 <= fuel)%nat ->
  exists b, analyse fuel typed const objects (VariableRef a) = Some b.
Proof.
  intros Hinv Ha Hfuel.
  destruct fuel as [|[|fuel]]; [lia|lia|].
  destruct (lookup_lt_is_Some_2 objects a Ha) as [o Ho].
  cbn. rewrite Ho.
  destruct (vi_value o) as [i|] eqn:Hv; [|eauto].
  pose proof (Hinv a o i Ho Hv) as Hi.
  destruct i as [s t|v safe|b|]; try discriminate; eauto.
Qed.

(** C6: after any sequence of [setInput] calls on any objects, no [_value]
    is a [VariableInput]; so the three analyses of an object return, after
    at most one further call, and never exhaust the generator's bound; and
    [A.setInput(A)] leaves [A] with the value it had, or cleared when it
    had none. *)
Theorem setInput_never_stores_a_variable (events : list StoreEvent) :
  values_are_not_variables (store_after events)
  /\ (forall a fuel,
        (a < length (store_after events))%nat -> (2 <= fuel)%nat ->
        (exists b, isAlwaysNumber_in fuel (store_after events) (VariableRef a) = Some b)
        /\ (exists b, isAlwaysNumberOrNaN_in fuel (store_after events) (VariableRef a) = Some b)
        /\ (exists b, isNeverNumber_in fuel (store_after events) (VariableRef a) = Some b))
  /\ (forall a c g,
        objects g = store_after events ->
        (a < length (store_after events))%nat ->
        (exists b, isAlwaysNumber (VariableRef a) c g = Ok (b, g))
        /\ (exists b, isAlwaysNumberOrNaN (VariableRef a) c g = Ok (b, g))
        /\ (exists b, isNeverNumber (VariableRef a) c g = Ok (b, g)))
  /\ (forall a o,
        store_after events !! a = Some o ->
        exists o',
          VariableInput_setInput a (VariableRef a) (store_after events) !! a
            = Some o'
          /\ vi_value o' = match vi_value o with
                           | Some undefined | None => None
                           | Some v => Some v
                           end
          /\ (forall i, vi_value o' = Some i -> is_variable i = false)).
Proof.
  pose proof (store_after_values events) as Hinv.
  split; [exact Hinv|]. split; [|split].
  - intros a fuel Ha Hfuel. repeat split;
      apply analyse_returns; assumption.
  - intros a c g Hg Ha.
    assert (Hfuel : (2 <= S (length (objects g)))%nat) by (rewrite Hg; lia).
    unfold isAlwaysNumber, isAlwaysNumberOrNaN, isNeverNumber, analysis.
    rewrite Hg in *.
    repeat split.
    + destruct (analyse_returns TypedInput_isAlwaysNumber
                  ConstantInput_isAlwaysNumber _ a _ Hinv Ha Hfuel) as [b Hb].
      exists b. unfold isAlwaysNumber_in. rewrite Hb. reflexivity.
    + destruct (analyse_returns TypedInput_isAlwaysNumberOrNaN
                  ConstantInput_isAlwaysNumberOrNaN _ a _ Hinv Ha Hfuel) as [b Hb].
      exists b. unfold isAlwaysNumberOrNaN_in. rewrite Hb. reflexivity.
    + destruct (analyse_returns TypedInput_isNeverNumber
                  ConstantInput_isNeverNumber _ a _ Hinv Ha Hfuel) as [b Hb].
      exists b. unfold isNeverNumber_in. rewrite Hb. reflexivity.
  - intros a o Ho.
    pose proof (lookup_lt_Some _ _ _ Ho) as Hlt.
    unfold VariableInput_setInput. rewrite Ho.
    destruct (vi_value o) as [i|] eqn:Hv.
    + pose proof (Hinv a o i Ho Hv) as Hi.
      destruct i as [s t|v safe|b|]; try discriminate;
        rewrite list_lookup_insert_eq by exact Hlt;
        eexists; (split; [reflexivity|]); cbn; (split; [reflexivity|]).
      * intros i [= <-]. reflexivity.
      * intros i [= <-]. reflexivity.
      * intros i [=].
    + rewrite list_lookup_insert_eq by exact Hlt.
      eexists; (split; [reflexivity|]); cbn; (split; [reflexivity|]).
      intros i [=].
Qed.

Lemma setInput_never_stores_a_variable_witness :
  let events :=
    [Create "b0.value"; SetInput 0 (ConstantInput (VString "5") true);
     SetInput 0 (VariableRef 0)] in
  (0 < length (store_after events))%nat
  /\ (2 <= 2)%nat
  /\ exists b, isNeverNumber_in 2 (store_after events) (VariableRef 0) = Some b.
Proof.
  intros events.
  assert (H0 : (0 < length (store_after events))%nat) by (cbn; lia).
  assert (H2 : (2 <= 2)%nat) by lia.
  split; [exact H0|]. split; [exact H2|].
  destruct (setInput_never_stores_a_variable events) as (_ & H & _).
  destruct (H 0%nat 2%nat H0 H2) as (_ & _ & Hn).
  exact Hn.
Defined.

Example self_assignment_keeps_the_constant :
  store_after
    [Create "b0.value"; SetInput 0 (ConstantInput (VString "5") true);
     SetInput 0 (VariableRef 0)]
  = [mkVariableInput "b0.value" TYPE_UNKNOWN
       (Some (ConstantInput (VString "5") true))]
  /\ store_after [Create "b0.value"; SetInput 0 (VariableRef 0)]
     = [mkVariableInput "b0.value" TYPE_UNKNOWN None].
Proof. split; reflexivity. Qed.

(** ** Waiting *)

Lemma append_assoc (a b c : string) : (a +:+ b) +:+ c = a +:+ (b +:+ c).
Proof.
  induction a as [|x a IH]; [reflexivity|].
  change (String x ((a +:+ b) +:+ c) = String x (a +:+ (b +:+ c))).
  rewrite IH. reflexivity.
Qed.

Lemma yielded_Ok c g :
  yields (script c) = true ->
  yielded c g = Ok (tt, set_variableInputs ∅ g).
Proof. unfold yielded, bind, ask. intros ->. reflexivity. Qed.


Lemma emit_eq (s : string) c g :
  emit s c g = Ok (tt, set_source (source g +:+ s) g).
Proof. reflexivity. Qed.

Lemma yieldNotWarp_Ok c g :
  yields (script c) = true ->
  yieldNotWarp c g =
    Ok (tt, if isWarp g then g
            else set_variableInputs ∅ (set_source (source g +:+ "yield;" +:+ nl) g)).
Proof.
  intros Hy. unfold yieldNotWarp, bind, get.
  destruct (isWarp g); cbn [negb]; [reflexivity|].
  rewrite emit_eq, (yielded_Ok _ _ Hy). reflexivity.
Qed.

Lemma yieldStuckOrNotWarp_Ok c g :
  yields (script c) = true ->
  yieldStuckOrNotWarp c g =
    Ok (tt, set_variableInputs ∅
              (set_source
                 (source g +:+ (if isWarp g then "if (isStuck()) yield;" +:+ nl
                                else "yield;" +:+ nl)) g)).
Proof.
  intros Hy. unfold yieldStuckOrNotWarp, bind, get.
  destruct (isWarp g); rewrite emit_eq, (yielded_Ok _ _ Hy); reflexivity.
Qed.

(** C8, as the code has it: in a script that declares [yields],
    [control.wait] records the timer, declares the duration, requests a
    redraw, then, outside warp mode only, yields once before the loop
    whatever the duration; the loop yields when stuck in warp mode and
    always otherwise, and the timer is set to null after it.  In warp
    mode nothing is yielded before the loop. *)
Theorem control_wait_text (c : Settings) (g g1 : JSGenerator)
    (seconds : expr) (i : Input) (s : string) :
  let duration := fst (VariablePool_next (localVariables g)) in
  let g0 :=
    set_source (source g +:+ "thread.timer = timer();" +:+ nl)
      (set_localVariables (snd (VariablePool_next (localVariables g))) g) in
  yields (script c) = true ->
  descendInput seconds c g0 = Ok (i, g1) ->
  asNumber i c g1 = Ok (s, g1) ->
  exists g',
    descendStackedBlock (control_wait seconds) c g = Ok (tt, g')
    /\ source g' = source g +:+ wait_text (isWarp g1) duration s
    /\ variableInputs g' = ∅.
Proof.
  intros duration g0 Hy Hd Hs.
  cbn [descendStackedBlock].
  unfold bind at 1. unfold next_local.
  destruct (VariablePool_next (localVariables g)) as [d pool] eqn:Hp.
  cbn [fst snd] in *. subst duration.
  rewrite (bind_eq _ _ _ _ _ _ (emit_eq _ _ _)). fold g0.
  unfold bind at 1. unfold append_source at 1.
  rewrite (bind_eq _ _ _ _ _ _ Hd), (bind_eq _ _ _ _ _ _ Hs).
  unfold ret at 1.
  unfold requestRedraw.
  rewrite (bind_eq _ _ _ _ _ _ (emit_eq _ _ _)).
  rewrite (bind_eq _ _ _ _ _ _ (yieldNotWarp_Ok _ _ Hy)).
  rewrite (bind_eq _ _ _ _ _ _ (emit_eq _ _ _)).
  rewrite (bind_eq _ _ _ _ _ _ (yieldStuckOrNotWarp_Ok _ _ Hy)).
  rewrite (bind_eq _ _ _ _ _ _ (emit_eq _ _ _)).
  rewrite emit_eq.
  eexists. split; [reflexivity|].
  cbn [isWarp source variableInputs set_source set_variableInputs].
  split; [|reflexivity].
  unfold wait_text, g0.
  destruct (isWarp g1) eqn:Hw;
    repeat (cbn [isWarp source variableInputs set_source set_variableInputs
                 set_localVariables];
            rewrite ?Hw);
    rewrite !append_assoc; reflexivity.
Qed.

Lemma control_wait_text_witness :
  let c := mkSettings (mkScript None false false true false [] None "")
             ∅ false ∅ in
  exists g',
    descendStackedBlock (control_wait (constant (VString "0"))) c
      (new_JSGenerator (script c)) = Ok (tt, g')
    /\ source g' =
         "thread.timer = timer();" +:+ nl
         +:+ "var a0 = Math.max(0, 1000 * 0);" +:+ nl
         +:+ "runtime.requestRedraw();" +:+ nl
         +:+ "yield;" +:+ nl
         +:+ "while (thread.timer.timeElapsed() < a0) {" +:+ nl
         +:+ "yield;" +:+ nl
         +:+ "}" +:+ nl
         +:+ "thread.timer = null;" +:+ nl
    /\ variableInputs g' = ∅.
Proof.
  intros c.
  exact (control_wait_text c (new_JSGenerator (script c)) _
           (constant (VString "0")) _ _ eq_refl eq_refl eq_refl).
Defined.

(** C8 fails as stated: in warp mode nothing is yielded between the
    request for a redraw and the loop, also for the constant [0]. *)
Lemma control_wait_in_warp_mode_does_not_yield_first :
  let c := mkSettings (mkScript None true false true false [] None "")
             ∅ false ∅ in
  exists g',
    descendStackedBlock (control_wait (constant (VString "0"))) c
      (new_JSGenerator (script c)) = Ok (tt, g')
    /\ source g' =
         "thread.timer = timer();" +:+ nl
         +:+ "var a0 = Math.max(0, 1000 * 0);" +:+ nl
         +:+ "runtime.requestRedraw();" +:+ nl
         +:+ "while (thread.timer.timeElapsed() < a0) {" +:+ nl
         +:+ "if (isStuck()) yield;" +:+ nl
         +:+ "}" +:+ nl
         +:+ "thread.timer = null;" +:+ nl.
Proof. intros c. eexists. split; vm_compute; reflexivity. Qed.

(** ** Yields and the script header *)

(** The methods that write a checked yield throw when the header does
    not declare [yields]. *)
Lemma throws_bind_l {A B} (m : M A) (k : A -> M B) c g :
  throws m c g -> throws (bind m k) c g.
Proof. intros [e He]. exists e. apply bind_Throw, He. Qed.


Lemma throws_append_source (e : M string) c g :
  throws e c g -> throws (append_source e) c g.
Proof. intros [x Hx]. exists x. unfold append_source. rewrite Hx. reflexivity. Qed.






(** ** Resets of the variable tracker *)

Lemma resetVariableInputs_Ok c g u g' :
  resetVariableInputs c g = Ok (u, g') -> variableInputs g' = ∅.
Proof. unfold resetVariableInputs, modify. intros [= _ <-]. reflexivity. Qed.

Lemma yielded_resets c g u g' :
  yielded c g = Ok (u, g') -> variableInputs g' = ∅.
Proof.
  unfold yielded. intros H. split_bind H.
  destruct (negb a); [discriminate|].
  eapply resetVariableInputs_Ok, H.
Qed.

Lemma next_local_keeps_tracker c g v g' :
  next_local c g = Ok (v, g') -> variableInputs g' = variableInputs g.
Proof.
  unfold next_local. destruct (VariablePool_next (localVariables g)).
  intros [= _ <-]. reflexivity.
Qed.

(** Forgets the first call of a sequence that returned. *)
Ltac skip_call H :=
  apply bind_Ok in H as (? & ? & _ & H); cbv beta in H.

(** C5, as the code has it: the tracker has no entries right after
    entering a stack and right after leaving one, after the lowering of a
    call of a procedure that has a body, after the lowering of a
    broadcast, of a broadcast-and-wait or of a broadcast function, and
    after a yield written through [yielded], [yieldStuckOrNotWarp] or,
    outside warp mode, [yieldNotWarp]. *)
Theorem tracker_is_empty_after (c : Settings) (g g' : JSGenerator) :
  (forall frame idx,
     enterStack frame c g = Ok (idx, g') -> variableInputs g' = ∅)
  /\ (forall u, leaveStack c g = Ok (u, g') -> variableInputs g' = ∅)
  /\ (forall nodes frame u,
        descendStack nodes frame c g = Ok (u, g') -> variableInputs g' = ∅)
  /\ (forall type code variant arguments d body u,
        procedures c !! variant = Some d -> proc_stack d = Some body ->
        descendStackedBlock (procedures_call type code variant arguments) c g
          = Ok (u, g') ->
        variableInputs g' = ∅)
  /\ (forall type code variant arguments d body i,
        procedures c !! variant = Some d -> proc_stack d = Some body ->
        descendInput (procedures_call_input type code variant arguments) c g
          = Ok (i, g') ->
        variableInputs g' = ∅)
  /\ (forall broadcast u,
        descendStackedBlock (event_broadcast broadcast) c g = Ok (u, g') ->
        variableInputs g' = ∅)
  /\ (forall broadcast u,
        descendStackedBlock (event_broadcastAndWait broadcast) c g = Ok (u, g') ->
        variableInputs g' = ∅)
  /\ (forall broadcast i,
        descendInput (pmEventsExpansion_broadcastFunction broadcast) c g
          = Ok (i, g') ->
        variableInputs g' = ∅)
  /\ (forall u, yielded c g = Ok (u, g') -> variableInputs g' = ∅)
  /\ (forall u, yieldStuckOrNotWarp c g = Ok (u, g') -> variableInputs g' = ∅)
  /\ (forall u,
        isWarp g = false -> yieldNotWarp c g = Ok (u, g') ->
        variableInputs g' = ∅).
Proof.
  split.
  { intros frame idx H. unfold enterStack, bind, resetVariableInputs, get,
      pushFrame, modify, ret in H. injection H as _ <-. reflexivity. }
  assert (Hleave : forall g0 u, leaveStack c g0 = Ok (u, g') ->
                                variableInputs g' = ∅).
  { intros g0 u H. unfold leaveStack, bind, resetVariableInputs, popFrame,
      modify in H. injection H as _ <-. reflexivity. }
  split; [apply Hleave|].
  split.
  { intros nodes frame u H. unfold descendStack, descendStack_with in H.
    do 2 skip_call H. eapply Hleave, H. }
  split.
  { intros type code variant arguments d body u Hd Hb H.
    cbn [descendStackedBlock] in H. unfold bind at 1, ask in H.
    cbv beta iota in H. rewrite Hd, Hb in H.
    do 8 skip_call H. eapply resetVariableInputs_Ok, H. }
  split.
  { intros type code variant arguments d body i Hd Hb H.
    cbn [descendInput] in H. unfold bind at 1, ask in H.
    cbv beta iota in H. rewrite Hd, Hb in H.
    do 5 skip_call H.
    apply bind_Ok in H as (v & g1 & E & H). cbv beta in H.
    apply resetVariableInputs_Ok in E.
    destruct (procedure_blockType type); [|discriminate].
    injection H as _ <-. exact E. }
  split.
  { intros broadcast u H. cbn [descendStackedBlock] in H.
    skip_call H. eapply resetVariableInputs_Ok, H. }
  split.
  { intros broadcast u H. cbn [descendStackedBlock] in H.
    skip_call H. eapply yielded_resets, H. }
  split.
  { intros broadcast i H. cbn [descendInput] in H.
    do 4 skip_call H.
    apply bind_Ok in H as (v1 & g1 & E1 & H). cbv beta in H.
    apply bind_Ok in H as (v2 & g2 & E2 & H). cbv beta in H.
    apply bind_Ok in H as (v3 & g3 & E3 & H). cbv beta in H.
    apply resetVariableInputs_Ok in E1.
    apply next_local_keeps_tracker in E2, E3.
    injection H as _ <-. congruence. }
  split; [intros u; apply yielded_resets|].
  split.
  { intros u H. unfold yieldStuckOrNotWarp in H. do 2 skip_call H.
    eapply yielded_resets, H. }
  intros u Hw H. unfold yieldNotWarp, bind at 1, get in H.
  cbv beta iota in H. rewrite Hw in H. cbn [negb] in H.
  skip_call H. eapply yielded_resets, H.
Qed.

Lemma tracker_is_empty_after_witness :
  let c := mkSettings (mkScript None false false true false [] None "")
             ∅ false ∅ in
  let x := mkVariable "idx" "target" "x" false in
  let program :=
    descendStack [var_set x (constant (VString "1")); control_wait (var_get x)]
      (new_Frame false) in
  exists g',
    program c (new_JSGenerator (script c)) = Ok (tt, g')
    /\ variableInputs g' = ∅.
Proof.
  intros c x program. unfold program.
  destruct (descendStack
              [var_set x (constant (VString "1")); control_wait (var_get x)]
              (new_Frame false) c (new_JSGenerator (script c)))
    as [[[] g']|e] eqn:H;
    [|vm_compute in H; discriminate].
  exists g'. split; [reflexivity|].
  destruct (tracker_is_empty_after c (new_JSGenerator (script c)) g')
    as (_ & _ & Hs & _).
  exact (Hs _ _ _ H).
Defined.

(** C5 fails as stated: after a variable was set, the tracker still holds
    it after the lowering of a call of a procedure without a body, after
    the [yield] that [retire] writes in a procedure, and after the
    [yield*] of a compatibility-layer call. *)
Lemma tracker_survives_some_calls_and_yields :
  let c :=
    mkSettings (mkScript None false true true false [] (Some "p") "top")
      {[ "q" := mkProcedureData None false [] ]} false ∅ in
  let g := new_JSGenerator (script c) in
  let x := mkVariable "idx" "target" "x" false in
  let set_x := descendStackedBlock (var_set x (constant (VString "1"))) in
  (exists g',
     (set_x ;; descendStackedBlock (procedures_call None "q" "q" [])) c g
       = Ok (tt, g')
     /\ variableInputs g' !! "idx" = Some 0%nat)
  /\ (exists g',
        (set_x ;; descendStackedBlock control_stopAll) c g = Ok (tt, g')
        /\ source g' = "b0.value = 1;" +:+ nl +:+ "runtime.stopAll();" +:+ nl
                       +:+ "retire(); yield;" +:+ nl
        /\ variableInputs g' !! "idx" = Some 0%nat)
  /\ (exists g',
        (set_x ;; descendStackedBlock
                    (compat_stacked (compat_node "looks_say" [] [] "undefined")))
          c g = Ok (tt, g')
        /\ source g' = "b0.value = 1;" +:+ nl
                       +:+ "yield* executeInCompatibilityLayer({" +:+ dq
                       +:+ "mutation" +:+ dq
                       +:+ ":undefined,}, b1, false, false, null);" +:+ nl
        /\ variableInputs g' !! "idx" = Some 0%nat).
Proof.
  intros c g x set_x.
  repeat split; eexists; repeat split; vm_compute; reflexivity.
Qed.

(** ** Interpolation of the scale *)

Section InterpolateProperties.

Variable Math_sin Math_cos : Number -> Number.
Variable Math_atan2 : Number -> Number -> Number.
Variable Math_PI : Number.

Lemma interpolateTarget_scale target d id dir sc :
  In (updateDrawableDirectionScale id dir sc)
     (interpolateTarget Math_sin Math_cos Math_atan2 Math_PI target d) ->
  id = drawableID target
  /\ costume_unchanged target d = true
  /\ (sc = rendered_scale target
      \/ (signs_match target d = true /\ small_change target d = true
          /\ sc = scale_midpoint target d)).
Proof.
  intros H. unfold interpolateTarget in H.
  apply in_app_or in H as [H|H].
  { destruct (_ || _); [|destruct H].
    destruct (_ && _); [|destruct H].
    destruct H as [H|[]]. discriminate. }
  apply in_app_or in H as [H|H].
  { destruct (_ && _); [|destruct H].
    destruct H as [H|[]]. discriminate. }
  unfold costume_unchanged, signs_match, small_change, scale_midpoint.
  destruct (Number_strict_equal (i_costume d) (currentCostume target));
    cbn [negb] in H; [|destruct H].
  destruct (negb (Number_strict_equal (rendered_direction target) (i_direction d)));
    destruct (negb (Number_strict_equal (fst (rendered_scale target)) (fst (i_scale d)))
              || negb (Number_strict_equal (snd (rendered_scale target)) (snd (i_scale d))));
    destruct (Number_strict_equal (Math_sign (fst (rendered_scale target)))
                (Math_sign (fst (i_scale d)))
              && Number_strict_equal (Math_sign (snd (rendered_scale target)))
                   (Math_sign (snd (i_scale d))));
    destruct (Number_lt
                (Math_abs (Number_sub (fst (rendered_scale target)) (fst (i_scale d))))
                n_100);
    cbv beta iota zeta delta [In] in H;
    first [ contradiction
          | destruct H as [H|[]]; injection H as <- _ <-;
            repeat split; auto ].
Qed.

(** C9: a call that sets a drawable's direction and scale in
    [interpolateTargets] comes from a target whose costume is unchanged;
    the scale it passes is the target's own scale unless the signs of
    both axes match and the first axis changed by less than 100, in
    which case it is the midpoint of each axis; so when the sign of
    either axis differs the scale passed is never interpolated. *)
Theorem interpolateTargets_scale (renderer : bool) (targets : list Target)
    (id : Z) (dir : Number) (sc : Number * Number) :
  In (updateDrawableDirectionScale id dir sc)
     (interpolateTargets Math_sin Math_cos Math_atan2 Math_PI renderer targets) ->
  exists target d,
    In target targets
    /\ interpolationData target = Some d
    /\ id = drawableID target
    /\ costume_unchanged target d = true
    /\ (sc = rendered_scale target
        \/ (signs_match target d = true /\ small_change target d = true
            /\ sc = scale_midpoint target d))
    /\ (signs_match target d = false -> sc = rendered_scale target).
Proof.
  unfold interpolateTargets. destruct renderer; cbn [negb]; [|intros []].
  intros H. apply in_flat_map in H as (target & Hin & H).
  destruct (interpolationData target) as [d|] eqn:Hd; [|destruct H].
  apply interpolateTarget_scale in H as (Hid & Hc & Hs).
  exists target, d. repeat split; try assumption.
  intros Hm. destruct Hs as [Hs|(Hs & _)]; [exact Hs|congruence].
Qed.

End InterpolateProperties.

Lemma interpolateTargets_scale_witness :
  let same := fun x : Number => x in
  let n := Number_of_Z in
  let target :=
    mkTarget 7 true false (n 0) (n 0) (n 1) (n 0) (n 90) (n 100, n 100)
      (n 20) (n 20)
      (Some (mkInterpolationData (n 0) (n 0) (n 90) (n 50, n 50) (n 1) (n 0))) in
  let call := updateDrawableDirectionScale 7 (n 90) (n 75, n 75) in
  In call (interpolateTargets same same (fun x _ => x) (n 3) true [target])
  /\ exists t d,
       In t [target]
       /\ interpolationData t = Some d
       /\ 7 = drawableID t
       /\ costume_unchanged t d = true
       /\ ((n 75, n 75) = rendered_scale t
           \/ (signs_match t d = true /\ small_change t d = true
               /\ (n 75, n 75) = scale_midpoint t d))
       /\ (signs_match t d = false -> (n 75, n 75) = rendered_scale t).
Proof.
  intros same n target call.
  assert (H : In call (interpolateTargets same same (fun x _ => x) (n 3) true
                         [target]))
    by (vm_compute; left; reflexivity).
  split; [exact H|].
  exact (interpolateTargets_scale same same (fun x _ => x) (n 3) true [target]
           7 (n 90) (n 75, n 75) H).
Defined.

Example scale_is_not_interpolated_across_a_sign_change :
  let same := fun x : Number => x in
  let n := Number_of_Z in
  let target :=
    mkTarget 7 true false (n 0) (n 0) (n 1) (n 0) (n 90) (n 100, n 100)
      (n 20) (n 20)
      (Some (mkInterpolationData (n 0) (n 0) (n 45) (n (-100), n 100) (n 1) (n 0))) in
  map (fun call =>
         match call with
         | updateDrawableDirectionScale _ _ scale => Some scale
         | _ => None
         end)
      (interpolateTargets same same (fun x _ => x) (n 3) true [target])
  = [Some (n 100, n 100)].
Proof. vm_compute. reflexivity. Qed.

(** ** Escaping *)

Lemma read_escape (c : ascii) (r : string) :
  read_string_body Plain (json_escape c +:+ r)
  = String c <$> read_string_body Plain r.
Proof.
  destruct c as [[|] [|] [|] [|] [|] [|] [|] [|]]; reflexivity.
Qed.

(** X1: what [sanitize] returns is the body of a string literal that
    denotes the string it was given; so the text of [asString] of a
    constant is a quoted literal of the constant as a string, and
    [sanitize] maps no two strings to the same text. *)
Theorem sanitize_reads_back (s : string) :
  read_string_body Plain (sanitize s) = Some s
  /\ (forall constantValue,
        exists body,
          ConstantInput_asString constantValue = dq +:+ body +:+ dq
          /\ read_string_body Plain body = Some (ToString constantValue))
  /\ (forall s', sanitize s = sanitize s' -> s = s').
Proof.
  assert (H : forall s, read_string_body Plain (sanitize s) = Some s).
  { clear s. unfold sanitize. induction s as [|c s IH]; [reflexivity|].
    cbn [json_body]. rewrite read_escape, IH. reflexivity. }
  split; [apply H|]. split.
  - intros v. exists (sanitize (ToString v)). split; [reflexivity|apply H].
  - intros s' He. pose proof (H s) as H1. rewrite He, H in H1. congruence.
Qed.

(** ** The three analyses of an input *)

(** X2: for every input, typed, constant or variable, and every store:
    an input that is always a number is always a number or NaN, and an
    input that is never a number is neither. *)
Theorem analyses_are_consistent (fuel : nat) (objects : list VariableInput)
    (i : Input) :
  (isAlwaysNumber_in fuel objects i = Some true ->
   isAlwaysNumberOrNaN_in fuel objects i = Some true)
  /\ (isNeverNumber_in fuel objects i = Some true ->
      isAlwaysNumberOrNaN_in fuel objects i = Some false
      /\ isAlwaysNumber_in fuel objects i = Some false).
Proof.
  pose proof (analyses_agree fuel objects i) as H.
  destruct (isAlwaysNumber_in fuel objects i) as [a|],
    (isAlwaysNumberOrNaN_in fuel objects i) as [o|],
    (isNeverNumber_in fuel objects i) as [n|]; try contradiction;
    try (split; discriminate).
  destruct H as [Ha Hn]. split.
  - intros [= ->]. rewrite Ha; reflexivity.
  - intros [= ->]. rewrite Hn by reflexivity. split; [reflexivity|].
    destruct a; [|reflexivity]. rewrite Ha in Hn by reflexivity.
    discriminate Hn. reflexivity.
Qed.

Lemma analyses_are_consistent_witness :
  let objects :=
    store_after [Create "b0.value"; SetInput 0 (ConstantInput (VString "abc") true)] in
  isNeverNumber_in 2 objects (VariableRef 0) = Some true
  /\ isAlwaysNumberOrNaN_in 2 objects (VariableRef 0) = Some false
  /\ isAlwaysNumber_in 2 objects (VariableRef 0) = Some false.
Proof.
  intros objects.
  assert (H : isNeverNumber_in 2 objects (VariableRef 0) = Some true)
    by (vm_compute; reflexivity).
  split; [exact H|].
  exact (proj2 (analyses_are_consistent 2 objects (VariableRef 0)) H).
Defined.

(** ** Constants that are safe for the equality optimisation *)

(** X3: a constant that [isSafeConstantForEqualsOptimization] accepts is
    always a number, and the text of [asNumber] is the constant itself,
    as a string. *)
Theorem safe_constant_is_its_own_number (constantValue : Value) :
  isSafeConstantForEqualsOptimization constantValue = true ->
  ConstantInput_isAlwaysNumber constantValue = true
  /\ ConstantInput_isNeverNumber constantValue = false
  /\ ConstantInput_asNumber constantValue = ToString constantValue.
Proof.
  unfold isSafeConstantForEqualsOptimization, ConstantInput_isAlwaysNumber,
    ConstantInput_isNeverNumber, ConstantInput_asNumber.
  destruct (ToNumber constantValue) as [[|]|[|]| |[|] m e];
    cbn [truthy_number negb]; try discriminate;
    intros H%String.eqb_eq; repeat split; try reflexivity; exact H.
Qed.

Lemma safe_constant_is_its_own_number_witness :
  isSafeConstantForEqualsOptimization (VString "12.5") = true
  /\ ConstantInput_asNumber (VString "12.5") = "12.5".
Proof.
  assert (H : isSafeConstantForEqualsOptimization (VString "12.5") = true)
    by (vm_compute; reflexivity).
  split; [exact H|].
  exact (proj2 (proj2 (safe_constant_is_its_own_number _ H))).
Defined.

(** ** Names of costumes and sounds *)

Lemma add_names_spec (names : list string) (result : gset string) (s : string) :
  s ∈ fold_left (fun result name => {[name]} ∪ result) names result
  <-> In s names \/ s ∈ result.
Proof.
  revert result. induction names as [|n names IH]; intros result; cbn.
  - tauto.
  - rewrite IH, elem_of_union, elem_of_singleton.
    intuition (subst; auto).
Qed.

Lemma getNamesOfCostumesAndSounds_from (targets : list RuntimeTarget)
    (result : gset string) (s : string) :
  s ∈ fold_left (fun result target =>
        if isOriginal target then
          let result :=
            fold_left (fun result costume => {[costume]} ∪ result)
              (costumes target) result in
          fold_left (fun result sound => {[sound]} ∪ result)
            (sounds target) result
        else result) targets result
  <-> s ∈ result
      \/ exists target,
           In target targets /\ isOriginal target = true
           /\ (In s (costumes target) \/ In s (sounds target)).
Proof.
  revert result. induction targets as [|t targets IH]; intros result; cbn.
  - split; [auto|]. intros [H|(t & [] & _)]. exact H.
  - rewrite IH. destruct (isOriginal t) eqn:Ho.
    + cbv zeta. rewrite !add_names_spec. split.
      * intros [[H|[H|H]]|(t' & Hin & H)]; eauto 8.
      * intros [H|(t' & [<-|Hin] & Ho' & H)]; [tauto| tauto |eauto 8].
    + split.
      * intros [H|(t' & Hin & H)]; eauto 8.
      * intros [H|(t' & [<-|Hin] & Ho' & H)]; [tauto|congruence|eauto 8].
Qed.

(** X4: the names that [getNamesOfCostumesAndSounds] returns are those
    of the costumes and sounds of the original targets; the clones add
    none. *)
Theorem getNamesOfCostumesAndSounds_spec (targets : list RuntimeTarget)
    (s : string) :
  s ∈ getNamesOfCostumesAndSounds targets
  <-> exists target,
        In target targets /\ isOriginal target = true
        /\ (In s (costumes target) \/ In s (sounds target)).
Proof.
  unfold getNamesOfCostumesAndSounds.
  rewrite getNamesOfCostumesAndSounds_from. split; [|auto].
  intros [H|H]; [|exact H]. destruct (not_elem_of_empty _ H).
Qed.

(** X5: with the names of the runtime's targets in the generator, a
    string constant is lowered to an unsafe constant exactly when an
    original target has a costume or a sound of that name, and [asSafe]
    of an unsafe constant is the quoted string, also when it reads as a
    number. *)
Theorem costume_names_are_lowered_as_strings (targets : list RuntimeTarget)
    (c : Settings) (g : JSGenerator) (s : string) :
  namesOfCostumesAndSounds c = getNamesOfCostumesAndSounds targets ->
  exists safe,
    descendInput (constant (VString s)) c g = Ok (ConstantInput (VString s) safe, g)
    /\ (safe = false <->
        exists target,
          In target targets /\ isOriginal target = true
          /\ (In s (costumes target) \/ In s (sounds target)))
    /\ asSafe (ConstantInput (VString s) safe) c g =
         Ok (if safe then ConstantInput_asUnknown (VString s)
             else dq +:+ sanitize s +:+ dq, g).
Proof.
  intros Hn. cbn [descendInput]. unfold safeConstantInput, bind, ask, ret.
  eexists. split; [reflexivity|]. split.
  - assert (He : s ∈ namesOfCostumesAndSounds c
                 <-> exists target,
                       In target targets /\ isOriginal target = true
                       /\ (In s (costumes target) \/ In s (sounds target))).
    { rewrite Hn. unfold getNamesOfCostumesAndSounds.
      rewrite getNamesOfCostumesAndSounds_from. split; [|auto].
      intros [H|H]; [destruct (not_elem_of_empty _ H)|exact H]. }
    rewrite <- He.
    destruct (bool_decide_reflect (s ∈ namesOfCostumesAndSounds c)); cbn;
      split; intros H; try reflexivity; try assumption; try discriminate;
      contradiction.
  - unfold asSafe, ret, ConstantInput_asSafe.
    destruct (negb _); reflexivity.
Qed.

Lemma costume_names_are_lowered_as_strings_witness :
  let targets :=
    [mkRuntimeTarget true ["1"; "walk"] ["pop"];
     mkRuntimeTarget false ["2"] []] in
  let c := mkSettings (mkScript None false false false false [] None "")
             ∅ false (getNamesOfCostumesAndSounds targets) in
  let g := new_JSGenerator (script c) in
  exists safe,
    descendInput (constant (VString "1")) c g = Ok (ConstantInput (VString "1") safe, g)
    /\ (safe = false <->
        exists target,
          In target targets /\ isOriginal target = true
          /\ (In "1" (costumes target) \/ In "1" (sounds target)))
    /\ asSafe (ConstantInput (VString "1") safe) c g =
         Ok (if safe then ConstantInput_asUnknown (VString "1")
             else dq +:+ sanitize "1" +:+ dq, g).
Proof.
  intros targets c g.
  exact (costume_names_are_lowered_as_strings targets c g "1" eq_refl).
Defined.

(** ** Setup variables *)

Lemma lookup_setup_app k l l' :
  lookup_setup k (l ++ l') =
    match lookup_setup k l with Some v => Some v | None => lookup_setup k l' end.
Proof.
  induction l as [|[k' v] l IH]; cbn; [reflexivity|].
  destruct (String.eqb k k'); [reflexivity|exact IH].
Qed.

(** What a call of [evaluateOnce] that returns has done: it found the
    source bound, or it took the next name of the pool and bound the
    source to it, unless the source is [__proto__]; and no source
    [hasOwnProperty] was bound. *)
Lemma evaluateOnce_Ok (src : string) c g v g1 :
  evaluateOnce src c g = Ok (v, g1) ->
  lookup_setup "hasOwnProperty" (_setupVariables g) = None
  /\ ((src <> "__proto__"
       /\ lookup_setup src (_setupVariables g) = Some v /\ g1 = g)
      \/ ((src = "__proto__" \/ lookup_setup src (_setupVariables g) = None)
          /\ v = fst (VariablePool_next (_setupVariablesPool g))
          /\ g1 = set_setupVariables
                    (snd (VariablePool_next (_setupVariablesPool g)))
                    (if String.eqb src "__proto__" then _setupVariables g
                     else (_setupVariables g ++ [(src, v)])%list) g)).
Proof.
  unfold evaluateOnce.
  destruct (lookup_setup "hasOwnProperty" (_setupVariables g));
    [discriminate|].
  intros H. split; [reflexivity|].
  destruct (String.eqb_spec src "__proto__") as [->|Hne].
  - right. destruct (VariablePool_next (_setupVariablesPool g)) as [x pool].
    injection H as <- <-. auto.
  - destruct (lookup_setup src (_setupVariables g)) as [v0|] eqn:Hs.
    + left. injection H as <- <-. auto.
    + right. destruct (VariablePool_next (_setupVariablesPool g)) as [x pool].
      injection H as <- <-. auto.
Qed.

(** X6: after [evaluateOnce] returned a name for a source, the sources
    bound before are bound to the same names.  For a source other than
    [__proto__] and [hasOwnProperty], a second call returns the same name
    and changes nothing, and so does a call with a source bound before.
    After the source [hasOwnProperty] was bound every call throws a
    [TypeError]; and the source [__proto__] is not bound: the table is
    unchanged and the next call takes the next name of the pool. *)
Theorem evaluateOnce_binds_once (src : string) (c : Settings)
    (g g1 : JSGenerator) (v : string) :
  evaluateOnce src c g = Ok (v, g1) ->
  (forall other v',
     lookup_setup other (_setupVariables g) = Some v' ->
     lookup_setup other (_setupVariables g1) = Some v')
  /\ (src <> "__proto__" -> src <> "hasOwnProperty" ->
      evaluateOnce src c g1 = Ok (v, g1)
      /\ lookup_setup src (_setupVariables g1) = Some v
      /\ (forall other v',
            other <> "__proto__" ->
            lookup_setup other (_setupVariables g) = Some v' ->
            evaluateOnce other c g1 = Ok (v', g1)))
  /\ (src = "hasOwnProperty" ->
      forall other, evaluateOnce other c g1 = Throw TypeError)
  /\ (src = "__proto__" ->
      _setupVariables g1 = _setupVariables g
      /\ v = fst (VariablePool_next (_setupVariablesPool g))
      /\ _setupVariablesPool g1 = snd (VariablePool_next (_setupVariablesPool g))
      /\ evaluateOnce src c g1
         = Ok (fst (VariablePool_next (_setupVariablesPool g1)),
               set_setupVariables
                 (snd (VariablePool_next (_setupVariablesPool g1)))
                 (_setupVariables g1) g1)).
Proof.
  intros H. apply evaluateOnce_Ok in H as (Hh & H).
  assert (Hk : forall other v',
             lookup_setup other (_setupVariables g) = Some v' ->
             lookup_setup other (_setupVariables g1) = Some v').
  { intros other v' Ho. destruct H as [(_ & _ & ->)|(_ & _ & ->)];
      [exact Ho|].
    cbn [_setupVariables set_setupVariables].
    destruct (String.eqb src "__proto__"); [exact Ho|].
    rewrite lookup_setup_app, Ho. reflexivity. }
  split; [exact Hk|]. split; [|split].
  - intros Hp Ho.
    assert (Hs : lookup_setup src (_setupVariables g1) = Some v).
    { destruct H as [(_ & Hs & ->)|(Hc & _ & ->)]; [exact Hs|].
      cbn [_setupVariables set_setupVariables].
      destruct (String.eqb_spec src "__proto__") as [E|_]; [contradiction|].
      rewrite lookup_setup_app.
      destruct (lookup_setup src (_setupVariables g)) as [v0|] eqn:E.
      - destruct Hc as [Hc|Hc]; [contradiction|discriminate].
      - cbn [lookup_setup]. rewrite String.eqb_refl. reflexivity. }
    assert (Hh1 : lookup_setup "hasOwnProperty" (_setupVariables g1) = None).
    { destruct H as [(_ & _ & ->)|(_ & _ & ->)]; [exact Hh|].
      cbn [_setupVariables set_setupVariables].
      destruct (String.eqb src "__proto__"); [exact Hh|].
      rewrite lookup_setup_app, Hh. cbn [lookup_setup].
      destruct (String.eqb_spec "hasOwnProperty" src) as [E|_];
        [congruence|reflexivity]. }
    split; [|split; [exact Hs|]].
    + unfold evaluateOnce. rewrite Hh1.
      destruct (String.eqb_spec src "__proto__") as [E|_]; [contradiction|].
      rewrite Hs. reflexivity.
    + intros other v' Hn Hl. unfold evaluateOnce. rewrite Hh1.
      destruct (String.eqb_spec other "__proto__") as [E|_]; [contradiction|].
      rewrite (Hk _ _ Hl). reflexivity.
  - intros -> other.
    destruct H as [(_ & Hs & _)|(_ & _ & ->)]; [congruence|].
    unfold evaluateOnce. cbn [_setupVariables set_setupVariables].
    destruct (String.eqb_spec "hasOwnProperty" "__proto__") as [E|_];
      [discriminate|].
    rewrite lookup_setup_app, Hh. cbn [lookup_setup].
    rewrite String.eqb_refl. reflexivity.
  - intros ->.
    destruct H as [(Hn & _)|(_ & Hv & ->)]; [contradiction|].
    cbn [_setupVariables _setupVariablesPool set_setupVariables].
    rewrite String.eqb_refl.
    split; [reflexivity|]. split; [exact Hv|]. split; [reflexivity|].
    unfold evaluateOnce.
    cbn [_setupVariables _setupVariablesPool set_setupVariables].
    rewrite Hh, String.eqb_refl.
    destruct (VariablePool_next (snd (VariablePool_next (_setupVariablesPool g))));
      reflexivity.
Qed.

Lemma evaluateOnce_binds_once_witness :
  let c := mkSettings (mkScript None false false false false [] None "")
             ∅ false ∅ in
  let g := new_JSGenerator (script c) in
  exists g1,
    evaluateOnce "runtime.getOpcodeFunction(x)" c g = Ok ("b0", g1)
    /\ evaluateOnce "runtime.getOpcodeFunction(x)" c g1 = Ok ("b0", g1).
Proof.
  intros c g. eexists.
  assert (H : evaluateOnce "runtime.getOpcodeFunction(x)" c g
              = Ok ("b0", set_setupVariables (mkPool "b" 1)
                            [("runtime.getOpcodeFunction(x)", "b0")] g))
    by reflexivity.
  split; [exact H|].
  refine (proj1 (proj1 (proj2 (evaluateOnce_binds_once _ _ _ _ _ H)) _ _));
    discriminate.
Defined.

(** The two sources that are not bound once: a second call with
    [__proto__] returns another name, and after [hasOwnProperty] every
    call throws. *)
Example evaluateOnce_of_the_names_of_Object_prototype :
  let c := mkSettings (mkScript None false false false false [] None "")
             ∅ false ∅ in
  let g := new_JSGenerator (script c) in
  (exists g1 g2,
     evaluateOnce "__proto__" c g = Ok ("b0", g1)
     /\ evaluateOnce "__proto__" c g1 = Ok ("b1", g2)
     /\ _setupVariables g2 = [])
  /\ (exists g1,
        evaluateOnce "hasOwnProperty" c g = Ok ("b0", g1)
        /\ evaluateOnce "hasOwnProperty" c g1 = Throw TypeError
        /\ evaluateOnce "x" c g1 = Throw TypeError).
Proof.
  intros c g. split.
  - do 2 eexists. split; [reflexivity|]. split; reflexivity.
  - eexists. split; [reflexivity|]. split; reflexivity.
Qed.

(** ** A variable set to a constant *)

Lemma referenceVariable_store (x : IRVariable) c g r g1 :
  referenceVariable x c g = Ok (r, g1) ->
  variableInputs g1 = variableInputs g /\ objects g1 = objects g.
Proof.
  unfold referenceVariable. intros H.
  assert (E : exists src, evaluateOnce src c g = Ok (r, g1))
    by (destruct (String.eqb _ _); eauto).
  destruct E as (src & E).
  apply evaluateOnce_Ok in E as (_ & [(_ & _ & ->)|(_ & _ & ->)]);
    split; reflexivity.
Qed.

Lemma descendVariable_Ok (x : IRVariable) c g i g1 :
  descendVariable x c g = Ok (i, g1) ->
  var_id x <> "__proto__" -> var_id x <> "hasOwnProperty" ->
  exists a,
    i = VariableRef a
    /\ variableInputs g1 !! var_id x = Some a
    /\ variableInputs g1 !! "hasOwnProperty" = None.
Proof.
  unfold descendVariable. intros H Hp Hh.
  apply bind_Ok in H as (broken & g0 & E0 & H). injection E0 as <- <-.
  destruct (variableInputs g !! "hasOwnProperty") eqn:Eb; [discriminate|].
  apply bind_Ok in H as (known & g0 & E0 & H). injection E0 as <- <-.
  destruct (String.eqb_spec (var_id x) "__proto__") as [E|_];
    [contradiction|].
  destruct (variableInputs g !! var_id x) as [a|] eqn:Hk.
  - injection H as <- <-. eauto.
  - apply bind_Ok in H as (r & g2 & Er & H). cbv beta in H.
    apply referenceVariable_store in Er as (Et & _).
    unfold bind, get, modify, ret in H. injection H as <- <-.
    eexists. split; [reflexivity|].
    cbn [variableInputs set_variableInputs set_objects].
    split; [apply lookup_insert_eq|].
    rewrite lookup_insert_ne by congruence. rewrite Et. exact Eb.
Qed.

Lemma source_of_variable a c g vs g' :
  source_of (VariableRef a) c g = Ok (vs, g') ->
  g' = g /\ exists o, objects g !! a = Some o /\ vs = vi_source o.
Proof.
  unfold source_of, with_object.
  destruct (objects g !! a) as [o|]; [|discriminate].
  intros [= <- <-]. eauto.
Qed.

Lemma setInput_constant_lookup a v safe objects o :
  VariableInput_setInput a (ConstantInput v safe) objects !! a = Some o ->
  vi_type o = TYPE_UNKNOWN /\ vi_value o = Some (ConstantInput v safe).
Proof.
  unfold VariableInput_setInput.
  destruct (objects !! a) as [this|] eqn:Ha; [|congruence].
  rewrite list_lookup_insert_eq by (eapply lookup_lt_Some, Ha).
  intros [= <-]. split; reflexivity.
Qed.

(** X7: after [var.set] of a constant, for a variable whose id is
    neither [__proto__] nor [hasOwnProperty], [var.get] of the same
    variable returns the tracked variable input; its three analyses
    answer as the constant's do, while [asNumber] still converts the
    variable at run time. *)
Theorem variable_set_to_a_constant_is_analysed_as_it (x : IRVariable)
    (v : Value) (c : Settings) (g g1 : JSGenerator) (u : unit) :
  var_id x <> "__proto__" -> var_id x <> "hasOwnProperty" ->
  descendStackedBlock (var_set x (constant v)) c g = Ok (u, g1) ->
  exists a o,
    descendInput (var_get x) c g1 = Ok (VariableRef a, g1)
    /\ objects g1 !! a = Some o
    /\ isAlwaysNumber (VariableRef a) c g1
        = Ok (ConstantInput_isAlwaysNumber v, g1)
    /\ isAlwaysNumberOrNaN (VariableRef a) c g1
        = Ok (ConstantInput_isAlwaysNumber v, g1)
    /\ isNeverNumber (VariableRef a) c g1
        = Ok (ConstantInput_isNeverNumber v, g1)
    /\ asNumber (VariableRef a) c g1
        = Ok ("(+" +:+ vi_source o +:+ " || 0)", g1).
Proof.
  intros Hp Hh H.
  cbn [descendStackedBlock descendInput] in H.
  apply bind_Ok in H as (i & ga & Hv & H). cbv beta in H.
  apply descendVariable_Ok in Hv as (a & -> & Ha & Hb); [|exact Hp|exact Hh].
  unfold bind at 1, safeConstantInput, bind at 1, ask, ret in H.
  cbv beta iota in H.
  unfold bind at 1, setInput, modify in H. cbv beta iota in H.
  set (value := ConstantInput v _) in H.
  set (gb := set_objects _ ga) in H.
  apply bind_Ok in H as (u1 & gc & H1 & H). cbv beta in H.
  apply append_source_Ok in H1 as (s & gc' & H1 & ->).
  apply bind_Ok in H1 as (vs & gd & Hs & H1). cbv beta in H1.
  apply source_of_variable in Hs as (-> & o & Ho & ->).
  unfold bind, asSafe, ret in H1. injection H1 as _ <-.
  assert (Hg1 : objects g1 = objects gb /\ variableInputs g1 = variableInputs ga).
  { destruct (var_isCloud x).
    - apply append_source_Ok in H as (s' & gc' & H & ->).
      apply bind_Ok in H as (vs & gd & Hs & H). cbv beta in H.
      apply source_of_variable in Hs as (-> & _).
      injection H as _ <-. split; reflexivity.
    - injection H as _ <-. split; reflexivity. }
  destruct Hg1 as [Hobj Htr].
  destruct (setInput_constant_lookup _ _ _ _ _ Ho) as [Hty Hval].
  exists a, o. rewrite <- Hobj in Ho.
  split.
  { cbn [descendInput]. unfold descendVariable, bind, get.
    rewrite Htr, Hb. cbv beta iota.
    destruct (String.eqb_spec (var_id x) "__proto__") as [E|_];
      [contradiction|].
    rewrite Htr, Ha. reflexivity. }
  split; [exact Ho|].
  unfold isAlwaysNumber, isAlwaysNumberOrNaN, isNeverNumber, analysis,
    isAlwaysNumber_in, isAlwaysNumberOrNaN_in, isNeverNumber_in, asNumber,
    with_object.
  cbn [analyse]. rewrite Ho, Hval. unfold value. cbn [analyse].
  repeat split.
  - destruct (length (objects g1)); reflexivity.
  - destruct (length (objects g1)); reflexivity.
  - destruct (length (objects g1)); reflexivity.
  - unfold VariableInput_asNumber. rewrite Hty. reflexivity.
Qed.

Lemma variable_set_to_a_constant_is_analysed_as_it_witness :
  let c := mkSettings (mkScript None false false false false [] None "")
             ∅ false ∅ in
  let x := mkVariable "idx" "target" "x" false in
  exists g1 a o,
    descendStackedBlock (var_set x (constant (VString "10"))) c
      (new_JSGenerator (script c)) = Ok (tt, g1)
    /\ objects g1 !! a = Some o
    /\ isAlwaysNumber (VariableRef a) c g1 = Ok (true, g1)
    /\ asNumber (VariableRef a) c g1 = Ok ("(+" +:+ vi_source o +:+ " || 0)", g1).
Proof.
  intros c x.
  destruct (descendStackedBlock (var_set x (constant (VString "10"))) c
              (new_JSGenerator (script c))) as [[[] g1]|e] eqn:H;
    [|vm_compute in H; discriminate].
  assert (Hp : var_id x <> "__proto__") by discriminate.
  assert (Hh : var_id x <> "hasOwnProperty") by discriminate.
  destruct (variable_set_to_a_constant_is_analysed_as_it _ _ _ _ _ _ Hp Hh H)
    as (a & o & _ & Ho & Ha & _ & _ & Hn).
  exists g1, a, o. repeat split; assumption.
Defined.

(** The two ids that are not tracked in this way: after [var.set] of a
    variable of id [hasOwnProperty], [var.get] throws a [TypeError];
    and a variable of id [__proto__] is not tracked, so that [var.get]
    returns a new variable input, of which nothing is known. *)
Example var_get_of_the_names_of_Object_prototype :
  let c := mkSettings (mkScript None false false false false [] None "")
             ∅ false ∅ in
  let g := new_JSGenerator (script c) in
  let x := mkVariable "hasOwnProperty" "target" "x" false in
  let y := mkVariable "__proto__" "target" "y" false in
  match descendStackedBlock (var_set x (constant (VString "10"))) c g with
  | Ok (_, g1) =>
      match descendInput (var_get x) c g1 with
      | Throw TypeError => true
      | _ => false
      end
  | Throw _ => false
  end = true
  /\ match descendStackedBlock (var_set y (constant (VString "10"))) c g with
     | Ok (_, g1) =>
         match descendInput (var_get y) c g1 with
         | Ok (i, g2) =>
             match isAlwaysNumber i c g2 with
             | Ok (b, _) => Some (i, b, length (objects g1), length (objects g2))
             | Throw _ => None
             end
         | Throw _ => None
         end
     | Throw _ => None
     end = Some (VariableRef 1, false, 1%nat, 2%nat).
Proof. split; vm_compute; reflexivity. Qed.

(** ** What the lowering keeps *)

Lemma append_empty (s : string) : s +:+ "" = s.
Proof.
  induction s as [|x s IH]; [reflexivity|].
  change (String x (s +:+ "") = String x s). rewrite IH. reflexivity.
Qed.

Lemma kept_refl g : kept g g.
Proof.
  split; [exists []; rewrite app_nil_r; reflexivity|].
  split; [auto|]. split; [auto|lia].
Qed.

Lemma kept_trans g1 g2 g3 : kept g1 g2 -> kept g2 g3 -> kept g1 g3.
Proof.
  intros ((m1 & H1) & N1 & S1 & L1) ((m2 & H2) & N2 & S2 & L2).
  split; [exists (m1 ++ m2)%list; rewrite H2, H1, app_assoc; reflexivity|].
  split; [auto|]. split; [auto|lia].
Qed.

Lemma kept_same g g' :
  _setupVariables g' = _setupVariables g ->
  objects g' = objects g ->
  variableInputs g' = variableInputs g ->
  kept g g'.
Proof.
  intros H1 H2 H3. unfold kept, setup_keys, store_ok, tracker_in_store.
  rewrite H1, H2, H3.
  split; [exists []; rewrite app_nil_r; reflexivity|].
  split; [auto|]. split; [auto|lia].
Qed.

Lemma kept_reset g : kept g (set_variableInputs ∅ g).
Proof.
  split; [exists []; rewrite app_nil_r; reflexivity|].
  split; [auto|]. split; [|reflexivity].
  intros [Hv _]. split; [exact Hv|]. intros k a Hk.
  cbn in Hk. rewrite lookup_empty in Hk. discriminate.
Qed.

Lemma lowered_refl g : lowered g g.
Proof.
  split; [apply kept_refl|]. split; [reflexivity|]. split; [reflexivity|].
  exists "". rewrite append_empty. reflexivity.
Qed.

Lemma lowered_trans g1 g2 g3 : lowered g1 g2 -> lowered g2 g3 -> lowered g1 g3.
Proof.
  intros (K1 & F1 & W1 & s1 & S1) (K2 & F2 & W2 & s2 & S2).
  split; [eapply kept_trans; eassumption|].
  split; [congruence|]. split; [congruence|].
  exists (s1 +:+ s2). rewrite S2, S1, append_assoc. reflexivity.
Qed.

Lemma lowered_same g g' :
  _setupVariables g' = _setupVariables g ->
  objects g' = objects g ->
  variableInputs g' = variableInputs g ->
  frames g' = frames g -> isWarp g' = isWarp g -> source g' = source g ->
  lowered g g'.
Proof.
  intros H1 H2 H3 H4 H5 H6. split; [apply kept_same; assumption|].
  split; [assumption|]. split; [assumption|].
  exists "". rewrite append_empty. exact H6.
Qed.

Lemma respects_ret {A} (a : A) : respects (ret a).
Proof. intros c g a' g' [= _ <-]. apply lowered_refl. Qed.

Lemma respects_throw {A} (e : Exception) : respects (@throw A e).
Proof. intros c g a g' H. discriminate. Qed.

Lemma respects_get {A} (f : JSGenerator -> A) : respects (get f).
Proof. intros c g a' g' [= _ <-]. apply lowered_refl. Qed.

Lemma respects_ask {A} (f : Settings -> A) : respects (ask f).
Proof. intros c g a' g' [= _ <-]. apply lowered_refl. Qed.

Lemma respects_bind {A B} (m : M A) (k : A -> M B) :
  respects m -> (forall a, respects (k a)) -> respects (bind m k).
Proof.
  intros Hm Hk c g b g' H. apply bind_Ok in H as (a & g1 & H1 & H2).
  eapply lowered_trans; [eapply Hm, H1|eapply Hk, H2].
Qed.

Lemma respects_append_source (e : M string) :
  respects e -> respects (append_source e).
Proof.
  intros He c g u g' H. apply append_source_Ok in H as (s & g1 & H & ->).
  destruct (He _ _ _ _ H) as (K & F & W & _).
  split; [eapply kept_trans; [exact K|apply kept_same; reflexivity]|].
  split; [exact F|]. split; [exact W|]. eexists. reflexivity.
Qed.

Lemma respects_emit (s : string) : respects (emit s).
Proof. apply respects_append_source, respects_ret. Qed.

Lemma respects_stateless {A} (m : M A) :
  (forall c g a g', m c g = Ok (a, g') -> g' = g) -> respects m.
Proof. intros Hm c g a g' H. rewrite (Hm _ _ _ _ H). apply lowered_refl. Qed.

Lemma with_object_stateless {A} a (f : VariableInput -> A) c g x g' :
  with_object a f c g = Ok (x, g') -> g' = g.
Proof.
  unfold with_object. destruct (objects g !! a); [|discriminate].
  intros [= _ <-]. reflexivity.
Qed.

Lemma respects_asNumber i : respects (asNumber i).
Proof.
  apply respects_stateless. intros c g a g'.
  destruct i; cbn; try (intros [= _ <-]; reflexivity);
    try discriminate; apply with_object_stateless.
Qed.

Lemma respects_asNumberOrNaN i : respects (asNumberOrNaN i).
Proof.
  apply respects_stateless. intros c g a g'.
  destruct i; cbn; try (intros [= _ <-]; reflexivity);
    try discriminate; apply with_object_stateless.
Qed.

Lemma respects_asString i : respects (asString i).
Proof.
  apply respects_stateless. intros c g a g'.
  destruct i; cbn; try (intros [= _ <-]; reflexivity);
    try discriminate; apply with_object_stateless.
Qed.

Lemma respects_asBoolean i : respects (asBoolean i).
Proof.
  apply respects_stateless. intros c g a g'.
  destruct i; cbn; try (intros [= _ <-]; reflexivity);
    try discriminate; apply with_object_stateless.
Qed.

Lemma respects_asUnknown i : respects (asUnknown i).
Proof.
  apply respects_stateless. intros c g a g'.
  destruct i; cbn; try (intros [= _ <-]; reflexivity);
    try discriminate; apply with_object_stateless.
Qed.

Lemma respects_asSafe i : respects (asSafe i).
Proof.
  apply respects_stateless. intros c g a g'.
  destruct i; cbn; try (intros [= _ <-]; reflexivity);
    try discriminate; apply with_object_stateless.
Qed.

Lemma respects_source_of i : respects (source_of i).
Proof.
  apply respects_stateless. intros c g a g'.
  destruct i; cbn; try (intros [= _ <-]; reflexivity);
    try discriminate; apply with_object_stateless.
Qed.

Lemma respects_analysis f i : respects (analysis f i).
Proof.
  apply respects_stateless. intros c g a g'. unfold analysis.
  destruct i;
    try match goal with
        | |- context [f ?x ?y ?z] => destruct (f x y z)
        end;
    try discriminate; intros [= _ <-]; reflexivity.
Qed.

Lemma respects_next_local : respects next_local.
Proof.
  intros c g v g'. unfold next_local.
  destruct (VariablePool_next (localVariables g)).
  intros [= _ <-]. apply lowered_same; reflexivity.
Qed.

Lemma respects_set_descendedIntoModulo b :
  respects (modify (set_descendedIntoModulo b)).
Proof. intros c g v g' [= _ <-]. apply lowered_same; reflexivity. Qed.

Lemma lookup_setup_None k l : lookup_setup k l = None -> ~ In k (map fst l).
Proof.
  induction l as [|[k' v] l IH]; cbn; [tauto|].
  destruct (String.eqb_spec k k') as [->|Hne]; [discriminate|].
  intros H [He|Hin]; [congruence|]. exact (IH H Hin).
Qed.

Lemma respects_evaluateOnce src : respects (evaluateOnce src).
Proof.
  intros c g v g' H.
  apply evaluateOnce_Ok in H as (_ & [(_ & _ & ->)|(Hc & _ & ->)]);
    [apply lowered_refl|].
  split; [|split; [reflexivity|split; [reflexivity|]];
           exists ""; rewrite append_empty; reflexivity].
  unfold kept, setup_keys, store_ok, tracker_in_store.
  cbn [_setupVariables set_setupVariables objects variableInputs].
  destruct (String.eqb_spec src "__proto__") as [E|Hne].
  - split; [exists []; rewrite app_nil_r; reflexivity|].
    split; [auto|]. split; [auto|reflexivity].
  - destruct Hc as [Hc|Hc]; [contradiction|].
    split; [eexists; reflexivity|].
    split; [|split; [auto|reflexivity]].
    rewrite map_app. cbn [map fst]. intros Hn. apply NoDup_app.
    split; [exact Hn|]. split; [|apply NoDup_singleton].
    intros x Hx [->|[]]%list_elem_of_In. apply list_elem_of_In in Hx.
    exact (lookup_setup_None _ _ Hc Hx).
Qed.

Lemma respects_referenceVariable v : respects (referenceVariable v).
Proof.
  unfold referenceVariable. destruct (String.eqb _ _);
    apply respects_evaluateOnce.
Qed.

Lemma respects_resetVariableInputs : respects resetVariableInputs.
Proof.
  intros c g v g' [= _ <-].
  split; [|split; [reflexivity|split; [reflexivity|]];
           exists ""; rewrite append_empty; reflexivity].
  split; [exists []; rewrite app_nil_r; reflexivity|].
  split; [auto|]. split; [|reflexivity].
  intros [Hv _]. split; [exact Hv|]. intros k a Hk.
  cbn in Hk. rewrite lookup_empty in Hk. discriminate.
Qed.

Lemma respects_setInput v value : respects (setInput v value).
Proof.
  intros c g u g'. unfold setInput. destruct v; try discriminate.
  intros [= _ <-].
  split; [|split; [reflexivity|split; [reflexivity|]];
           exists ""; rewrite append_empty; reflexivity].
  split; [exists []; rewrite app_nil_r; reflexivity|].
  split; [auto|]. cbn [objects set_objects].
  rewrite setInput_keeps_length. split; [|reflexivity].
  intros [Hv Ht]. split.
  - apply setInput_keeps_values, Hv.
  - intros k a Hk. cbn [objects set_objects]. rewrite setInput_keeps_length.
    exact (Ht k a Hk).
Qed.

Lemma respects_descendVariable v : respects (descendVariable v).
Proof.
  unfold descendVariable. apply respects_bind; [apply respects_get|].
  intros [a|]; [apply respects_throw|].
  apply respects_bind; [apply respects_get|].
  intros [a|]; [apply respects_ret|].
  apply respects_bind; [apply respects_referenceVariable|]. intros r.
  intros c g i g' H. unfold bind, get, modify, ret in H.
  assert (E : g' = set_objects (objects g ++ [new_VariableInput (r +:+ ".value")]) g
              \/ g' = set_variableInputs
                        (<[var_id v := length (objects g)]> (variableInputs g))
                        (set_objects
                           (objects g ++ [new_VariableInput (r +:+ ".value")]) g)).
  { destruct (String.eqb (var_id v) "__proto__");
      injection H as _ <-; auto. }
  clear H.
  split; [|destruct E as [-> | ->];
           (split; [reflexivity|split; [reflexivity|]];
            exists ""; rewrite append_empty; reflexivity)].
  assert (Hv : store_ok g ->
               values_are_not_variables
                 (objects g ++ [new_VariableInput (r +:+ ".value")])).
  { intros [Hv _] a o i0 Ha Ho.
    apply lookup_app_Some in Ha as [Ha|[_ Ha]]; [eauto|].
    apply list_lookup_singleton_Some in Ha as [_ <-]. discriminate. }
  destruct E as [-> | ->];
    (split; [exists []; rewrite app_nil_r; reflexivity|]);
    (split; [auto|]);
    cbn [objects set_objects set_variableInputs variableInputs];
    rewrite length_app; cbn [length]; (split; [|lia]);
    intros Hok; (split; [exact (Hv Hok)|]); destruct Hok as [_ Ht];
    intros k a; cbn [objects variableInputs set_objects set_variableInputs];
    rewrite length_app; cbn [length]; intros Hk.
  - specialize (Ht k a Hk). lia.
  - apply lookup_insert_Some in Hk as [[_ <-]|[_ Hk]]; [lia|].
    specialize (Ht k a Hk). lia.
Qed.

Lemma respects_safeConstantInput v : respects (safeConstantInput v).
Proof.
  unfold safeConstantInput. apply respects_bind; [apply respects_ask|].
  intros names. apply respects_ret.
Qed.

Lemma respects_mapM {A B} (f : A -> M B) (l : list A) :
  Forall (fun a => respects (f a)) l -> respects (mapM f l).
Proof.
  induction 1 as [|a l Ha _ IH]; cbn [mapM].
  - apply respects_ret.
  - apply respects_bind; [exact Ha|]. intros b.
    apply respects_bind; [exact IH|]. intros bs. apply respects_ret.
Qed.

Lemma enterStack_eq frame c g :
  enterStack frame c g
  = Ok (length (frames g),
        set_frames (frames g ++ [frame]) (set_variableInputs ∅ g)).
Proof. reflexivity. Qed.

Lemma leaveStack_eq c g :
  leaveStack c g
  = Ok (tt, set_frames (removelast (frames g)) (set_variableInputs ∅ g)).
Proof. reflexivity. Qed.

(** The loop of [descendStack]: the frame that [descendStack] pushed stays
    the last one. *)
Lemma stack_loop (f : stmt -> M unit) (nodes : list stmt) :
  Forall (fun n => respects (f n)) nodes ->
  forall F fr c g g2,
    frames g = (F ++ [fr])%list ->
    (fix loop (l : list stmt) : M unit :=
       match l with
       | [] => ret tt
       | node :: rest =>
           bind (set_isLastBlock (length F)
                   (match rest with [] => true | _ => false end))
             (fun _ => bind (f node) (fun _ => loop rest))
       end) nodes c g = Ok (tt, g2) ->
    kept g g2 /\ isWarp g2 = isWarp g
    /\ (exists s, source g2 = source g +:+ s)
    /\ exists fr', frames g2 = (F ++ [fr'])%list.
Proof.
  induction 1 as [|node rest Hn _ IH]; intros F fr c g g2 HF H.
  - injection H as <-. split; [apply kept_refl|]. split; [reflexivity|].
    split; [exists ""; rewrite append_empty; reflexivity|eauto].
  - apply bind_Ok in H as ([] & g1 & E1 & H).
    injection E1 as <-.
    apply bind_Ok in H as ([] & g1' & E2 & H).
    destruct (Hn _ _ _ _ E2) as (K & Fr & W & s & S).
    cbn [frames set_frames] in Fr.
    rewrite HF, alter_app_r_alt in Fr by lia.
    rewrite Nat.sub_diag in Fr. cbn [alter list_alter] in Fr.
    destruct (IH F _ c g1' g2 Fr H) as (K2 & W2 & (s2 & S2) & fr' & F2).
    split; [eapply kept_trans; [|exact K2];
            eapply kept_trans; [|exact K]; apply kept_same; reflexivity|].
    split; [rewrite W2, W; reflexivity|].
    split; [exists (s +:+ s2); rewrite S2, S, append_assoc; reflexivity|].
    eauto.
Qed.

Lemma respects_descendStack_with (f : stmt -> M unit) nodes frame :
  Forall (fun n => respects (f n)) nodes ->
  respects (descendStack_with f nodes frame).
Proof.
  intros HF c g u g' H. unfold descendStack_with in H.
  apply bind_Ok in H as (idx & g1 & E & H).
  rewrite enterStack_eq in E. injection E as <- <-.
  apply bind_Ok in H as ([] & g2 & L & H).
  rewrite leaveStack_eq in H. destruct u. injection H as <-.
  eapply (stack_loop f nodes HF (frames g) frame) in L; [|reflexivity].
  destruct L as (K & W & (s & S) & fr' & F2).
  split.
  - eapply kept_trans; [apply kept_reset|].
    eapply kept_trans; [|eapply kept_trans; [apply kept_reset|]].
    + eapply kept_trans; [|exact K]. apply kept_same; reflexivity.
    + apply kept_same; reflexivity.
  - cbn [frames set_frames isWarp source set_variableInputs].
    rewrite F2, removelast_last. split; [reflexivity|].
    split; [exact W|]. exists s. exact S.
Qed.

Ltac resp_step :=
  lazymatch goal with
  | |- respects (bind _ _) => apply respects_bind; [|intros ?]
  | |- respects (ret _) => apply respects_ret
  | |- respects (typed _ _) => apply respects_ret
  | |- respects (throw _) => apply respects_throw
  | |- respects (get _) => apply respects_get
  | |- respects (ask _) => apply respects_ask
  | |- respects (emit _) => apply respects_emit
  | |- respects (append_source _) => apply respects_append_source
  | |- respects (asNumber _) => apply respects_asNumber
  | |- respects (asNumberOrNaN _) => apply respects_asNumberOrNaN
  | |- respects (asString _) => apply respects_asString
  | |- respects (asBoolean _) => apply respects_asBoolean
  | |- respects (asUnknown _) => apply respects_asUnknown
  | |- respects (asSafe _) => apply respects_asSafe
  | |- respects (source_of _) => apply respects_source_of
  | |- respects (isAlwaysNumber _) => apply respects_analysis
  | |- respects (isAlwaysNumberOrNaN _) => apply respects_analysis
  | |- respects (isNeverNumber _) => apply respects_analysis
  | |- respects next_local => apply respects_next_local
  | |- respects (modify (set_descendedIntoModulo _)) =>
      apply respects_set_descendedIntoModulo
  | |- respects (evaluateOnce _) => apply respects_evaluateOnce
  | |- respects (referenceVariable _) => apply respects_referenceVariable
  | |- respects resetVariableInputs => apply respects_resetVariableInputs
  | |- respects (setInput _ _) => apply respects_setInput
  | |- respects (descendVariable _) => apply respects_descendVariable
  | |- respects (safeConstantInput _) => apply respects_safeConstantInput
  | |- respects (mapM _ _) => apply respects_mapM
  | |- respects (descendStack_with _ _ _) => apply respects_descendStack_with
  | |- respects (if ?b then _ else _) => destruct b
  | |- respects (match ?x with _ => _ end) => destruct x
  end.

Lemma respects_retire : respects retire.
Proof. unfold retire. repeat resp_step. Qed.

Lemma respects_yielded : respects yielded.
Proof. unfold yielded. repeat resp_step. Qed.

Lemma respects_yieldNotWarp : respects yieldNotWarp.
Proof. unfold yieldNotWarp. repeat resp_step. apply respects_yielded. Qed.

Lemma respects_yieldStuckOrNotWarp : respects yieldStuckOrNotWarp.
Proof.
  unfold yieldStuckOrNotWarp. repeat resp_step; apply respects_yielded.
Qed.

Lemma respects_yieldLoop : respects yieldLoop.
Proof.
  unfold yieldLoop. repeat resp_step;
    [apply respects_yieldStuckOrNotWarp|apply respects_yieldNotWarp].
Qed.

Lemma respects_requestRedraw : respects requestRedraw.
Proof. apply respects_emit. Qed.

Lemma respects_compat_field f :
  respects (compat_field f descendVariable).
Proof. unfold compat_field. repeat resp_step. Qed.

(** [control.inlineStackOutput] puts the source back, and
    [control.allAtOnce] the warp flag. *)
Lemma respects_inlineStackOutput (f : stmt -> M unit) code :
  Forall (fun n => respects (f n)) code ->
  respects
    (bind (get source) (fun originalSource =>
     bind (modify (set_source "(yield* (function*() {")) (fun _ =>
     bind (descendStack_with f code (new_Frame false)) (fun _ =>
     bind (emit "})())") (fun _ =>
     bind (get source) (fun stackSource =>
     bind (modify (set_source originalSource)) (fun _ =>
     typed stackSource TYPE_UNKNOWN))))))).
Proof.
  intros HF c g i g' H.
  apply bind_Ok in H as (orig & g0 & E0 & H). injection E0 as <- <-.
  apply bind_Ok in H as ([] & g1 & E1 & H). injection E1 as <-.
  apply bind_Ok in H as ([] & g2 & E2 & H).
  apply respects_descendStack_with in E2; [|exact HF].
  destruct E2 as (K & Fr & W & _).
  apply bind_Ok in H as ([] & g3 & E3 & H).
  apply append_source_Ok in E3 as (s & g3' & E3 & ->). injection E3 as _ <-.
  apply bind_Ok in H as (stackSource & g4 & E4 & H). injection E4 as _ <-.
  apply bind_Ok in H as ([] & g5 & E5 & H). injection E5 as <-.
  injection H as _ <-.
  split; [|split; [exact Fr|split; [exact W|]];
           exists ""; rewrite append_empty; reflexivity].
  eapply kept_trans; [apply kept_same; reflexivity|].
  eapply kept_trans; [exact K|apply kept_same; reflexivity].
Qed.

Lemma respects_allAtOnce (f : stmt -> M unit) code :
  Forall (fun n => respects (f n)) code ->
  respects
    (bind (get isWarp) (fun ooldWarp =>
     bind (modify (set_isWarp true)) (fun _ =>
     bind (descendStack_with f code (new_Frame false)) (fun _ =>
     modify (set_isWarp ooldWarp))))).
Proof.
  intros HF c g i g' H.
  apply bind_Ok in H as (old & g0 & E0 & H). injection E0 as <- <-.
  apply bind_Ok in H as ([] & g1 & E1 & H). injection E1 as <-.
  apply bind_Ok in H as ([] & g2 & E2 & H).
  apply respects_descendStack_with in E2; [|exact HF].
  destruct E2 as (K & Fr & _ & s & S).
  injection H as _ <-.
  split; [|split; [exact Fr|split; [reflexivity|exists s; exact S]]].
  eapply kept_trans; [apply kept_same; reflexivity|].
  eapply kept_trans; [exact K|apply kept_same; reflexivity].
Qed.

Ltac resp_with di ds dc :=
  first
  [ match goal with
    | IH : forall res : string, respects _ |- _ => apply IH
    end
  | lazymatch goal with
    | |- respects (descendInput _) => apply di
    | |- respects (descendStackedBlock _) => apply ds
    | |- respects (generateCompatibilityLayerCall _ _) => apply dc
    | |- respects (compat_field _ _) => apply respects_compat_field
    | |- respects retire => apply respects_retire
    | |- respects yielded => apply respects_yielded
    | |- respects yieldNotWarp => apply respects_yieldNotWarp
    | |- respects yieldStuckOrNotWarp => apply respects_yieldStuckOrNotWarp
    | |- respects yieldLoop => apply respects_yieldLoop
    | |- respects requestRedraw => apply respects_requestRedraw
    | |- respects (bind (get source) _) => apply respects_inlineStackOutput
    | |- respects (bind (get isWarp) _) =>
        first [apply respects_allAtOnce|apply respects_bind; [|intros ?]]
    | |- Forall _ [] => constructor
    | |- Forall _ (_ :: _) => constructor; [cbv beta|]
    | |- Forall _ ?l =>
        let IH := fresh "IH" in
        induction l as [|? ? IH]; constructor; [cbv beta|exact IH]
    | |- _ =>
        first
        [ resp_step
        | lazymatch goal with
          | |- respects (?f ?args ?r) =>
              is_fix f;
              let IH := fresh "IH" in
              generalize r;
              induction args as [|[? ?] ? IH]; intros ?;
              cbv beta iota fix
          end ]
    end ].

(** The three methods that lower a node, by induction on the node. *)
Lemma respects_descendInput (node : expr) : respects (descendInput node)
with respects_descendStackedBlock (node : stmt) :
  respects (descendStackedBlock node)
with respects_generateCompatibilityLayerCall (node : compat) (b : bool) :
  respects (generateCompatibilityLayerCall node b).
Proof.
  - destruct node; cbn [descendInput]; cbv zeta;
      repeat resp_with respects_descendInput respects_descendStackedBlock
        respects_generateCompatibilityLayerCall.
  - destruct node; cbn [descendStackedBlock]; cbv zeta;
      repeat resp_with respects_descendInput respects_descendStackedBlock
        respects_generateCompatibilityLayerCall.
  - destruct node; cbn [generateCompatibilityLayerCall]; cbv zeta;
      repeat resp_with respects_descendInput respects_descendStackedBlock
        respects_generateCompatibilityLayerCall.
Qed.

Lemma respects_descendStack nodes frame :
  respects (descendStack nodes frame).
Proof.
  apply respects_descendStack_with, Forall_forall.
  intros n _. apply respects_descendStackedBlock.
Qed.

Lemma lowers_lowered c g g' : lowers c g g' -> lowered g g'.
Proof.
  intros [node i H|node u H|nodes frame u H|node b s H].
  - exact (respects_descendInput node _ _ _ _ H).
  - exact (respects_descendStackedBlock node _ _ _ _ H).
  - exact (respects_descendStack nodes frame _ _ _ _ H).
  - exact (respects_generateCompatibilityLayerCall node b _ _ _ _ H).
Qed.

Lemma sample_stack_lowers :
  exists g',
    descendStack sample_stack (new_Frame false) sample_settings
      (new_JSGenerator (script sample_settings)) = Ok (tt, g').
Proof.
  destruct (descendStack sample_stack (new_Frame false) sample_settings
              (new_JSGenerator (script sample_settings)))
    as [[[] g']|e] eqn:H; [|vm_compute in H; discriminate].
  exists g'. reflexivity.
Defined.

(** X8: when the lowering of an expression, a stacked block, a stack or a
    compatibility-layer call returns, the stack of frames and the warp
    flag are what they were when it started: every frame pushed was
    popped, and [control.allAtOnce] put the flag back. *)
Theorem lowering_restores_frames_and_warp (c : Settings) (g g' : JSGenerator) :
  lowers c g g' -> frames g' = frames g /\ isWarp g' = isWarp g.
Proof.
  intros H. apply lowers_lowered in H as (_ & F & W & _). auto.
Qed.

Lemma lowering_restores_frames_and_warp_witness :
  exists g',
    lowers sample_settings (new_JSGenerator (script sample_settings)) g'
    /\ frames g' = [] /\ isWarp g' = false.
Proof.
  destruct sample_stack_lowers as [g' H]. exists g'.
  assert (L : lowers sample_settings
                (new_JSGenerator (script sample_settings)) g')
    by exact (lowers_stack _ _ _ _ _ _ H).
  split; [exact L|].
  exact (lowering_restores_frames_and_warp _ _ _ L).
Defined.

(** X9: the lowering only adds to the end of the source: what was written
    before it started is still the beginning of the source when it
    returns. *)
Theorem lowering_only_appends_source (c : Settings) (g g' : JSGenerator) :
  lowers c g g' -> exists s, source g' = source g +:+ s.
Proof.
  intros H. apply lowers_lowered in H as (_ & _ & _ & S). exact S.
Qed.

Lemma lowering_only_appends_source_witness :
  exists g',
    lowers sample_settings (new_JSGenerator (script sample_settings)) g'
    /\ exists s, source g' = "" +:+ s.
Proof.
  destruct sample_stack_lowers as [g' H]. exists g'.
  assert (L : lowers sample_settings
                (new_JSGenerator (script sample_settings)) g')
    by exact (lowers_stack _ _ _ _ _ _ H).
  split; [exact L|].
  exact (lowering_only_appends_source _ _ _ L).
Defined.

(** X10: [control.inlineStackOutput] lowers its stack from the state in
    which the source is the opening of a generator function that is
    called at once; it returns what the source is after that, the
    opening and then what the stack wrote, followed by the closing; and
    it leaves the state that the stack left with the source put back as
    it found it. *)
Theorem inlineStackOutput_restores_the_source (code : list stmt)
    (c : Settings) (g g' : JSGenerator) (i : Input) :
  descendInput (control_inlineStackOutput code) c g = Ok (i, g') ->
  exists g2 body,
    descendStack code (new_Frame false) c
      (set_source "(yield* (function*() {" g) = Ok (tt, g2)
    /\ source g2 = "(yield* (function*() {" +:+ body
    /\ i = TypedInput ("(yield* (function*() {" +:+ body +:+ "})())")
              TYPE_UNKNOWN
    /\ g' = set_source (source g) g2
    /\ source g' = source g.
Proof.
  intros H. cbn [descendInput] in H.
  apply bind_Ok in H as (orig & g0 & E0 & H). injection E0 as <- <-.
  apply bind_Ok in H as ([] & g1 & E1 & H). injection E1 as <-.
  apply bind_Ok in H as ([] & g2 & E2 & H).
  pose proof (respects_descendStack _ _ _ _ _ _ E2) as (_ & _ & _ & body & S).
  apply bind_Ok in H as ([] & g3 & E3 & H).
  apply append_source_Ok in E3 as (s & g3' & E3 & ->). injection E3 as <- <-.
  apply bind_Ok in H as (stackSource & g4 & E4 & H). injection E4 as <- <-.
  apply bind_Ok in H as ([] & g5 & E5 & H). injection E5 as <-.
  injection H as <- <-.
  exists g2, body. cbn [source set_source] in *.
  split; [exact E2|]. split; [exact S|].
  split; [rewrite S, append_assoc; reflexivity|].
  split; reflexivity.
Qed.

Lemma inlineStackOutput_restores_the_source_witness :
  exists i g' g2 body,
    descendInput (control_inlineStackOutput [timer_reset]) sample_settings
      (new_JSGenerator (script sample_settings)) = Ok (i, g')
    /\ descendStack [timer_reset] (new_Frame false) sample_settings
         (set_source "(yield* (function*() {"
            (new_JSGenerator (script sample_settings))) = Ok (tt, g2)
    /\ source g2 = "(yield* (function*() {" +:+ body
    /\ i = TypedInput ("(yield* (function*() {" +:+ body +:+ "})())")
              TYPE_UNKNOWN
    /\ g' = set_source "" g2
    /\ source g' = "".
Proof.
  destruct (descendInput (control_inlineStackOutput [timer_reset])
              sample_settings (new_JSGenerator (script sample_settings)))
    as [[i g']|e] eqn:H; [|vm_compute in H; discriminate].
  destruct (inlineStackOutput_restores_the_source _ _ _ _ _ H)
    as (g2 & body & H1 & H2 & H3 & H4 & H5).
  exists i, g', g2, body. repeat split; assumption.
Defined.

(** What the inline stack of one [timer.reset] returns. *)
Example inlineStackOutput_sample :
  match descendInput (control_inlineStackOutput [timer_reset]) sample_settings
          (new_JSGenerator (script sample_settings)) with
  | Ok (TypedInput text _, g') => Some (text, source g')
  | _ => None
  end
  = Some ("(yield* (function*() {"
          +:+ "runtime.ioDevices.clock.resetProjectTimer();" +:+ nl
          +:+ "})())", "").
Proof. vm_compute. reflexivity. Qed.

(** X11: the lowering never drops or renames a setup variable: a source
    bound when it starts is bound to the same name when it returns, and
    no source is bound twice. *)
Theorem lowering_keeps_setup_variables (c : Settings) (g g' : JSGenerator) :
  lowers c g g' ->
  (forall src name,
     lookup_setup src (_setupVariables g) = Some name ->
     lookup_setup src (_setupVariables g') = Some name)
  /\ (NoDup (setup_keys g) -> NoDup (setup_keys g')).
Proof.
  intros H. apply lowers_lowered in H as (((more & E) & N & _) & _).
  split; [|exact N]. intros src name Hl. rewrite E.
  rewrite lookup_setup_app, Hl. reflexivity.
Qed.

Lemma lowering_keeps_setup_variables_witness :
  exists g',
    lowers sample_settings (new_JSGenerator (script sample_settings)) g'
    /\ (forall src name,
          lookup_setup src [] = Some name ->
          lookup_setup src (_setupVariables g') = Some name)
    /\ (NoDup (@nil string) -> NoDup (setup_keys g')).
Proof.
  destruct sample_stack_lowers as [g' H]. exists g'.
  assert (L : lowers sample_settings
                (new_JSGenerator (script sample_settings)) g')
    by exact (lowers_stack _ _ _ _ _ _ H).
  split; [exact L|].
  exact (lowering_keeps_setup_variables _ _ _ L).
Defined.

(** ** Yields at any depth of the script and the script header *)



























(** The methods below the lowering of a node throw neither of the two
    errors of a yield. *)
Lemma quiet_ret {A} (a : A) : quiet (ret a).
Proof. intros c g e H. discriminate. Qed.





Lemma quiet_bind {A B} (m : M A) (k : A -> M B) :
  quiet m -> (forall a, quiet (k a)) -> quiet (bind m k).
Proof.
  intros Hm Hk c g e H.
  apply bind_Throw_inv in H as [H|(a & g1 & _ & H)].
  - exact (Hm _ _ _ H).
  - exact (Hk _ _ _ _ H).
Qed.











Lemma quiet_mapM {A B} (f : A -> M B) (l : list A) :
  Forall (fun a => quiet (f a)) l -> quiet (mapM f l).
Proof.
  induction 1 as [|a l Ha _ IH]; cbn [mapM].
  - apply quiet_ret.
  - apply quiet_bind; [exact Ha|]. intros b.
    apply quiet_bind; [exact IH|]. intros bs. apply quiet_ret.
Qed.




























(** The factory is made unless the script is a procedure without a
    procedure code. *)
Lemma createScriptFactory_Throw c g p e :
  createScriptFactory c g p = Throw e ->
  e = TypeError /\ isProcedure c = true /\ procedureCode (script c) = None.
Proof.
  unfold createScriptFactory, getScriptName.
  destruct (getScriptFactoryName p) as [factoryName p1].
  destruct (if yields (script c) then _ else _) as [n p2].
  destruct (isProcedure c); [|discriminate].
  destruct (procedureCode (script c)); [discriminate|].
  intros [= <-]. auto.
Qed.



(** The error of the script above is the one of [yielded], thrown for
    the wait inside the loop, the block of [control.allAtOnce] and the
    branch. *)
Example compile_of_a_wait_without_the_header :
  compile
    (mkSettings
       (mkScript
          (Some [control_if (op_equals motion_x (constant (VString "0")))
                   [control_allAtOnce
                      [control_repeat (constant (VString "10"))
                         [control_wait (constant (VString "1"))]]]
                   []])
          false false false false [] None "top")
       ∅ false ∅)
    (mkPools (mkPool "factory" 0) (mkPool "fun" 0) (mkPool "gen" 0))
  = Throw (Error "Script yielded but is not marked as yielding.").
Proof. vm_compute. reflexivity. Qed.


(** ** Variable inputs during the lowering *)

Lemma respects_keeps {A} (m : M A) : respects m -> keeps m.
Proof. intros H c g a g' E. exact (proj1 (H _ _ _ _ E)). Qed.

Lemma keeps_set_source s : keeps (modify (set_source s)).
Proof. intros c g a g' [= _ <-]. apply kept_same; reflexivity. Qed.

Lemma keeps_set_isWarp b : keeps (modify (set_isWarp b)).
Proof. intros c g a g' [= _ <-]. apply kept_same; reflexivity. Qed.

Lemma keeps_set_isLastBlock idx b : keeps (set_isLastBlock idx b).
Proof. intros c g a g' [= _ <-]. apply kept_same; reflexivity. Qed.

Lemma keeps_enterStack frame : keeps (enterStack frame).
Proof.
  intros c g a g' E. rewrite enterStack_eq in E. injection E as _ <-.
  eapply kept_trans; [apply kept_reset|apply kept_same; reflexivity].
Qed.

Lemma no_overflow_bind {A B} V W (m : M A) (k : A -> M B) c g :
  keeps m -> no_overflow V m c g ->
  (forall a g', kept g g' -> V g' a -> no_overflow W (k a) c g') ->
  no_overflow W (bind m k) c g.
Proof.
  unfold no_overflow, bind. intros Hk Hm Hc.
  destruct (m c g) as [[a g1]|e] eqn:E; [|exact Hm].
  apply Hc; [exact (Hk _ _ _ _ E)|exact Hm].
Qed.

Lemma no_overflow_bind_any {A B} V W (m : M A) (k : A -> M B) c g :
  no_overflow V m c g ->
  (forall a g', V g' a -> no_overflow W (k a) c g') ->
  no_overflow W (bind m k) c g.
Proof.
  unfold no_overflow, bind. intros Hm Hc.
  destruct (m c g) as [[a g1]|e] eqn:E; [|exact Hm].
  apply Hc; exact Hm.
Qed.

Lemma no_overflow_append_source (e : M string) c g :
  no_overflow anything e c g -> no_overflow anything (append_source e) c g.
Proof.
  unfold no_overflow, append_source.
  destruct (e c g) as [[s g1]|x]; [intros _; exact I|auto].
Qed.

Lemma no_overflow_with_object {A} a (f : VariableInput -> A) c g :
  no_overflow anything (with_object a f) c g.
Proof.
  unfold no_overflow, with_object.
  destruct (objects g !! a); [exact I|discriminate].
Qed.

Lemma no_overflow_asNumber i c g : no_overflow anything (asNumber i) c g.
Proof.
  destruct i; try apply no_overflow_with_object;
    cbv [no_overflow asNumber ret throw]; first [exact I|discriminate].
Qed.

Lemma no_overflow_asNumberOrNaN i c g :
  no_overflow anything (asNumberOrNaN i) c g.
Proof.
  destruct i; try apply no_overflow_with_object;
    cbv [no_overflow asNumberOrNaN ret throw]; first [exact I|discriminate].
Qed.

Lemma no_overflow_asString i c g : no_overflow anything (asString i) c g.
Proof.
  destruct i; try apply no_overflow_with_object;
    cbv [no_overflow asString ret throw]; first [exact I|discriminate].
Qed.

Lemma no_overflow_asBoolean i c g : no_overflow anything (asBoolean i) c g.
Proof.
  destruct i; try apply no_overflow_with_object;
    cbv [no_overflow asBoolean ret throw]; first [exact I|discriminate].
Qed.

Lemma no_overflow_asUnknown i c g : no_overflow anything (asUnknown i) c g.
Proof.
  destruct i; try apply no_overflow_with_object;
    cbv [no_overflow asUnknown ret throw]; first [exact I|discriminate].
Qed.

Lemma no_overflow_asSafe i c g : no_overflow anything (asSafe i) c g.
Proof.
  destruct i; try apply no_overflow_with_object;
    cbv [no_overflow asSafe ret throw]; first [exact I|discriminate].
Qed.

Lemma no_overflow_source_of i c g : no_overflow anything (source_of i) c g.
Proof.
  destruct i; try apply no_overflow_with_object;
    cbv [no_overflow source_of ret throw]; first [exact I|discriminate].
Qed.

Lemma no_overflow_analysis typed const i c g :
  store_ok g -> valid_input g i ->
  no_overflow anything (analysis (fun fuel => analyse fuel typed const) i) c g.
Proof.
  intros [Hv _] Hi. unfold no_overflow, analysis.
  destruct i as [s t|v safe|a|]; [exact I|exact I| |discriminate].
  unfold valid_input in Hi. cbn [address] in Hi.
  destruct (analyse_returns typed const (objects g) a
              (S (length (objects g))) Hv) as [b ->]; [lia|lia|exact I].
Qed.

Lemma no_overflow_setInput v value c g :
  no_overflow anything (setInput v value) c g.
Proof.
  destruct v; cbv [no_overflow setInput modify throw];
    first [exact I|discriminate].
Qed.

Lemma no_overflow_evaluateOnce src c g :
  no_overflow anything (evaluateOnce src) c g.
Proof.
  unfold no_overflow, evaluateOnce.
  destruct (lookup_setup "hasOwnProperty" (_setupVariables g));
    [discriminate|].
  destruct (if String.eqb src "__proto__" then None
            else lookup_setup src (_setupVariables g)); [exact I|].
  destruct (VariablePool_next (_setupVariablesPool g)). exact I.
Qed.

Lemma no_overflow_referenceVariable v c g :
  no_overflow anything (referenceVariable v) c g.
Proof.
  unfold referenceVariable. destruct (String.eqb _ _);
    apply no_overflow_evaluateOnce.
Qed.

Lemma no_overflow_next_local c g : no_overflow anything next_local c g.
Proof.
  unfold no_overflow, next_local.
  destruct (VariablePool_next (localVariables g)). exact I.
Qed.

Lemma no_overflow_descendVariable v c g :
  store_ok g -> no_overflow valid_input (descendVariable v) c g.
Proof.
  intros [_ Ht]. unfold no_overflow.
  destruct (descendVariable v c g) as [[i g1]|e] eqn:H.
  - unfold descendVariable in H.
    apply bind_Ok in H as (broken & g0 & E0 & H). injection E0 as <- <-.
    destruct (variableInputs g !! "hasOwnProperty"); [discriminate|].
    apply bind_Ok in H as (known & g0 & E0 & H). injection E0 as <- <-.
    destruct (if String.eqb (var_id v) "__proto__" then None
              else variableInputs g !! var_id v) as [a|] eqn:Hk.
    + injection H as <- <-. unfold valid_input. cbn [address].
      destruct (String.eqb (var_id v) "__proto__"); [discriminate|].
      specialize (Ht _ _ Hk). lia.
    + apply bind_Ok in H as (r & g2 & Er & H). cbv beta in H.
      apply referenceVariable_store in Er as (_ & Eo).
      unfold bind, get, modify, ret in H.
      destruct (String.eqb (var_id v) "__proto__");
        injection H as <- <-; unfold valid_input;
        cbn [address objects set_objects set_variableInputs];
        rewrite length_app; cbn [length]; lia.
  - unfold descendVariable in H.
    unfold bind at 1, get at 1 in H. cbv beta iota in H.
    destruct (variableInputs g !! "hasOwnProperty");
      [injection H as <-; discriminate|].
    unfold bind at 1, get at 1 in H. cbv beta iota in H.
    destruct (if String.eqb (var_id v) "__proto__" then None
              else variableInputs g !! var_id v) as [a|]; [discriminate|].
    apply bind_Throw_inv in H as [H|(r & g2 & Er & H)].
    + pose proof (no_overflow_referenceVariable v c g) as N.
      unfold no_overflow in N. rewrite H in N. exact N.
    + unfold bind, get, modify, ret in H.
      destruct (String.eqb (var_id v) "__proto__"); discriminate.
Qed.

Lemma no_overflow_safeConstantInput v c g :
  no_overflow valid_input (safeConstantInput v) c g.
Proof. cbv [no_overflow safeConstantInput bind ask ret valid_input address]. lia. Qed.

Lemma no_overflow_ret {A} (a : A) c g : no_overflow anything (ret a) c g.
Proof. exact I. Qed.

Lemma no_overflow_get {A} (f : JSGenerator -> A) c g :
  no_overflow anything (get f) c g.
Proof. exact I. Qed.

Lemma no_overflow_ask {A} (f : Settings -> A) c g :
  no_overflow anything (ask f) c g.
Proof. exact I. Qed.

Lemma no_overflow_modify f c g : no_overflow anything (modify f) c g.
Proof. exact I. Qed.

Lemma no_overflow_emit s c g : no_overflow anything (emit s) c g.
Proof. exact I. Qed.

Lemma no_overflow_throw {A} V e c g :
  e <> RangeError -> no_overflow V (@throw A e) c g.
Proof. intros H. exact H. Qed.

Lemma no_overflow_input V i c g :
  match i with VariableRef _ => False | _ => True end ->
  V = valid_input -> no_overflow V (ret i) c g.
Proof.
  intros Hi ->. unfold no_overflow, ret, valid_input.
  destruct i; cbn [address]; first [lia|contradiction].
Qed.

Ltac solve_respects :=
  solve [repeat resp_with respects_descendInput respects_descendStackedBlock
           respects_generateCompatibilityLayerCall].

Ltac solve_keeps :=
  first [ apply keeps_set_source | apply keeps_set_isWarp
        | apply keeps_set_isLastBlock | apply keeps_enterStack
        | apply respects_keeps; solve_respects ].

Ltac digest :=
  repeat match goal with
  | K : kept ?g ?g', H : store_ok ?g |- _ =>
      let H' := fresh "Hok" in
      let L := fresh "Hlen" in
      destruct K as (_ & _ & H' & L); specialize (H' H)
  end.

Ltac valid := unfold valid_input in *; cbn [address]; lia.

Ltac safe_step :=
  lazymatch goal with
  | |- no_overflow _ (bind ?m _) _ _ =>
      let T := type of m in
      first
      [ unify T (M Input); eapply (no_overflow_bind valid_input)
      | eapply (no_overflow_bind anything) ];
      [solve_keeps| |intros ? ? ? ?; digest]
  | |- no_overflow anything (ret _) _ _ => exact I
  | |- no_overflow _ (ret _) _ _ =>
      apply no_overflow_input; [exact I|reflexivity]
  | |- no_overflow _ (typed _ _) _ _ =>
      apply no_overflow_input; [exact I|reflexivity]
  | |- no_overflow _ (throw _) _ _ => apply no_overflow_throw; discriminate
  | |- no_overflow _ (get _) _ _ => exact I
  | |- no_overflow _ (ask _) _ _ => exact I
  | |- no_overflow _ (modify _) _ _ => exact I
  | |- no_overflow _ (emit _) _ _ => exact I
  | |- no_overflow _ resetVariableInputs _ _ => exact I
  | |- no_overflow _ requestRedraw _ _ => exact I
  | |- no_overflow _ (append_source _) _ _ => apply no_overflow_append_source
  | |- no_overflow _ (asNumber _) _ _ => apply no_overflow_asNumber
  | |- no_overflow _ (asNumberOrNaN _) _ _ => apply no_overflow_asNumberOrNaN
  | |- no_overflow _ (asString _) _ _ => apply no_overflow_asString
  | |- no_overflow _ (asBoolean _) _ _ => apply no_overflow_asBoolean
  | |- no_overflow _ (asUnknown _) _ _ => apply no_overflow_asUnknown
  | |- no_overflow _ (asSafe _) _ _ => apply no_overflow_asSafe
  | |- no_overflow _ (source_of _) _ _ => apply no_overflow_source_of
  | |- no_overflow _ (isAlwaysNumber _) _ _ =>
      apply no_overflow_analysis; [assumption|valid]
  | |- no_overflow _ (isAlwaysNumberOrNaN _) _ _ =>
      apply no_overflow_analysis; [assumption|valid]
  | |- no_overflow _ (isNeverNumber _) _ _ =>
      apply no_overflow_analysis; [assumption|valid]
  | |- no_overflow _ next_local _ _ => apply no_overflow_next_local
  | |- no_overflow _ (evaluateOnce _) _ _ => apply no_overflow_evaluateOnce
  | |- no_overflow _ (referenceVariable _) _ _ =>
      apply no_overflow_referenceVariable
  | |- no_overflow _ (setInput _ _) _ _ => apply no_overflow_setInput
  | |- no_overflow _ (descendVariable _) _ _ =>
      apply no_overflow_descendVariable; assumption
  | |- no_overflow _ (safeConstantInput _) _ _ =>
      apply no_overflow_safeConstantInput
  | |- no_overflow _ (if ?b then _ else _) _ _ => destruct b
  | |- no_overflow _ (match ?x with _ => _ end) _ _ => destruct x
  end.

Lemma no_overflow_retire c g : no_overflow anything retire c g.
Proof. unfold retire. repeat safe_step. Qed.

Lemma no_overflow_yielded c g : no_overflow anything yielded c g.
Proof. unfold yielded. repeat safe_step. Qed.

Lemma no_overflow_yieldNotWarp c g : no_overflow anything yieldNotWarp c g.
Proof. unfold yieldNotWarp. repeat safe_step. apply no_overflow_yielded. Qed.

Lemma no_overflow_yieldStuckOrNotWarp c g :
  no_overflow anything yieldStuckOrNotWarp c g.
Proof.
  unfold yieldStuckOrNotWarp. repeat safe_step; apply no_overflow_yielded.
Qed.

Lemma no_overflow_yieldLoop c g : no_overflow anything yieldLoop c g.
Proof.
  unfold yieldLoop. repeat safe_step;
    [apply no_overflow_yieldStuckOrNotWarp|apply no_overflow_yieldNotWarp].
Qed.

Lemma no_overflow_compat_field f c g :
  store_ok g -> no_overflow anything (compat_field f descendVariable) c g.
Proof. intros Hok. unfold compat_field. repeat safe_step. Qed.

Lemma no_overflow_mapM {A B} (f : A -> M B) (l : list A) :
  (forall a, respects (f a)) ->
  Forall (fun a => forall c g, store_ok g -> no_overflow anything (f a) c g) l ->
  forall c g, store_ok g -> no_overflow anything (mapM f l) c g.
Proof.
  intros Hr. induction 1 as [|a l Ha _ IH]; intros c g Hok; cbn [mapM].
  - exact I.
  - eapply (no_overflow_bind anything);
      [apply respects_keeps, Hr|apply Ha, Hok|].
    intros b g1 K _. digest.
    eapply (no_overflow_bind_any anything); [apply IH; assumption|].
    intros bs g2 _. exact I.
Qed.

Lemma no_overflow_descendStack_with (f : stmt -> M unit) nodes frame :
  (forall n, respects (f n)) ->
  Forall (fun n => forall c g, store_ok g -> no_overflow anything (f n) c g)
    nodes ->
  forall c g, store_ok g ->
    no_overflow anything (descendStack_with f nodes frame) c g.
Proof.
  intros Hr HF c g Hok. unfold descendStack_with.
  eapply (no_overflow_bind anything); [apply keeps_enterStack|exact I|].
  intros idx g1 K _. digest.
  eapply (no_overflow_bind_any anything); [|intros; exact I].
  clear Hok Hlen. revert g1 Hok0.
  induction HF as [|node rest Hn _ IH]; intros g1 Hok; [exact I|].
  eapply (no_overflow_bind anything);
    [apply keeps_set_isLastBlock|exact I|].
  intros [] g2 K _. digest.
  eapply (no_overflow_bind anything);
    [apply respects_keeps, Hr|apply Hn; assumption|].
  intros [] g3 K _. digest. apply IH. assumption.
Qed.

Ltac safe_with di ds dc :=
  first
  [ match goal with
    | IH : forall (g : JSGenerator) (res : string), _ |- _ =>
        apply IH; assumption
    end
  | lazymatch goal with
    | |- no_overflow _ (descendInput _) _ _ => apply di; assumption
    | |- no_overflow _ (descendStackedBlock _) _ _ => apply ds; assumption
    | |- no_overflow _ (generateCompatibilityLayerCall _ _) _ _ =>
        apply dc; assumption
    | |- no_overflow _ (compat_field _ _) _ _ =>
        apply no_overflow_compat_field; assumption
    | |- no_overflow _ retire _ _ => apply no_overflow_retire
    | |- no_overflow _ yielded _ _ => apply no_overflow_yielded
    | |- no_overflow _ yieldNotWarp _ _ => apply no_overflow_yieldNotWarp
    | |- no_overflow _ yieldStuckOrNotWarp _ _ =>
        apply no_overflow_yieldStuckOrNotWarp
    | |- no_overflow _ yieldLoop _ _ => apply no_overflow_yieldLoop
    | |- no_overflow _ (mapM _ _) _ _ =>
        apply no_overflow_mapM; [intros ?; solve_respects| |assumption]
    | |- no_overflow _ (descendStack_with _ _ _) _ _ =>
        apply no_overflow_descendStack_with;
        [intros ?; solve_respects| |assumption]
    | |- Forall _ [] => constructor
    | |- Forall _ (_ :: _) => constructor; [cbv beta; intros ? ? ?|]
    | |- Forall _ ?l =>
        let IH := fresh "IH" in
        induction l as [|? ? IH]; constructor;
        [cbv beta; intros ? ? ?|exact IH]
    | |- _ =>
        first
        [ safe_step
        | lazymatch goal with
          | H : store_ok ?g |- no_overflow _ (?f ?args ?r) _ ?g =>
              is_fix f;
              let IH := fresh "IH" in
              revert H; generalize r; generalize g;
              induction args as [|[? ?] ? IH]; intros ? ? ?;
              cbv beta iota fix
          end ]
    end ].

(** From a well-formed store, the variable input that [descendInput]
    returns is an object of the store, and no analysis runs out of
    calls; by induction on the node. *)
Lemma no_overflow_descendInput (node : expr) :
  forall c g, store_ok g -> no_overflow valid_input (descendInput node) c g
with no_overflow_descendStackedBlock (node : stmt) :
  forall c g, store_ok g ->
    no_overflow anything (descendStackedBlock node) c g
with no_overflow_generateCompatibilityLayerCall (node : compat) (b : bool) :
  forall c g, store_ok g ->
    no_overflow anything (generateCompatibilityLayerCall node b) c g.
Proof.
  - destruct node; intros c g Hok; cbn [descendInput]; cbv zeta;
      repeat safe_with no_overflow_descendInput no_overflow_descendStackedBlock
        no_overflow_generateCompatibilityLayerCall.
  - destruct node; intros c g Hok; cbn [descendStackedBlock]; cbv zeta;
      repeat safe_with no_overflow_descendInput no_overflow_descendStackedBlock
        no_overflow_generateCompatibilityLayerCall.
  - destruct node; intros c g Hok; cbn [generateCompatibilityLayerCall];
      cbv zeta;
      repeat safe_with no_overflow_descendInput no_overflow_descendStackedBlock
        no_overflow_generateCompatibilityLayerCall.
Qed.

Lemma no_overflow_descendStack nodes frame c g :
  store_ok g -> no_overflow anything (descendStack nodes frame) c g.
Proof.
  intros Hok. apply no_overflow_descendStack_with; [|  |exact Hok].
  - apply respects_descendStackedBlock.
  - apply Forall_forall. intros n _. apply no_overflow_descendStackedBlock.
Qed.

Lemma no_overflow_Throw {A} V (m : M A) c g :
  no_overflow V m c g -> m c g <> Throw RangeError.
Proof. unfold no_overflow. intros H E. rewrite E in H. exact (H eq_refl). Qed.

Lemma store_ok_new script : store_ok (new_JSGenerator script).
Proof.
  split.
  - intros a o i H. cbn in H. discriminate.
  - intros k a H. cbn in H. rewrite lookup_empty in H. discriminate.
Qed.

(** X12: from a store in which no [_value] is a variable input and the
    tracker holds objects of the store only, the lowering returns in
    such a store, with no object removed; and a variable input that
    [descendInput] returns is an object of the store. *)
Theorem lowering_keeps_the_store (c : Settings) (g g' : JSGenerator) :
  store_ok g ->
  (lowers c g g' ->
   store_ok g' /\ (length (objects g) <= length (objects g'))%nat)
  /\ (forall node a,
        descendInput node c g = Ok (VariableRef a, g') ->
        (a < length (objects g'))%nat).
Proof.
  intros Hok. split.
  - intros H. apply lowers_lowered in H as ((_ & _ & S & L) & _). auto.
  - intros node a H.
    pose proof (no_overflow_descendInput node c g Hok) as V.
    unfold no_overflow in V. rewrite H in V.
    unfold valid_input in V. cbn [address] in V. lia.
Qed.

Lemma lowering_keeps_the_store_witness :
  exists g',
    store_ok (new_JSGenerator (script sample_settings))
    /\ descendInput (var_get sample_variable) sample_settings
         (new_JSGenerator (script sample_settings)) = Ok (VariableRef 0, g')
    /\ (0 < length (objects g'))%nat.
Proof.
  destruct (descendInput (var_get sample_variable) sample_settings
              (new_JSGenerator (script sample_settings)))
    as [[i g']|e] eqn:H; [|vm_compute in H; discriminate].
  assert (i = VariableRef 0) as -> by (vm_compute in H; congruence).
  exists g'. split; [apply store_ok_new|]. split; [reflexivity|].
  exact (proj2 (lowering_keeps_the_store sample_settings _ g'
                  (store_ok_new _)) _ _ H).
Defined.

(** X13: no analysis of a variable input recurses without end during the
    lowering: from a well-formed store, and so in every [compile], the
    [RangeError] of an analysis that does not return is never thrown. *)
Theorem analyses_return_during_a_compile (c : Settings) :
  (forall g, store_ok g ->
     (forall node, descendInput node c g <> Throw RangeError)
     /\ (forall node, descendStackedBlock node c g <> Throw RangeError)
     /\ (forall nodes frame, descendStack nodes frame c g <> Throw RangeError))
  /\ (forall p, compile c p <> Throw RangeError).
Proof.
  split.
  - intros g Hok. split; [|split].
    + intros node. eapply no_overflow_Throw, no_overflow_descendInput, Hok.
    + intros node.
      eapply no_overflow_Throw, no_overflow_descendStackedBlock, Hok.
    + intros nodes frame.
      eapply no_overflow_Throw, no_overflow_descendStack, Hok.
  - intros p. unfold compile.
    assert (Hf : forall g, createScriptFactory c g p <> Throw RangeError).
    { intros g E. apply createScriptFactory_Throw in E as (E & _).
      discriminate E. }
    destruct (stack (script c)) as [nodes|]; [|apply Hf].
    pose proof (no_overflow_descendStack nodes (new_Frame false) c
                  (new_JSGenerator (script c)) (store_ok_new _)) as H.
    unfold no_overflow in H.
    destruct (descendStack nodes (new_Frame false) c
                (new_JSGenerator (script c))) as [[u g']|e];
      [apply Hf|congruence].
Qed.

Lemma analyses_return_during_a_compile_witness :
  store_ok (new_JSGenerator (script sample_settings))
  /\ descendStack sample_stack (new_Frame false) sample_settings
       (new_JSGenerator (script sample_settings)) <> Throw RangeError.
Proof.
  split; [apply store_ok_new|].
  exact (proj2 (proj2 (proj1 (analyses_return_during_a_compile sample_settings)
                         _ (store_ok_new _))) sample_stack (new_Frame false)).
Defined.

(** ** Substacks of compatibility-layer blocks *)

(** X14: for a stacked compatibility-layer block whose only input is a
    substack, the source is extended by the call alone, in which the
    substack is a generator function with an empty body: [this.source]
    was read before the call was generated, so what the statements of
    the substack wrote is overwritten.  The flag passed is the answer
    of [isLastBlockInLoop] before the call. *)
Theorem substack_of_a_compatibility_block_is_dropped
    (opcode name mutation : string) (nodes : list stmt)
    (c : Settings) (g g' : JSGenerator) (u : unit) :
  startsWith name "substack" = true ->
  descendStackedBlock
    (compat_stacked (compat_node opcode [(name, substack nodes)] [] mutation))
    c g = Ok (u, g') ->
  exists opcodeFunction,
    source g' =
      source g
      +:+ substack_call_text name mutation opcodeFunction (isWarp g)
            (isLastBlockInLoop g)
      +:+ ";" +:+ nl
      +:+ (if isLastBlockInLoop g
           then "if (hasResumedFromPromise) {hasResumedFromPromise = false;continue;}"
                +:+ nl
           else "").
Proof.
  intros Hn H. cbn [descendStackedBlock] in H.
  apply bind_Ok in H as (isLast & g0 & E0 & H). injection E0 as <- <-.
  apply bind_Ok in H as ([] & g1 & E1 & H).
  apply append_source_Ok in E1 as (s & g2 & E1 & ->).
  apply bind_Ok in E1 as (call & g3 & E1 & E2). injection E2 as <- <-.
  cbn [generateCompatibilityLayerCall] in E1. rewrite Hn in E1.
  apply bind_Ok in E1 as (res & g4 & E1 & E2).
  apply bind_Ok in E1 as ([] & g5 & E1 & E3). injection E3 as <- <-.
  apply respects_descendStack_with in E1;
    [|apply Forall_forall; intros n _; apply respects_descendStackedBlock].
  destruct E1 as (_ & _ & W & _).
  apply bind_Ok in E2 as (res' & g6 & E2 & E3). injection E2 as <- <-.
  apply bind_Ok in E3 as (f & g7 & E3 & E4).
  apply respects_evaluateOnce in E3 as (_ & _ & W' & _).
  injection E4 as <- <-.
  exists f. rewrite W', W in H. unfold substack_call_text.
  destruct (isLastBlockInLoop g).
  - rewrite emit_eq in H. injection H as _ <-. cbn [source set_source].
    rewrite !append_assoc. reflexivity.
  - injection H as _ <-. cbn [source set_source].
    rewrite !append_assoc, append_empty. reflexivity.
Qed.

Lemma substack_of_a_compatibility_block_is_dropped_witness :
  let node :=
    compat_stacked
      (compat_node "control_forever" [("substack", substack [timer_reset])] []
         "null") in
  exists g',
    descendStackedBlock node sample_settings
      (new_JSGenerator (script sample_settings)) = Ok (tt, g')
    /\ exists opcodeFunction,
         source g' =
           "" +:+ substack_call_text "substack" "null" opcodeFunction false false
           +:+ ";" +:+ nl +:+ "".
Proof.
  intros node.
  destruct (descendStackedBlock node sample_settings
              (new_JSGenerator (script sample_settings)))
    as [[[] g']|e] eqn:H; [|vm_compute in H; discriminate].
  exists g'. split; [reflexivity|].
  exact (substack_of_a_compatibility_block_is_dropped "control_forever"
           "substack" "null" [timer_reset] _ _ _ _ eq_refl H).
Defined.

Example substack_is_dropped_sample :
  let node :=
    compat_stacked
      (compat_node "control_forever" [("substack", substack [timer_reset])] []
         "null") in
  match descendStackedBlock node sample_settings
          (new_JSGenerator (script sample_settings)) with
  | Ok (_, g') => source g'
  | Throw _ => "throws"
  end
  = "yield* executeInCompatibilityLayer({" +:+ dq +:+ "substack" +:+ dq
    +:+ ":(function* () {" +:+ nl +:+ "})," +:+ dq +:+ "mutation" +:+ dq
    +:+ ":null,}, b0, false, false, null);" +:+ nl.
Proof. vm_compute. reflexivity. Qed.

(** ** The last block of a stack *)

(** The loop of [descendStack] on a stack that is not empty: the last
    block is lowered with the frame of the stack marked as at its last
    block, after the blocks before it only added to the source. *)
Lemma stack_loop_last (f : stmt -> M unit) (before : list stmt) (x : stmt) :
  (forall n, respects (f n)) ->
  forall F fr c g g2,
    frames g = (F ++ [fr])%list ->
    (fix loop (l : list stmt) : M unit :=
       match l with
       | [] => ret tt
       | node :: rest =>
           bind (set_isLastBlock (length F)
                   (match rest with [] => true | _ => false end))
             (fun _ => bind (f node) (fun _ => loop rest))
       end) (before ++ [x])%list c g = Ok (tt, g2) ->
    exists gb,
      (exists s, source gb = source g +:+ s)
      /\ frames gb = (F ++ [mkFrame (isLoop fr) true])%list
      /\ f x c gb = Ok (tt, g2).
Proof.
  intros Hr. induction before as [|b rest IH]; intros F fr c g g2 HF H.
  - cbn [app] in H.
    apply bind_Ok in H as ([] & g1 & E1 & H). injection E1 as <-.
    apply bind_Ok in H as ([] & g3 & E2 & H). injection H as <-.
    exists (set_frames
              (alter (fun f => mkFrame (isLoop f) true) (length F) (frames g))
              g).
    split; [exists ""; rewrite append_empty; reflexivity|].
    split; [|exact E2].
    cbn [frames set_frames]. rewrite HF, alter_app_r_alt by lia.
    rewrite Nat.sub_diag. reflexivity.
  - cbn [app] in H.
    apply bind_Ok in H as ([] & g1 & E1 & H). injection E1 as <-.
    apply bind_Ok in H as ([] & g3 & E2 & H).
    destruct (Hr b _ _ _ _ E2) as (_ & Fr & _ & s & S).
    cbn [frames set_frames source] in Fr, S.
    rewrite HF, alter_app_r_alt in Fr by lia.
    rewrite Nat.sub_diag in Fr. cbn [alter list_alter] in Fr.
    destruct (IH F _ c g3 g2 Fr H) as (gb & (s' & S') & Fb & Hx).
    exists gb. split; [|split; [exact Fb|exact Hx]].
    exists (s +:+ s'). rewrite S', S, append_assoc. reflexivity.
Qed.

(** X21: when the last block of a stack is a compatibility-layer block,
    it is lowered as the last block in a loop exactly when the stack is
    the body of a loop or is itself lowered as the last block in a loop:
    then the call is generated with [setFlags] true and the line that
    continues the loop follows it, and otherwise neither; the source
    ends with this text. *)
Theorem last_compat_block_of_a_stack (before : list stmt) (node : compat)
    (loop : bool) (c : Settings) (g g' : JSGenerator) (u : unit) :
  descendStack (before ++ [compat_stacked node])%list (new_Frame loop) c g
    = Ok (u, g') ->
  let last := loop || isLastBlockInLoop g in
  exists written call g1 g2,
    generateCompatibilityLayerCall node last c g1 = Ok (call, g2)
    /\ source g' =
         source g +:+ written +:+ call +:+ ";" +:+ nl
         +:+ (if last then continue_line else "").
Proof.
  intros H last. unfold descendStack, descendStack_with in H.
  apply bind_Ok in H as (idx & g1 & E & H).
  rewrite enterStack_eq in E. injection E as <- <-.
  apply bind_Ok in H as ([] & g2 & L & H).
  rewrite leaveStack_eq in H. injection H as _ <-.
  eapply (stack_loop_last descendStackedBlock before _
            respects_descendStackedBlock (frames g) (new_Frame loop)) in L;
    [|reflexivity].
  destruct L as (gb & (written & S) & Fb & Hx).
  cbn [source set_frames set_variableInputs] in S.
  cbn [descendStackedBlock] in Hx.
  apply bind_Ok in Hx as (isLast & g0 & E0 & Hx). injection E0 as <- <-.
  assert (Hl : isLastBlockInLoop gb = last).
  { unfold isLastBlockInLoop. rewrite Fb, rev_app_distr. cbn.
    destruct loop; reflexivity. }
  rewrite Hl in Hx.
  apply bind_Ok in Hx as ([] & g3 & E1 & Hx).
  apply append_source_Ok in E1 as (s & g4 & E1 & ->).
  apply bind_Ok in E1 as (call & g5 & E1 & E2). injection E2 as <- <-.
  exists written, call, gb, g5. split; [exact E1|].
  cbn [source set_frames set_variableInputs].
  destruct last.
  - rewrite emit_eq in Hx. injection Hx as <-. cbn [source set_source].
    rewrite S. unfold continue_line. rewrite !append_assoc. reflexivity.
  - injection Hx as <-. cbn [source set_source].
    rewrite S, !append_assoc, append_empty. reflexivity.
Qed.

Lemma last_compat_block_of_a_stack_witness :
  let node := compat_node "motion_glideto" [] [] "null" in
  exists g' written call g1 g2,
    descendStack ([timer_reset] ++ [compat_stacked node])%list (new_Frame true)
      sample_settings (new_JSGenerator (script sample_settings)) = Ok (tt, g')
    /\ generateCompatibilityLayerCall node true sample_settings g1
       = Ok (call, g2)
    /\ source g' =
         "" +:+ written +:+ call +:+ ";" +:+ nl +:+ continue_line.
Proof.
  intros node.
  destruct (descendStack ([timer_reset] ++ [compat_stacked node])%list
              (new_Frame true) sample_settings
              (new_JSGenerator (script sample_settings)))
    as [[[] g']|e] eqn:H; [|vm_compute in H; discriminate].
  destruct (last_compat_block_of_a_stack _ _ _ _ _ _ _ H)
    as (written & call & g1 & g2 & Hc & Hs).
  exists g', written, call, g1, g2. split; [reflexivity|].
  split; [exact Hc|exact Hs].
Defined.

(** ** Names of scripts *)

Lemma remove_unsafe_word (s : string) :
  all_chars is_word_char (remove_unsafe s) = true.
Proof.
  induction s as [|c s IH]; [reflexivity|]. cbn [remove_unsafe all_chars].
  rewrite IH, andb_true_r.
  destruct (is_word_char c && negb (code c =? 95)) eqn:H; [|reflexivity].
  apply andb_true_iff in H as [H _]. exact H.
Qed.

Lemma split_at_prefix (p : ascii -> bool) (n : nat) (s : string) :
  all_chars p s = true ->
  all_chars p (fst (split_at n s)) = true
  /\ (String.length (fst (split_at n s)) <= n)%nat.
Proof.
  revert s. induction n as [|n IH]; intros s H.
  - destruct s; cbn; split; [reflexivity|lia|reflexivity|lia].
  - destruct s as [|c s]; cbn; [split; [reflexivity|lia]|].
    cbn in H. apply andb_true_iff in H as [Hc Hs].
    destruct (IH s Hs) as [H1 H2].
    destruct (split_at n s) as [a b]. cbn in *. rewrite Hc, H1.
    split; [reflexivity|lia].
Qed.

(** X15: for a procedure with a procedure code, [getScriptName] returns;
    the name is the next name of the pool of generators or of functions,
    an underscore, and at most 20 characters that are all letters, digits
    or underscores.  For a procedure without a procedure code it throws
    a [TypeError]. *)
Theorem getScriptName_of_a_procedure (c : Settings) (yields : bool)
    (p : NamePools) :
  isProcedure c = true ->
  (forall code,
     procedureCode (script c) = Some code ->
     exists simplified,
       getScriptName c yields p
       = Ok (fst (VariablePool_next
                    (if yields then generatorNameVariablePool p
                     else functionNameVariablePool p))
             +:+ "_" +:+ simplified,
             if yields
             then mkPools (factoryNameVariablePool p)
                    (functionNameVariablePool p)
                    (snd (VariablePool_next (generatorNameVariablePool p)))
             else mkPools (factoryNameVariablePool p)
                    (snd (VariablePool_next (functionNameVariablePool p)))
                    (generatorNameVariablePool p))
       /\ all_chars is_word_char simplified = true
       /\ (String.length simplified <= 20)%nat)
  /\ (procedureCode (script c) = None ->
      getScriptName c yields p = Throw TypeError).
Proof.
  intros Hp. unfold getScriptName. rewrite Hp. split.
  - intros code ->.
    destruct (split_at_prefix is_word_char 20
                (remove_unsafe (remove_arguments code))
                (remove_unsafe_word _)) as [H1 H2].
    eexists. split; [|split; [exact H1|exact H2]].
    destruct yields; destruct (VariablePool_next _); reflexivity.
  - intros ->. destruct yields; destruct (VariablePool_next _); reflexivity.
Qed.

Lemma getScriptName_of_a_procedure_witness :
  let c := mkSettings
             (mkScript None false true true false [] (Some "move %s steps; go()") "")
             ∅ false ∅ in
  let p := mkPools (mkPool "factory" 0) (mkPool "fun" 0) (mkPool "gen" 0) in
  isProcedure c = true
  /\ procedureCode (script c) = Some "move %s steps; go()"
  /\ exists simplified,
       getScriptName c true p
       = Ok ("gen0" +:+ "_" +:+ simplified,
             mkPools (mkPool "factory" 0) (mkPool "fun" 0) (mkPool "gen" 1))
       /\ all_chars is_word_char simplified = true
       /\ (String.length simplified <= 20)%nat.
Proof.
  intros c p. split; [reflexivity|]. split; [reflexivity|].
  exact (proj1 (getScriptName_of_a_procedure c true p eq_refl) _ eq_refl).
Defined.

Example getScriptName_sample :
  getScriptName
    (mkSettings
       (mkScript None false true true false []
          (Some "move %s steps; go() and then some more") "")
       ∅ false ∅)
    true (mkPools (mkPool "factory" 0) (mkPool "fun" 0) (mkPool "gen" 0))
  = Ok ("gen0_move__steps__go___an",
        mkPools (mkPool "factory" 0) (mkPool "fun" 0) (mkPool "gen" 1)).
Proof. vm_compute. reflexivity. Qed.

(** ** Interpolation of the position, the ghost effect and the direction *)

Section MoreInterpolateProperties.

Variable Math_sin Math_cos : Number -> Number.
Variable Math_atan2 : Number -> Number -> Number.
Variable Math_PI : Number.

Lemma interpolateTarget_position_ghost target d call :
  In call (interpolateTarget Math_sin Math_cos Math_atan2 Math_PI target d) ->
  match call with
  | updateDrawablePosition id position =>
      id = drawableID target
      /\ Number_gt (x_distance target d) n_0_1
         || Number_gt (y_distance target d) n_0_1 = true
      /\ Number_lt (x_distance target d) (x_tolerance target) = true
      /\ Number_lt (y_distance target d) (y_tolerance target) = true
      /\ position =
           (Number_div (Number_add (i_x d) (t_x target)) n_2,
            Number_div (Number_add (i_y d) (t_y target)) n_2)
  | updateDrawableEffect id effect value =>
      id = drawableID target /\ effect = "ghost"
      /\ Number_gt (ghost_change target d) n_0 = true
      /\ Number_lt (ghost_change target d) n_25 = true
      /\ value = Number_div (Number_add (effects_ghost target) (i_ghost d)) n_2
  | updateDrawableDirectionScale _ _ _ => True
  end.
Proof.
  intros H. unfold interpolateTarget in H.
  fold (x_distance target d) (y_distance target d) (x_tolerance target)
    (y_tolerance target) (ghost_change target d) in H.
  apply in_app_or in H as [H|H].
  { destruct (Number_gt (x_distance target d) n_0_1
              || Number_gt (y_distance target d) n_0_1) eqn:H1; [|destruct H].
    destruct (Number_lt (x_distance target d) (x_tolerance target)
              && Number_lt (y_distance target d) (y_tolerance target)) eqn:H2;
      [|destruct H].
    apply andb_true_iff in H2 as [H2 H3].
    destruct H as [<-|[]]. auto. }
  apply in_app_or in H as [H|H].
  { destruct (Number_gt (ghost_change target d) n_0
              && Number_lt (ghost_change target d) n_25) eqn:H1; [|destruct H].
    apply andb_true_iff in H1 as [H1 H2].
    destruct H as [<-|[]]. auto. }
  destruct (Number_strict_equal (i_costume d) (currentCostume target));
    cbn [negb] in H; [|destruct H].
  destruct (negb (Number_strict_equal (rendered_direction target) (i_direction d)));
    destruct (negb (Number_strict_equal (fst (rendered_scale target)) (fst (i_scale d)))
              || negb (Number_strict_equal (snd (rendered_scale target)) (snd (i_scale d))));
    destruct (Number_strict_equal (Math_sign (fst (rendered_scale target)))
                (Math_sign (fst (i_scale d)))
              && Number_strict_equal (Math_sign (snd (rendered_scale target)))
                   (Math_sign (snd (i_scale d))));
    destruct (Number_lt
                (Math_abs (Number_sub (fst (rendered_scale target)) (fst (i_scale d))))
                n_100);
    cbv beta iota zeta delta [In] in H;
    first [ contradiction | destruct H as [<-|[]]; exact I ].
Qed.

(** X16: a call that moves a drawable in [interpolateTargets] comes from
    a target that moved by more than 0.1 on some axis and by less than
    the tolerance, 50 or 10 more than the size of its bounds, on both;
    the position passed is the midpoint of the old and the new one. *)
Theorem interpolateTargets_position (renderer : bool) (targets : list Target)
    (id : Z) (position : Number * Number) :
  In (updateDrawablePosition id position)
     (interpolateTargets Math_sin Math_cos Math_atan2 Math_PI renderer targets) ->
  exists target d,
    In target targets
    /\ interpolationData target = Some d
    /\ id = drawableID target
    /\ Number_gt (x_distance target d) n_0_1
       || Number_gt (y_distance target d) n_0_1 = true
    /\ Number_lt (x_distance target d) (x_tolerance target) = true
    /\ Number_lt (y_distance target d) (y_tolerance target) = true
    /\ position =
         (Number_div (Number_add (i_x d) (t_x target)) n_2,
          Number_div (Number_add (i_y d) (t_y target)) n_2).
Proof.
  unfold interpolateTargets. destruct renderer; cbn [negb]; [|intros []].
  intros H. apply in_flat_map in H as (target & Hin & H).
  destruct (interpolationData target) as [d|] eqn:Hd; [|destruct H].
  apply interpolateTarget_position_ghost in H.
  exists target, d. auto.
Qed.

(** X17: the only effect that [interpolateTargets] sets is [ghost], for a
    target whose ghost effect changed by more than 0 and less than 25;
    the value passed is the midpoint. *)
Theorem interpolateTargets_ghost (renderer : bool) (targets : list Target)
    (id : Z) (effect : string) (value : Number) :
  In (updateDrawableEffect id effect value)
     (interpolateTargets Math_sin Math_cos Math_atan2 Math_PI renderer targets) ->
  exists target d,
    In target targets
    /\ interpolationData target = Some d
    /\ id = drawableID target /\ effect = "ghost"
    /\ Number_gt (ghost_change target d) n_0 = true
    /\ Number_lt (ghost_change target d) n_25 = true
    /\ value = Number_div (Number_add (effects_ghost target) (i_ghost d)) n_2.
Proof.
  unfold interpolateTargets. destruct renderer; cbn [negb]; [|intros []].
  intros H. apply in_flat_map in H as (target & Hin & H).
  destruct (interpolationData target) as [d|] eqn:Hd; [|destruct H].
  apply interpolateTarget_position_ghost in H.
  exists target, d. auto.
Qed.

Lemma interpolateTarget_direction target d id dir sc :
  In (updateDrawableDirectionScale id dir sc)
     (interpolateTarget Math_sin Math_cos Math_atan2 Math_PI target d) ->
  if direction_unchanged target d
  then dir = rendered_direction target /\ sc = scale_midpoint target d
  else dir = average_direction Math_sin Math_cos Math_atan2 Math_PI target d.
Proof.
  intros H. unfold interpolateTarget in H.
  apply in_app_or in H as [H|H].
  { destruct (_ || _); [|destruct H].
    destruct (_ && _); [|destruct H].
    destruct H as [H|[]]. discriminate. }
  apply in_app_or in H as [H|H].
  { destruct (_ && _); [|destruct H].
    destruct H as [H|[]]. discriminate. }
  unfold direction_unchanged, average_direction, scale_midpoint.
  destruct (Number_strict_equal (i_costume d) (currentCostume target));
    cbn [negb] in H; [|destruct H].
  destruct (Number_strict_equal (rendered_direction target) (i_direction d));
    cbn [negb] in H;
    destruct (negb (Number_strict_equal (fst (rendered_scale target)) (fst (i_scale d)))
              || negb (Number_strict_equal (snd (rendered_scale target)) (snd (i_scale d))));
    destruct (Number_strict_equal (Math_sign (fst (rendered_scale target)))
                (Math_sign (fst (i_scale d)))
              && Number_strict_equal (Math_sign (snd (rendered_scale target)))
                   (Math_sign (snd (i_scale d))));
    destruct (Number_lt
                (Math_abs (Number_sub (fst (rendered_scale target)) (fst (i_scale d))))
                n_100);
    cbv beta iota zeta delta [In] in H;
    first [ contradiction
          | destruct H as [H|[]]; injection H as _ <- <-;
            repeat split; reflexivity ].
Qed.

(** X18: the direction passed by a call that sets direction and scale is
    the average of the old and the new direction when they differ;
    when they are the same it is the target's direction, and the call
    is made because the scale is interpolated. *)
Theorem interpolateTargets_direction (renderer : bool) (targets : list Target)
    (id : Z) (dir : Number) (sc : Number * Number) :
  In (updateDrawableDirectionScale id dir sc)
     (interpolateTargets Math_sin Math_cos Math_atan2 Math_PI renderer targets) ->
  exists target d,
    In target targets
    /\ interpolationData target = Some d
    /\ if direction_unchanged target d
       then dir = rendered_direction target /\ sc = scale_midpoint target d
       else dir = average_direction Math_sin Math_cos Math_atan2 Math_PI
                    target d.
Proof.
  unfold interpolateTargets. destruct renderer; cbn [negb]; [|intros []].
  intros H. apply in_flat_map in H as (target & Hin & H).
  destruct (interpolationData target) as [d|] eqn:Hd; [|destruct H].
  apply interpolateTarget_direction in H.
  exists target, d. auto.
Qed.

Lemma Number_sub_diag (x : Number) :
  Number_sub x x = pos_zero \/ Number_sub x x = NaN.
Proof.
  destruct x as [[|]|[|]| |s m e]; cbn; auto.
  left. unfold Number_sub, SFsub. rewrite Z.sub_diag. reflexivity.
Qed.

Lemma distance_diag (x : Number) :
  Number_gt (Math_abs (Number_sub x x)) n_0_1 = false
  /\ Number_gt (Math_abs (Number_sub x x)) n_0 = false.
Proof. destruct (Number_sub_diag x) as [-> | ->]; split; reflexivity. Qed.

Lemma strict_equal_refl (x : Number) :
  Number_isNaN x = false -> Number_strict_equal x x = true.
Proof.
  destruct x as [[|]|[|]| |[|] m e]; try reflexivity; try discriminate;
    intros _; unfold Number_strict_equal, SFeqb, SFcompare;
    rewrite Z.compare_refl, Pos.compare_refl; reflexivity.
Qed.

Lemma strict_equal_same (x : Number) :
  Number_strict_equal x x = negb (Number_isNaN x).
Proof.
  destruct (Number_isNaN x) eqn:H.
  - destruct x; try discriminate. reflexivity.
  - apply strict_equal_refl, H.
Qed.

Lemma sign_equal_same (x : Number) :
  Number_strict_equal (Math_sign x) (Math_sign x) = negb (Number_isNaN x).
Proof. destruct x as [[|]|[|]| |[|] m e]; reflexivity. Qed.

(** X19: right after [setupTargets], [interpolateTargets] makes no call,
    for targets whose direction is a number. *)
Theorem interpolate_after_setup_is_idle (renderer : bool)
    (targets : list Target) :
  Forall (fun target => Number_isNaN (rendered_direction target) = false)
    targets ->
  interpolateTargets Math_sin Math_cos Math_atan2 Math_PI renderer
    (setupTargets targets) = [].
Proof.
  unfold interpolateTargets, setupTargets.
  destruct renderer; cbn [negb]; [|reflexivity].
  induction 1 as [|target targets Hd _ IH]; [reflexivity|].
  cbn [map flat_map]. rewrite IH, app_nil_r.
  destruct (visible target && negb (isStage target)); [|reflexivity].
  cbn [interpolationData set_interpolationData].
  unfold interpolateTarget.
  cbn [t_x t_y i_x i_y i_ghost i_costume i_direction i_scale effects_ghost
       currentCostume rendered_direction rendered_scale set_interpolationData
       aabb_width aabb_height drawableID].
  destruct (distance_diag (t_x target)) as [-> _].
  destruct (distance_diag (t_y target)) as [-> _].
  destruct (distance_diag (effects_ghost target)) as [_ ->].
  cbn [orb andb app].
  destruct (Number_strict_equal (currentCostume target) (currentCostume target));
    cbn [negb]; [|reflexivity].
  rewrite (strict_equal_refl _ Hd). cbn [negb].
  rewrite !sign_equal_same, !strict_equal_same.
  destruct (Number_isNaN (fst (rendered_scale target))),
    (Number_isNaN (snd (rendered_scale target))); reflexivity.
Qed.

End MoreInterpolateProperties.

Lemma interpolateTargets_position_witness :
  let same := fun x : Number => x in
  let n := Number_of_Z in
  let target :=
    mkTarget 7 true false (n 0) (n 0) (n 1) (n 0) (n 90) (n 100, n 100)
      (n 20) (n 20)
      (Some (mkInterpolationData (n 10) (n 0) (n 90) (n 100, n 100) (n 1) (n 0))) in
  let call := updateDrawablePosition 7 (n 5, n 0) in
  In call (interpolateTargets same same (fun x _ => x) (n 3) true [target])
  /\ exists t d,
       In t [target]
       /\ interpolationData t = Some d
       /\ 7 = drawableID t
       /\ Number_gt (x_distance t d) n_0_1
          || Number_gt (y_distance t d) n_0_1 = true
       /\ Number_lt (x_distance t d) (x_tolerance t) = true
       /\ Number_lt (y_distance t d) (y_tolerance t) = true
       /\ (n 5, n 0) =
            (Number_div (Number_add (i_x d) (t_x t)) n_2,
             Number_div (Number_add (i_y d) (t_y t)) n_2).
Proof.
  intros same n target call.
  assert (H : In call (interpolateTargets same same (fun x _ => x) (n 3) true
                         [target]))
    by (vm_compute; left; reflexivity).
  split; [exact H|].
  exact (interpolateTargets_position same same (fun x _ => x) (n 3) true
           [target] 7 (n 5, n 0) H).
Defined.

Lemma interpolateTargets_ghost_witness :
  let same := fun x : Number => x in
  let n := Number_of_Z in
  let target :=
    mkTarget 7 true false (n 0) (n 0) (n 1) (n 0) (n 90) (n 100, n 100)
      (n 20) (n 20)
      (Some (mkInterpolationData (n 0) (n 0) (n 90) (n 100, n 100) (n 1) (n 10))) in
  let call := updateDrawableEffect 7 "ghost" (n 5) in
  In call (interpolateTargets same same (fun x _ => x) (n 3) true [target])
  /\ exists t d,
       In t [target]
       /\ interpolationData t = Some d
       /\ 7 = drawableID t /\ "ghost" = "ghost"
       /\ Number_gt (ghost_change t d) n_0 = true
       /\ Number_lt (ghost_change t d) n_25 = true
       /\ n 5 = Number_div (Number_add (effects_ghost t) (i_ghost d)) n_2.
Proof.
  intros same n target call.
  assert (H : In call (interpolateTargets same same (fun x _ => x) (n 3) true
                         [target]))
    by (vm_compute; left; reflexivity).
  split; [exact H|].
  exact (interpolateTargets_ghost same same (fun x _ => x) (n 3) true
           [target] 7 "ghost" (n 5) H).
Defined.

Lemma interpolateTargets_direction_witness :
  let same := fun x : Number => x in
  let n := Number_of_Z in
  let target :=
    mkTarget 7 true false (n 0) (n 0) (n 1) (n 0) (n 90) (n 100, n 100)
      (n 20) (n 20)
      (Some (mkInterpolationData (n 0) (n 0) (n 90) (n 50, n 50) (n 1) (n 0))) in
  let call := updateDrawableDirectionScale 7 (n 90) (n 75, n 75) in
  In call (interpolateTargets same same (fun x _ => x) (n 3) true [target])
  /\ exists t d,
       In t [target]
       /\ interpolationData t = Some d
       /\ if direction_unchanged t d
          then n 90 = rendered_direction t /\ (n 75, n 75) = scale_midpoint t d
          else n 90 = average_direction same same (fun x _ => x) (n 3) t d.
Proof.
  intros same n target call.
  assert (H : In call (interpolateTargets same same (fun x _ => x) (n 3) true
                         [target]))
    by (vm_compute; left; reflexivity).
  split; [exact H|].
  exact (interpolateTargets_direction same same (fun x _ => x) (n 3) true
           [target] 7 (n 90) (n 75, n 75) H).
Defined.

Lemma interpolate_after_setup_is_idle_witness :
  let same := fun x : Number => x in
  let n := Number_of_Z in
  let target :=
    mkTarget 7 true false (n 0) (n 0) (n 1) (n 0) (n 90) (n 100, n 100)
      (n 20) (n 20) None in
  Forall (fun target => Number_isNaN (rendered_direction target) = false)
    [target]
  /\ interpolateTargets same same (fun x _ => x) (n 3) true
       (setupTargets [target]) = [].
Proof.
  intros same n target.
  assert (H : Forall (fun target => Number_isNaN (rendered_direction target) = false)
                [target])
    by (constructor; [reflexivity|constructor]).
  split; [exact H|].
  exact (interpolate_after_setup_is_idle same same (fun x _ => x) (n 3) true
           [target] H).
Defined.

(** X20: [restoreTargets] after [setupTargets] makes its three calls for
    the visible targets that are not the stage, with their current
    values, and for no other target; and a second [setupTargets]
    changes nothing. *)
Theorem restore_after_setup (targets : list Target) :
  restoreTargets (setupTargets targets)
  = flat_map (fun target =>
                if visible target && negb (isStage target)
                then restore_calls target else []) targets
  /\ setupTargets (setupTargets targets) = setupTargets targets.
Proof.
  unfold restoreTargets, setupTargets. split.
  - induction targets as [|target targets IH]; [reflexivity|].
    cbn [map flat_map]. rewrite IH. f_equal.
    destruct (visible target && negb (isStage target)); reflexivity.
  - rewrite map_map. apply map_ext. intros target.
    destruct (visible target && negb (isStage target)) eqn:E;
      cbn [visible isStage set_interpolationData]; rewrite E; reflexivity.
Qed.
